(** * AiSEG2 monitor: appliance client and cache server, verified against
      their description

    The development follows the two modules of the program:
    - [aiseg2.js], the appliance client: HTTP Digest transport
      ([digestFetch], [devicePost]), the scrapers ([parseKwh],
      [getTotals], [getCircuits], [getCircuitKwh], [getAllCircuitKwh]),
      the realtime mapper ([getRealtime]), the session token ([getToken])
      and the control operations;
    - [server.js], the cache and REST server: the cache record, the
      cached reads, the control endpoint and the nickname endpoint.

    Conventions of the embedding.
    - A JavaScript string is the list of its UTF-16 code units ([str]).
    - A JavaScript value is a [JsVal]; an object is the association list
      of its own properties in the order of enumeration, and has
      [Object.prototype] as its prototype: the conversions to a string
      and to a number go through its [toString], and a property read
      under a computed name is read from the prototype when the object
      has none of its own ([Js.inherited]).
    - A JavaScript number is an exact decimal [Dec m e] (the value
      [m * 10^e]), [NaN] or an infinity: rounding to binary64 is not
      modelled, so a literal and the text it is parsed from denote the
      same [num].
    - Asynchronous code is a tree of effects ([prog]); a call that may
      throw returns an [outcome].  [Promise.all] is a node of [aprog]
      whose executions interleave the executions of its tasks.
    - [md5], [crypto.randomBytes], base64, [JSON.stringify] and the URL
      encoders are host functions: they are parameters ([Host]) or
      effects. *)

From Stdlib Require Import ZArith NArith Lia Bool String Ascii.
From stdpp Require Import base list gmap.

Local Open Scope Z_scope.
Local Set Warnings "-register-all".

(** ** Strings as lists of code units *)

Module JsString.

Definition str := list N.

(** The code units of an ASCII literal. *)
Definition lit (s : string) : str :=
  List.map N_of_ascii (list_ascii_of_string s).

Definition dquote : N := 34%N.

Fixpoint str_eqb (a b : str) : bool :=
  match a, b with
  | [], [] => true
  | x :: a', y :: b' => N.eqb x y && str_eqb a' b'
  | _, _ => false
  end.

(** [s.startsWith(p)] *)
Fixpoint starts_with (p s : str) : bool :=
  match p, s with
  | [], _ => true
  | x :: p', y :: s' => N.eqb x y && starts_with p' s'
  | _ :: _, [] => false
  end.

(** [s.includes(p)] *)
Fixpoint includes (p s : str) : bool :=
  starts_with p s ||
  match s with
  | [] => false
  | _ :: s' => includes p s'
  end.

(** [s.indexOf(p)], [None] for -1. *)
Fixpoint indexOf (p s : str) : option nat :=
  if starts_with p s then Some O
  else match s with
       | [] => None
       | _ :: s' => S <$> indexOf p s'
       end.

(** [s.lastIndexOf(p)], [None] for -1. *)
Fixpoint lastIndexOf (p s : str) : option nat :=
  match s with
  | [] => if starts_with p [] then Some O else None
  | _ :: s' =>
      match lastIndexOf p s' with
      | Some i => Some (S i)
      | None => if starts_with p s then Some O else None
      end
  end.

(** The longest prefix of characters satisfying [f], and the rest. *)
Fixpoint span (f : N -> bool) (s : str) : str * str :=
  match s with
  | c :: s' => if f c then let '(a, b) := span f s' in (c :: a, b) else ([], s)
  | [] => ([], [])
  end.

(** [s.slice(i, j)] for [0 <= i], [0 <= j]. *)
Definition slice (i j : nat) (s : str) : str := take (j - i)%nat (drop i s).

Definition in_range (lo hi c : N) : bool := (N.leb lo c && N.leb c hi)%N.

(** [\d] *)
Definition is_digit (c : N) : bool := in_range 48 57 c.

(** [\w], without the unicode flag: [A-Za-z0-9_] *)
Definition is_word (c : N) : bool :=
  in_range 65 90 c || in_range 97 122 c || is_digit c || N.eqb c 95.

(** [\s] and the characters removed by [trim]: WhiteSpace and
    LineTerminator of ECMAScript. *)
Definition is_space (c : N) : bool :=
  in_range 9 13 c || N.eqb c 32 || N.eqb c 160 || N.eqb c 5760 ||
  in_range 8192 8202 c || N.eqb c 8232 || N.eqb c 8233 || N.eqb c 8239 ||
  N.eqb c 8287 || N.eqb c 12288 || N.eqb c 65279.

Definition trim_start (s : str) : str := snd (span is_space s).
Definition trim_end (s : str) : str := rev (trim_start (rev s)).
(** [s.trim()] *)
Definition trim (s : str) : str := trim_end (trim_start s).

(** [s.replace(c, '')] with a one-character string pattern: only the
    first occurrence is replaced. *)
Fixpoint remove_first (c : N) (s : str) : str :=
  match s with
  | [] => []
  | x :: s' => if N.eqb x c then s' else x :: remove_first c s'
  end.

Definition digit_val (c : N) : Z := Z.of_N c - 48.

(** The value of a string of decimal digits. *)
Definition digits_val (ds : str) : Z :=
  fold_left (fun acc c => 10 * acc + digit_val c) ds 0.

End JsString.
Export JsString.

(** ** Numbers *)

Module JsNum.

Inductive num : Type :=
| NaN
| Inf (neg : bool)
| Dec (m e : Z).

(** Trailing zeros of the mantissa move into the exponent, so that a value
    has one representation. *)
Fixpoint strip_zeros (fuel : nat) (m e : Z) : Z * Z :=
  match fuel with
  | O => (m, e)
  | S fuel' =>
      if (m mod 10 =? 0) && negb (m =? 0)
      then strip_zeros fuel' (m / 10) (e + 1)
      else (m, e)
  end.

Definition mkDec (m e : Z) : num :=
  if m =? 0 then Dec 0 0
  else let '(m', e') := strip_zeros (Z.to_nat (Z.log2 (Z.abs m))) m e in
       Dec m' e'.

Definition num_of_Z (z : Z) : num := mkDec z 0.

Definition num_eqb (a b : num) : bool :=
  match a, b with
  | Inf x, Inf y => Bool.eqb x y
  | Dec m e, Dec m' e' => (m =? m') && ((e =? e') || (m =? 0))
  | _, _ => false
  end.

(** ToBoolean on a number: [NaN] and zero are falsy. *)
Definition num_truthy (a : num) : bool :=
  match a with
  | NaN => false
  | Inf _ => true
  | Dec m _ => negb (m =? 0)
  end.

Definition is_sign (c : N) : bool := N.eqb c 43 || N.eqb c 45.
Definition is_minus (c : N) : bool := N.eqb c 45.

(** An optional sign: whether it is a minus, and the rest. *)
Definition read_sign (s : str) : bool * str :=
  match s with
  | c :: s' => if is_sign c then (is_minus c, s') else (false, s)
  | [] => (false, s)
  end.

(** An ExponentPart [[eE][+-]?\d+] at the head of [s]: its value and the
    rest, [None] when [s] does not start with a complete one. *)
Definition read_exponent (s : str) : option (Z * str) :=
  match s with
  | c :: s' =>
      if N.eqb c 101 || N.eqb c 69 then
        let '(neg, s'') := read_sign s' in
        let '(ds, rest) := span is_digit s'' in
        match ds with
        | [] => None
        | _ => Some (if neg then - digits_val ds else digits_val ds, rest)
        end
      else None
  | [] => None
  end.

(** Digits, an optional fraction: the digits before and after the point
    and the rest. *)
Definition read_decimal (s : str) : str * str * str :=
  let '(d1, s2) := span is_digit s in
  match s2 with
  | c :: s2' =>
      if N.eqb c 46 then let '(d2, s3) := span is_digit s2' in (d1, d2, s3)
      else (d1, [], s2)
  | [] => (d1, [], s2)
  end.

Definition signed (neg : bool) (m : Z) : Z := if neg then - m else m.

(** [parseFloat] on a string: leading white space is skipped and the
    longest prefix that is a StrDecimalLiteral is read; [NaN] when there
    is none. *)
Definition parseFloat_str (s : str) : num :=
  let '(neg, s1) := read_sign (trim_start s) in
  if starts_with (lit "Infinity") s1 then Inf neg
  else
    let '(d1, d2, s3) := read_decimal s1 in
    match d1 ++ d2 with
    | [] => NaN
    | ds =>
        let x := match read_exponent s3 with Some (x, _) => x | None => 0 end in
        mkDec (signed neg (digits_val ds)) (x - Z.of_nat (length d2))
    end.

Definition hex_val (c : N) : option Z :=
  if is_digit c then Some (Z.of_N c - 48)
  else if in_range 97 102 c then Some (Z.of_N c - 87)
  else if in_range 65 70 c then Some (Z.of_N c - 55)
  else None.

(** The value of a non-empty string of digits in base [b] (2, 8 or 16),
    [None] when a character is not a digit of that base. *)
Definition radix_val (b : Z) (ds : str) : option Z :=
  match ds with
  | [] => None
  | _ =>
      fold_left
        (fun acc c =>
           match acc, hex_val c with
           | Some a, Some d => if d <? b then Some (b * a + d) else None
           | _, _ => None
           end) ds (Some 0)
  end.

(** StringToNumber, the conversion applied by [Number(s)], [Math.min] and
    the relational operators: the whole trimmed string must be a numeric
    literal; the empty string is 0. *)
Definition str_to_num (s : str) : num :=
  match trim s with
  | [] => Dec 0 0
  | c0 :: c1 :: ds =>
      if N.eqb c0 48 && (N.eqb c1 120 || N.eqb c1 88) then
        match radix_val 16 ds with Some v => mkDec v 0 | None => NaN end
      else if N.eqb c0 48 && (N.eqb c1 111 || N.eqb c1 79) then
        match radix_val 8 ds with Some v => mkDec v 0 | None => NaN end
      else if N.eqb c0 48 && (N.eqb c1 98 || N.eqb c1 66) then
        match radix_val 2 ds with Some v => mkDec v 0 | None => NaN end
      else
        let '(neg, s1) := read_sign (c0 :: c1 :: ds) in
        if str_eqb s1 (lit "Infinity") then Inf neg
        else
          let '(d1, d2, s3) := read_decimal s1 in
          match d1 ++ d2, s3 with
          | [], _ => NaN
          | all, [] => mkDec (signed neg (digits_val all)) (- Z.of_nat (length d2))
          | all, _ =>
              match read_exponent s3 with
              | Some (x, []) =>
                  mkDec (signed neg (digits_val all)) (x - Z.of_nat (length d2))
              | _ => NaN
              end
          end
  | [c] => if is_digit c then mkDec (digit_val c) 0 else NaN
  end.

(** Comparison of two numbers, [None] when one of them is [NaN]. *)
Definition num_cmp (a b : num) : option comparison :=
  match a, b with
  | NaN, _ | _, NaN => None
  | Inf x, Inf y => Some (if x then (if y then Eq else Lt) else (if y then Gt else Eq))
  | Inf x, Dec _ _ => Some (if x then Lt else Gt)
  | Dec _ _, Inf y => Some (if y then Gt else Lt)
  | Dec m e, Dec m' e' =>
      Some (if e <=? e' then m ?= m' * 10 ^ (e' - e) else m * 10 ^ (e - e') ?= m')
  end.

(** [Math.min(a, b)] and [Math.max(a, b)] on numbers. *)
Definition num_min (a b : num) : num :=
  match num_cmp a b with
  | None => NaN
  | Some Gt => b
  | Some _ => a
  end.

Definition num_max (a b : num) : num :=
  match num_cmp a b with
  | None => NaN
  | Some Lt => b
  | Some _ => a
  end.

Fixpoint uint_codes (u : Decimal.uint) : str :=
  match u with
  | Decimal.Nil => []
  | Decimal.D0 u => 48%N :: uint_codes u
  | Decimal.D1 u => 49%N :: uint_codes u
  | Decimal.D2 u => 50%N :: uint_codes u
  | Decimal.D3 u => 51%N :: uint_codes u
  | Decimal.D4 u => 52%N :: uint_codes u
  | Decimal.D5 u => 53%N :: uint_codes u
  | Decimal.D6 u => 54%N :: uint_codes u
  | Decimal.D7 u => 55%N :: uint_codes u
  | Decimal.D8 u => 56%N :: uint_codes u
  | Decimal.D9 u => 57%N :: uint_codes u
  end.

(** The decimal digits of a natural number, ["0"] for zero. *)
Definition nat_digits (z : Z) : str := uint_codes (N.to_uint (Z.to_N z)).

(** Number::toString in radix 10, on the digits [ds] of the mantissa
    (without trailing zeros) and the position [n] of the decimal point. *)
Definition format_digits (ds : str) (n : Z) : str :=
  let k := Z.of_nat (length ds) in
  if (k <=? n) && (n <=? 21) then ds ++ repeat 48%N (Z.to_nat (n - k))
  else if (0 <? n) && (n <=? 21) then
    take (Z.to_nat n) ds ++ [46%N] ++ drop (Z.to_nat n) ds
  else if (-6 <? n) && (n <=? 0) then
    [48%N; 46%N] ++ repeat 48%N (Z.to_nat (- n)) ++ ds
  else
    let x := (if n - 1 <? 0 then [45%N] else [43%N]) ++ nat_digits (Z.abs (n - 1)) in
    match ds with
    | [d] => [d] ++ [101%N] ++ x
    | d :: ds' => [d] ++ [46%N] ++ ds' ++ [101%N] ++ x
    | [] => []
    end.

(** ToString on a number. *)
Definition num_to_str (a : num) : str :=
  match a with
  | NaN => lit "NaN"
  | Inf neg => if neg then lit "-Infinity" else lit "Infinity"
  | Dec m e =>
      match mkDec m e with
      | Dec m' e' =>
          if m' =? 0 then lit "0"
          else
            let ds := nat_digits (Z.abs m') in
            (if m' <? 0 then [45%N] else []) ++
            format_digits ds (Z.of_nat (length ds) + e')
      | _ => []
      end
  end.

End JsNum.
Export JsNum.

(** ** Values *)

Module Js.

(** The objects of the runtime a program can reach without creating
    them: [Object.prototype] and the functions it holds. *)
Inductive native : Type :=
| ObjectPrototype
| PrototypeFunction (name : str).

(** The values the program holds: what [JSON.parse] returns, copies of
    such objects with properties added, and the objects of the runtime
    read from [Object.prototype].  The properties of an object are its own
    enumerable properties, in the order of enumeration; the prototype of
    an object is [Object.prototype]. *)
Inductive JsVal : Type :=
| VUndef
| VNull
| VBool (b : bool)
| VNum (n : num)
| VStr (s : str)
| VArr (l : list JsVal)
| VObj (fields : list (str * JsVal))
| VNative (n : native).

(** What a rejected promise or a [throw] carries. *)
Inductive error : Type :=
| TypeError                      (* property of null, call of a non-function *)
| SyntaxError                    (* JSON.parse, r.json() *)
| NetworkError (msg : str)       (* fetch or body read rejected *)
| HttpError (status : Z)         (* new Error(`AiSEG2 HTTP ${status}`) *)
| IOError (msg : str).           (* fs.writeFileSync *)

Inductive outcome (A : Type) : Type :=
| Ok (a : A)
| Err (e : error).
Arguments Ok {A} a.
Arguments Err {A} e.

Definition obind {A B} (o : outcome A) (f : A -> outcome B) : outcome B :=
  match o with
  | Ok a => f a
  | Err e => Err e
  end.

(** [omap f l]: [l.map(f)] where [f] may throw. *)
Fixpoint omap {A B} (f : A -> outcome B) (l : list A) : outcome (list B) :=
  match l with
  | [] => Ok []
  | a :: l' => obind (f a) (fun b => obind (omap f l') (fun bs => Ok (b :: bs)))
  end.

(** [ofilter f l]: [l.filter(f)] where [f] may throw. *)
Fixpoint ofilter {A} (f : A -> outcome bool) (l : list A) : outcome (list A) :=
  match l with
  | [] => Ok []
  | a :: l' =>
      obind (f a) (fun b =>
      obind (ofilter f l') (fun r => Ok (if b then a :: r else r)))
  end.

(** *** Objects *)

Fixpoint obj_get (k : str) (o : list (str * JsVal)) : JsVal :=
  match o with
  | [] => VUndef
  | (k', v) :: o' => if str_eqb k k' then v else obj_get k o'
  end.

(** [o[k] = v] for a name [k] that is no array index: an existing
    property keeps its place, a new one comes last. *)
Fixpoint obj_set (k : str) (v : JsVal) (o : list (str * JsVal)) : list (str * JsVal) :=
  match o with
  | [] => [(k, v)]
  | (k', v') :: o' =>
      if str_eqb k k' then (k, v) :: o' else (k', v') :: obj_set k v o'
  end.

Fixpoint obj_has (k : str) (o : list (str * JsVal)) : bool :=
  match o with
  | [] => false
  | (k', _) :: o' => str_eqb k k' || obj_has k o'
  end.

(** The array index a property name denotes: a decimal numeral without
    sign or leading zero, at most 2^32 - 2. *)
Definition array_index (k : str) : option Z :=
  match k with
  | [] => None
  | c :: k' =>
      if forallb is_digit k &&
         (negb (N.eqb c 48) || match k' with [] => true | _ => false end) &&
         (Nat.leb (length k) 10) && (digits_val k <=? 4294967294)
      then Some (digits_val k) else None
  end.

(** The definition of the property [k] on an object under construction:
    an existing property keeps its place; a new one whose name is an array
    index comes among the array indices, which are enumerated first, in
    ascending order; any other new one comes last. *)
Fixpoint obj_define (k : str) (v : JsVal) (o : list (str * JsVal)) : list (str * JsVal) :=
  match o with
  | [] => [(k, v)]
  | (k', v') :: o' =>
      if str_eqb k k' then (k, v) :: o'
      else if obj_has k o' then (k', v') :: obj_define k v o'
      else
        match array_index k, array_index k' with
        | Some i, Some i' =>
            if i <? i' then (k, v) :: (k', v') :: o' else (k', v') :: obj_define k v o'
        | Some _, None => (k, v) :: (k', v') :: o'
        | None, _ => (k', v') :: obj_define k v o'
        end
  end.

(** [v.k] for a name [k] that no prototype defines: a property of [null]
    or [undefined] throws, a primitive or an array has none. *)
Definition get_prop (v : JsVal) (k : str) : outcome JsVal :=
  match v with
  | VUndef | VNull => Err TypeError
  | VObj o => Ok (obj_get k o)
  | _ => Ok VUndef
  end.

(** [v?.k] *)
Definition get_prop_opt (v : JsVal) (k : str) : JsVal :=
  match v with
  | VObj o => obj_get k o
  | _ => VUndef
  end.

(** ToBoolean *)
Definition truthy (v : JsVal) : bool :=
  match v with
  | VUndef | VNull => false
  | VBool b => b
  | VNum n => num_truthy n
  | VStr s => match s with [] => false | _ => true end
  | VArr _ | VObj _ | VNative _ => true
  end.

(** [a || b] and [a ?? b] on values already evaluated. *)
Definition js_or (a b : JsVal) : JsVal := if truthy a then a else b.
Definition js_nullish (a b : JsVal) : JsVal :=
  match a with
  | VUndef | VNull => b
  | _ => a
  end.

(** [v === s] for a string [s], [v === n] for a number [n]. *)
Definition is_str (v : JsVal) (s : str) : bool :=
  match v with
  | VStr s' => str_eqb s' s
  | _ => false
  end.

Definition is_num (v : JsVal) (n : num) : bool :=
  match v with
  | VNum n' => match n' with
               | Dec m e => num_eqb (mkDec m e) n
               | _ => num_eqb n' n
               end
  | _ => false
  end.

Definition join_comma (parts : list str) : str :=
  match parts with
  | [] => []
  | p :: ps => p ++ concat (List.map (fun q => 44%N :: q) ps)
  end.

(** The text of a function of the runtime. *)
Definition function_text (name : str) : str :=
  lit "function " ++
  (if str_eqb name (lit "constructor") then lit "Object" else name) ++
  lit "() { [native code] }".

(** ToString: template literals and [String(v)].  An object is converted
    by its [toString]: the one of [Object.prototype], unless the object
    has a property of that name of its own; such a property of a value
    read from JSON is no function, and the conversion throws (the
    [valueOf] tried next is no function or returns the object). *)
Fixpoint ToString (v : JsVal) : outcome str :=
  match v with
  | VUndef => Ok (lit "undefined")
  | VNull => Ok (lit "null")
  | VBool b => Ok (if b then lit "true" else lit "false")
  | VNum n => Ok (num_to_str n)
  | VStr s => Ok s
  | VArr l =>
      obind ((fix each (l : list JsVal) : outcome (list str) :=
                match l with
                | [] => Ok []
                | x :: l' =>
                    obind (match x with
                           | VUndef | VNull => Ok []
                           | _ => ToString x
                           end) (fun p =>
                    obind (each l') (fun ps => Ok (p :: ps)))
                end) l)
            (fun parts => Ok (join_comma parts))
  | VObj o => if obj_has (lit "toString") o then Err TypeError
              else Ok (lit "[object Object]")
  | VNative ObjectPrototype => Ok (lit "[object Object]")
  | VNative (PrototypeFunction name) => Ok (function_text name)
  end.

(** ToNumber; an object is converted to a string first, as its [valueOf]
    is no function or returns the object. *)
Definition ToNumber (v : JsVal) : outcome num :=
  match v with
  | VUndef => Ok NaN
  | VNull => Ok (Dec 0 0)
  | VBool b => Ok (if b then Dec 1 0 else Dec 0 0)
  | VNum n => Ok n
  | VStr s => Ok (str_to_num s)
  | VArr _ | VObj _ | VNative _ => obind (ToString v) (fun s => Ok (str_to_num s))
  end.

(** [parseFloat(v)]: the argument is converted to a string first; the
    string of a number parses back to that number. *)
Definition parseFloat (v : JsVal) : outcome num :=
  match v with
  | VNum n => Ok (match n with Dec m e => mkDec m e | _ => n end)
  | _ => obind (ToString v) (fun s => Ok (parseFloat_str s))
  end.

(** [v > 0] *)
Definition gt_zero (v : JsVal) : outcome bool :=
  obind (ToNumber v) (fun n =>
    Ok (match num_cmp n (Dec 0 0) with
        | Some Gt => true
        | _ => false
        end)).

(** The property [k] an object without such a property of its own reads
    from [Object.prototype]. *)
Definition prototype_functions : list str :=
  [lit "constructor"; lit "__defineGetter__"; lit "__defineSetter__";
   lit "hasOwnProperty"; lit "__lookupGetter__"; lit "__lookupSetter__";
   lit "isPrototypeOf"; lit "propertyIsEnumerable"; lit "toString";
   lit "valueOf"; lit "toLocaleString"].

Definition inherited (k : str) : JsVal :=
  if str_eqb k (lit "__proto__") then VNative ObjectPrototype
  else if existsb (str_eqb k) prototype_functions then VNative (PrototypeFunction k)
  else VUndef.

(** [{...v}]: the own enumerable properties of [v]. *)
Definition spread (v : JsVal) : list (str * JsVal) :=
  match v with
  | VObj o => o
  | VArr l => imap (fun i x => (nat_digits (Z.of_nat i), x)) l
  | VStr s => imap (fun i c => (nat_digits (Z.of_nat i), VStr [c])) s
  | _ => []
  end.

End Js.
Export Js.

(** ** JSON.parse *)

Module Json.

Inductive presult (A : Type) : Type :=
| POk (a : A) (rest : str)
| PFail
| PFuel.
Arguments POk {A} a rest.
Arguments PFail {A}.
Arguments PFuel {A}.

Definition is_json_ws (c : N) : bool :=
  N.eqb c 32 || N.eqb c 9 || N.eqb c 10 || N.eqb c 13.

Definition skip_ws (s : str) : str := snd (span is_json_ws s).

(** The character denoted by a one-letter escape. *)
Definition escape_char (c : N) : option N :=
  if N.eqb c 34 then Some 34%N          (* quotation mark *)
  else if N.eqb c 92 then Some 92%N     (* reverse solidus *)
  else if N.eqb c 47 then Some 47%N     (* solidus *)
  else if N.eqb c 98 then Some 8%N      (* b: backspace *)
  else if N.eqb c 102 then Some 12%N    (* f: form feed *)
  else if N.eqb c 110 then Some 10%N    (* n: line feed *)
  else if N.eqb c 114 then Some 13%N    (* r: carriage return *)
  else if N.eqb c 116 then Some 9%N     (* t: tab *)
  else None.

Inductive sstate : Type :=
| SNormal
| SEsc
| SHex (k : nat) (v : N).

(** The characters of a string literal after its opening quote, up to the
    closing quote: the decoded string and the rest of the input. *)
Fixpoint parse_chars (st : sstate) (acc : str) (s : str) : option (str * str) :=
  match s with
  | [] => None
  | c :: s' =>
      match st with
      | SNormal =>
          if N.eqb c 34 then Some (rev acc, s')
          else if N.eqb c 92 then parse_chars SEsc acc s'
          else if N.ltb c 32 then None
          else parse_chars SNormal (c :: acc) s'
      | SEsc =>
          if N.eqb c 117 then parse_chars (SHex 4 0) acc s'
          else match escape_char c with
               | Some v => parse_chars SNormal (v :: acc) s'
               | None => None
               end
      | SHex k v =>
          match hex_val c, k with
          | Some d, 1%nat => parse_chars SNormal ((16 * v + Z.to_N d)%N :: acc) s'
          | Some d, S k' => parse_chars (SHex k' (16 * v + Z.to_N d)%N) acc s'
          | _, _ => None
          end
      end
  end.

(** A JSON number: an optional minus, then 0 or digits without a leading
    zero, an optional fraction with at least one digit and an optional
    exponent. *)
Definition parse_number (s : str) : option (num * str) :=
  let '(neg, s1) :=
    match s with
    | c :: s' => if N.eqb c 45 then (true, s') else (false, s)
    | [] => (false, s)
    end in
  let '(d1, s2) :=
    match s1 with
    | c :: s' => if N.eqb c 48 then ([48%N], s') else span is_digit s1
    | [] => ([], s1)
    end in
  match d1 with
  | [] => None
  | _ =>
      let frac :=
        match s2 with
        | c :: s2' =>
            if N.eqb c 46 then
              let '(d2, s3) := span is_digit s2' in
              match d2 with [] => None | _ => Some (d2, s3) end
            else Some ([], s2)
        | [] => Some ([], s2)
        end in
      match frac with
      | None => None
      | Some (d2, s3) =>
          let m := signed neg (digits_val (d1 ++ d2)) in
          let k := Z.of_nat (length d2) in
          match s3 with
          | c :: _ =>
              if N.eqb c 101 || N.eqb c 69 then
                match read_exponent s3 with
                | Some (x, rest) => Some (mkDec m (x - k), rest)
                | None => None
                end
              else Some (mkDec m (- k), s3)
          | [] => Some (mkDec m (- k), s3)
          end
      end
  end.

Definition expect (p : str) (v : JsVal) (s : str) : presult JsVal :=
  if starts_with p s then POk v (drop (length p) s) else PFail.

Fixpoint parse_value (fuel : nat) (s : str) : presult JsVal :=
  match fuel with
  | O => PFuel
  | S f =>
      match s with
      | [] => PFail
      | c :: s' =>
          if N.eqb c 123 then                     (* { *)
            match skip_ws s' with
            | 125%N :: r => POk (VObj []) r
            | r => parse_members f r []
            end
          else if N.eqb c 91 then                 (* [ *)
            match skip_ws s' with
            | 93%N :: r => POk (VArr []) r
            | r => parse_elems f r []
            end
          else if N.eqb c 34 then
            match parse_chars SNormal [] s' with
            | Some (t, r) => POk (VStr t) r
            | None => PFail
            end
          else if N.eqb c 116 then expect (lit "true") (VBool true) s
          else if N.eqb c 102 then expect (lit "false") (VBool false) s
          else if N.eqb c 110 then expect (lit "null") VNull s
          else match parse_number s with
               | Some (n, r) => POk (VNum n) r
               | None => PFail
               end
      end
  end

with parse_elems (fuel : nat) (s : str) (acc : list JsVal) : presult JsVal :=
  match fuel with
  | O => PFuel
  | S f =>
      match parse_value f s with
      | POk v r =>
          match skip_ws r with
          | 44%N :: r' => parse_elems f (skip_ws r') (v :: acc)
          | 93%N :: r' => POk (VArr (rev (v :: acc))) r'
          | _ => PFail
          end
      | PFail => PFail
      | PFuel => PFuel
      end
  end

with parse_members (fuel : nat) (s : str) (acc : list (str * JsVal)) : presult JsVal :=
  match fuel with
  | O => PFuel
  | S f =>
      match s with
      | 34%N :: s' =>
          match parse_chars SNormal [] s' with
          | Some (k, r) =>
              match skip_ws r with
              | 58%N :: r1 =>
                  match parse_value f (skip_ws r1) with
                  | POk v r2 =>
                      match skip_ws r2 with
                      | 44%N :: r3 => parse_members f (skip_ws r3) (obj_define k v acc)
                      | 125%N :: r3 => POk (VObj (obj_define k v acc)) r3
                      | _ => PFail
                      end
                  | PFail => PFail
                  | PFuel => PFuel
                  end
              | _ => PFail
              end
          | None => PFail
          end
      | _ => PFail
      end
  end.

(** [JSON.parse(s)]; [None] is a SyntaxError. *)
Definition JSON_parse (s : str) : option JsVal :=
  match parse_value (2 * length s + 2) (skip_ws s) with
  | POk v r => match skip_ws r with [] => Some v | _ => None end
  | _ => None
  end.

End Json.
Export Json.

(** ** Asynchronous programs and their executions *)

Module Async.

(** What [fetch(url, {method, headers, body})] sends. *)
Record Request : Type := mkRequest {
  rq_url : str;
  rq_method : str;
  rq_headers : list (str * str);
  rq_body : option str;
}.

(** What the program reads of a response: [r.status],
    [r.headers.get('www-authenticate')] and the body as [r.text()] gives
    it ([Err] when reading the body rejects). *)
Record Response : Type := mkResponse {
  status : Z;
  www_authenticate : option str;
  body : outcome str;
}.

(** [r.ok] *)
Definition ok (r : Response) : bool := (200 <=? status r) && (status r <=? 299).

(** [r.text()] *)
Definition text (r : Response) : outcome str := body r.

(** [r.json()] *)
Definition json (r : Response) : outcome JsVal :=
  obind (body r) (fun s =>
    match JSON_parse s with
    | Some v => Ok v
    | None => Err SyntaxError
    end).

(** The operations [server.js] calls on the module [aiseg2]. *)
Inductive ClientOp : Type :=
| GetRealtime
| GetTotals
| GetDevices
| GetToken
| ControlAC (nodeId eoj state token : JsVal)
| ControlFH (nodeId eoj state token : JsVal)
| ControlBath (token : JsVal)
| ControlGenerate (token : JsVal)
| SetACSettings (nodeId eoj : JsVal) (settingType : Z) (value token : JsVal)
| SetFHLevel (nodeId eoj currentState level token : JsVal).

(** Sequential asynchronous code: a tree whose nodes are the effects of
    the program and whose branches are the answers of its environment.
    [Fetch] is [await fetch(..)]; [DateNow] is [Date.now()]; [RandomHex]
    is [crypto.randomBytes(8).toString('hex')]; [WriteNicknames] is
    [saveNicknames]; [Call] is an awaited call of [server.js] into
    [aiseg2]. *)
Inductive prog (R : Type) : Type :=
| Ret (r : R)
| Fetch (rq : Request) (k : outcome Response -> prog R)
| DateNow (k : Z -> prog R)
| RandomHex (k : str -> prog R)
| WriteNicknames (m : gmap str JsVal) (k : outcome unit -> prog R)
| Call (op : ClientOp) (k : outcome JsVal -> prog R).
Arguments Ret {R} r.
Arguments Fetch {R} rq k.
Arguments DateNow {R} k.
Arguments RandomHex {R} k.
Arguments WriteNicknames {R} m k.
Arguments Call {R} op k.

Fixpoint bind {A B} (p : prog A) (f : A -> prog B) : prog B :=
  match p with
  | Ret a => f a
  | Fetch rq k => Fetch rq (fun o => bind (k o) f)
  | DateNow k => DateNow (fun t => bind (k t) f)
  | RandomHex k => RandomHex (fun s => bind (k s) f)
  | WriteNicknames m k => WriteNicknames m (fun o => bind (k o) f)
  | Call op k => Call op (fun o => bind (k o) f)
  end.

(** [await p] inside code that lets a rejection propagate. *)
Definition bindo {A B} (p : prog (outcome A)) (f : A -> prog (outcome B))
  : prog (outcome B) :=
  bind p (fun o => match o with
                   | Ok a => f a
                   | Err e => Ret (Err e)
                   end).

(** [p.catch(h)] and [try { p } catch (e) { h e }]. *)
Definition catch {A} (p : prog (outcome A)) (h : error -> prog A) : prog A :=
  bind p (fun o => match o with
                   | Ok a => Ret a
                   | Err e => h e
                   end).

(** A synchronous computation that may throw. *)
Definition lift {A} (o : outcome A) : prog (outcome A) := Ret o.

Declare Scope prog_scope.
Delimit Scope prog_scope with prog.
Notation "'let*' x ':=' p 'in' q" := (bind p (fun x => q))
  (at level 10, x pattern, p at level 100, q at level 200) : prog_scope.
Notation "'let+' x ':=' p 'in' q" := (bindo p (fun x => q))
  (at level 10, x pattern, p at level 100, q at level 200) : prog_scope.

(** What an observer of the program sees. *)
Inductive event : Type :=
| EvSend (rq : Request)                        (* a request leaves *)
| EvRecv (rq : Request) (o : outcome Response) (* its fetch settles *)
| EvNow (t : Z)
| EvRandom (s : str)
| EvWrite (m : gmap str JsVal) (o : outcome unit)
| EvCall (op : ClientOp) (o : outcome JsVal).

Definition trace := list event.

(** [exec p tr r]: [p] can run to the result [r] with the events [tr];
    the answers of the environment are arbitrary. *)
Fixpoint exec {R} (p : prog R) (tr : trace) (r : R) : Prop :=
  match p with
  | Ret r' => tr = [] /\ r = r'
  | Fetch rq k =>
      exists o tr', tr = EvSend rq :: EvRecv rq o :: tr' /\ exec (k o) tr' r
  | DateNow k => exists t tr', tr = EvNow t :: tr' /\ exec (k t) tr' r
  | RandomHex k => exists s tr', tr = EvRandom s :: tr' /\ exec (k s) tr' r
  | WriteNicknames m k =>
      exists o tr', tr = EvWrite m o :: tr' /\ exec (k o) tr' r
  | Call op k => exists o tr', tr = EvCall op o :: tr' /\ exec (k o) tr' r
  end.

(** An environment: how each effect is answered, given what happened
    before. *)
Record oracle : Type := mkOracle {
  on_fetch : trace -> Request -> outcome Response;
  on_now : trace -> Z;
  on_random : trace -> str;
  on_write : trace -> gmap str JsVal -> outcome unit;
  on_call : trace -> ClientOp -> outcome JsVal;
}.

(** The one execution of [p] in the environment [w] after the history
    [h]: its events and its result. *)
Fixpoint run {R} (w : oracle) (h : trace) (p : prog R) : trace * R :=
  match p with
  | Ret r => ([], r)
  | Fetch rq k =>
      let o := on_fetch w h rq in
      let '(tr, r) := run w (h ++ [EvSend rq; EvRecv rq o]) (k o) in
      (EvSend rq :: EvRecv rq o :: tr, r)
  | DateNow k =>
      let t := on_now w h in
      let '(tr, r) := run w (h ++ [EvNow t]) (k t) in (EvNow t :: tr, r)
  | RandomHex k =>
      let s := on_random w h in
      let '(tr, r) := run w (h ++ [EvRandom s]) (k s) in (EvRandom s :: tr, r)
  | WriteNicknames m k =>
      let o := on_write w h m in
      let '(tr, r) := run w (h ++ [EvWrite m o]) (k o) in (EvWrite m o :: tr, r)
  | Call op k =>
      let o := on_call w h op in
      let '(tr, r) := run w (h ++ [EvCall op o]) (k o) in (EvCall op o :: tr, r)
  end.

(** *** Promise.all

    A task of [Promise.all] runs synchronously to its first [await fetch]
    when it is created, and from the settlement of one fetch to its next
    [await fetch] afterwards; which of the pending fetches settles next
    is up to the environment. *)

Inductive task (X : Type) : Type :=
| Waiting (rq : Request) (k : outcome Response -> prog X)
| Done (x : X).
Arguments Waiting {X} rq k.
Arguments Done {X} x.

(** [sync_exec p tr t]: [p] runs without suspension to the state [t],
    with the events [tr].  (A task holds no [Call].) *)
Fixpoint sync_exec {X} (p : prog X) (tr : trace) (t : task X) : Prop :=
  match p with
  | Ret x => tr = [] /\ t = Done x
  | Fetch rq k => tr = [EvSend rq] /\ t = Waiting rq k
  | DateNow k => exists z tr', tr = EvNow z :: tr' /\ sync_exec (k z) tr' t
  | RandomHex k => exists s tr', tr = EvRandom s :: tr' /\ sync_exec (k s) tr' t
  | WriteNicknames m k =>
      exists o tr', tr = EvWrite m o :: tr' /\ sync_exec (k o) tr' t
  | Call op k => exists o tr', tr = EvCall op o :: tr' /\ sync_exec (k o) tr' t
  end.

(** Events of a pool carry the index of the task they belong to. *)
Definition ttrace := list (nat * event).
Definition tag (i : nat) (tr : trace) : ttrace := List.map (pair i) tr.
Definition untag (tr : ttrace) : trace := List.map snd tr.

(** The events of task [i]. *)
Definition project (i : nat) (tr : ttrace) : trace :=
  untag (List.filter (fun e => Nat.eqb (fst e) i) tr).

(** [ts.map(f)]: the tasks are started one after the other, from index
    [i]. *)
Fixpoint start_all {X} (i : nat) (ts : list (prog X)) (tr : ttrace)
    (pool : list (task X)) : Prop :=
  match ts with
  | [] => tr = [] /\ pool = []
  | p :: ts' =>
      exists seg t tr' pool',
        sync_exec p seg t /\ start_all (S i) ts' tr' pool' /\
        tr = tag i seg ++ tr' /\ pool = t :: pool'
  end.

(** The pool runs until every task is done. *)
Inductive pool_run {X} : list (task X) -> ttrace -> list X -> Prop :=
| pool_done xs : pool_run (Done <$> xs) [] xs
| pool_step pool i rq k o seg t' tr xs :
    pool !! i = Some (Waiting rq k) ->
    sync_exec (k o) seg t' ->
    pool_run (<[i := t']> pool) tr xs ->
    pool_run pool ((i, EvRecv rq o) :: tag i seg ++ tr) xs.

(** [await Promise.all(ts)] for tasks that do not reject. *)
Definition all_exec {X} (ts : list (prog X)) (tr : ttrace) (xs : list X) : Prop :=
  exists tr0 pool tr1,
    start_all 0 ts tr0 pool /\ pool_run pool tr1 xs /\ tr = tr0 ++ tr1.

(** Asynchronous code that awaits sequential code and [Promise.all]. *)
Inductive aprog (R : Type) : Type :=
| ARet (r : R)
| ADo {X : Type} (p : prog X) (k : X -> aprog R)
| AAll {X : Type} (ts : list (prog X)) (k : list X -> aprog R).
Arguments ARet {R} r.
Arguments ADo {R X} p k.
Arguments AAll {R X} ts k.

Fixpoint abind {A B} (p : aprog A) (f : A -> aprog B) : aprog B :=
  match p with
  | ARet a => f a
  | ADo q k => ADo q (fun x => abind (k x) f)
  | AAll ts k => AAll ts (fun xs => abind (k xs) f)
  end.

Fixpoint aexec {R} (p : aprog R) (tr : trace) (r : R) : Prop :=
  match p with
  | ARet r' => tr = [] /\ r = r'
  | ADo q k =>
      exists x tr1 tr2, exec q tr1 x /\ aexec (k x) tr2 r /\ tr = tr1 ++ tr2
  | AAll ts k =>
      exists xs tr1 tr2,
        all_exec ts tr1 xs /\ aexec (k xs) tr2 r /\ tr = untag tr1 ++ tr2
  end.

(** *** Running a pool

    One scheduling among those of [all_exec]: the fetches of task 0
    settle first, then those of task 1, and so on. *)

(** The task runs to its first suspension. *)
Fixpoint sync_run {X} (w : oracle) (h : trace) (p : prog X) : trace * task X :=
  match p with
  | Ret x => ([], Done x)
  | Fetch rq k => ([EvSend rq], Waiting rq k)
  | DateNow k =>
      let t := on_now w h in
      let '(tr, r) := sync_run w (h ++ [EvNow t]) (k t) in (EvNow t :: tr, r)
  | RandomHex k =>
      let s := on_random w h in
      let '(tr, r) := sync_run w (h ++ [EvRandom s]) (k s) in (EvRandom s :: tr, r)
  | WriteNicknames m k =>
      let o := on_write w h m in
      let '(tr, r) := sync_run w (h ++ [EvWrite m o]) (k o) in (EvWrite m o :: tr, r)
  | Call op k =>
      let o := on_call w h op in
      let '(tr, r) := sync_run w (h ++ [EvCall op o]) (k o) in (EvCall op o :: tr, r)
  end.

Fixpoint start_run {X} (w : oracle) (h : trace) (i : nat) (ts : list (prog X))
  : ttrace * list (task X) :=
  match ts with
  | [] => ([], [])
  | p :: ts' =>
      let '(seg, t) := sync_run w h p in
      let '(tr, pool) := start_run w (h ++ seg) (S i) ts' in
      (tag i seg ++ tr, t :: pool)
  end.

(** The tasks from index [i] on are finished one after the other. *)
Fixpoint finish_run {X} (w : oracle) (h : trace) (i : nat) (pool : list (task X))
  : ttrace * list X :=
  match pool with
  | [] => ([], [])
  | Done x :: pool' =>
      let '(tr, xs) := finish_run w h (S i) pool' in (tr, x :: xs)
  | Waiting rq k :: pool' =>
      let o := on_fetch w h rq in
      let '(tr1, x) := run w (h ++ [EvRecv rq o]) (k o) in
      let '(tr, xs) := finish_run w (h ++ EvRecv rq o :: tr1) (S i) pool' in
      ((i, EvRecv rq o) :: tag i tr1 ++ tr, x :: xs)
  end.

Definition all_run {X} (w : oracle) (h : trace) (ts : list (prog X))
  : ttrace * list X :=
  let '(tr0, pool) := start_run w h 0 ts in
  let '(tr1, xs) := finish_run w (h ++ untag tr0) 0 pool in
  (tr0 ++ tr1, xs).

Fixpoint arun {R} (w : oracle) (h : trace) (p : aprog R) : trace * R :=
  match p with
  | ARet r => ([], r)
  | ADo q k =>
      let '(tr1, x) := run w h q in
      let '(tr2, r) := arun w (h ++ tr1) (k x) in
      (tr1 ++ tr2, r)
  | AAll ts k =>
      let '(tr1, xs) := all_run w h ts in
      let '(tr2, r) := arun w (h ++ untag tr1) (k xs) in
      (untag tr1 ++ tr2, r)
  end.

(** Requests sent and not yet settled after the events [tr]. *)
Fixpoint balance (tr : trace) : Z :=
  match tr with
  | [] => 0
  | EvSend _ :: tr' => balance tr' + 1
  | EvRecv _ _ :: tr' => balance tr' - 1
  | _ :: tr' => balance tr'
  end.

End Async.
Export Async.

(** ** The appliance client ([aiseg2.js]) *)

(** Functions of the host platform the client calls: [crypto]'s MD5 in
    hexadecimal, [Buffer.from(s).toString('base64')], [JSON.stringify],
    [encodeURIComponent] and the serialisation of a [URLSearchParams]. *)
Class Host : Type := {
  md5 : str -> str;
  toBase64 : str -> str;
  JSON_stringify : JsVal -> str;
  encodeURIComponent : str -> str;
  URLSearchParams_toString : list (str * JsVal) -> str;
}.

Module Aiseg2.
Section Client.
Context `{Host}.
Local Open Scope prog_scope.

Definition BASE : str := lit "http://192.168.0.216".
Definition USER : str := lit "aiseg".
Definition PASS : str := lit "0123456789".

Definition GET : str := lit "GET".
Definition POST : str := lit "POST".

(** *** Digest authentication *)

Definition not_quote (c : N) : bool := negb (N.eqb c dquote).

(** A match of the pattern of [parseWWWAuth] at the head of [s]: word
    characters, an equals sign and a non-empty text between quotation
    marks; the two groups and the length of the match.  The key is the longest run of word
    characters and the value the longest run without a quotation mark:
    a shorter run is followed by a character of the run, where the
    pattern needs [=] or the quotation mark. *)
Definition auth_match_here (s : str) : option (str * str * nat) :=
  let '(k, s1) := span is_word s in
  match k, s1 with
  | _ :: _, 61%N :: 34%N :: s2 =>
      let '(v, s3) := span not_quote s2 in
      match v, s3 with
      | _ :: _, 34%N :: _ => Some (k, v, (length k + length v + 3)%nat)
      | _, _ => None
      end
  | _, _ => None
  end.

(** The matches of the global pattern from left to right; the search
    resumes after each match ([skip] characters are still to be passed). *)
Fixpoint auth_scan (skip : nat) (s : str) : list (str * str) :=
  match s with
  | [] => []
  | _ :: s' =>
      match skip with
      | S n => auth_scan n s'
      | O =>
          match auth_match_here s with
          | Some (k, v, len) => (k, v) :: auth_scan (len - 1) s'
          | None => auth_scan 0 s'
          end
      end
  end.

(** [r[k] = v] on the object [r] of [parseWWWAuth], which holds its own
    properties: for the name [__proto__] the assignment reaches the setter
    of [Object.prototype], which ignores a string and stores nothing. *)
Definition assign (r : gmap str str) (kv : str * str) : gmap str str :=
  if str_eqb kv.1 (lit "__proto__") then r else <[kv.1 := kv.2]> r.

(** The object [r] that [parseWWWAuth] fills: a later match overwrites.
    The four names read from it are no properties of [Object.prototype],
    so that reading them reads the own properties. *)
Definition parseWWWAuth (header : str) : gmap str str :=
  foldl assign ∅ (auth_scan 0 header).

Definition quoted (s : str) : str := [dquote] ++ s ++ [dquote].
Definition colon (a b : str) : str := a ++ [58%N] ++ b.

Definition nc : str := lit "00000001".

(** The lines of [digestFetch] and [devicePost] that compute [ha1],
    [ha2] and [response]. *)
Definition digest_response (realm nonce : str) (qop : option str)
    (method path cnonce : str) : str :=
  let ha1 := md5 (colon USER (colon realm PASS)) in
  let ha2 := md5 (colon method path) in
  if bool_decide (qop = Some (lit "auth"))
  then md5 (colon ha1 (colon nonce (colon nc (colon cnonce (colon (lit "auth") ha2)))))
  else md5 (colon ha1 (colon nonce ha2)).

(** The lines that [digestFetch] and [devicePost] share: from the
    challenge header and the client nonce to the [Authorization] header. *)
Definition authorization (method path wwwAuth cnonce : str) : str :=
  let r := parseWWWAuth wwwAuth in
  let realm := default (lit "AiSEG") (r !! lit "realm") in
  let nonce := default [] (r !! lit "nonce") in
  let opaque := r !! lit "opaque" in
  let qop := r !! lit "qop" in
  let response := digest_response realm nonce qop method path cnonce in
  let auth :=
    lit "Digest username=" ++ quoted USER ++ lit ", realm=" ++ quoted realm ++
    lit ", nonce=" ++ quoted nonce ++ lit ", uri=" ++ quoted path ++
    lit ", response=" ++ quoted response in
  let auth :=
    match qop with
    | Some (_ :: _) => auth ++ lit ", qop=auth, nc=" ++ nc ++ lit ", cnonce=" ++ quoted cnonce
    | _ => auth
    end in
  match opaque with
  | Some ((_ :: _) as o) => auth ++ lit ", opaque=" ++ quoted o
  | _ => auth
  end.

(** The authenticated retry after a 401. *)
Definition retry (rq : Request) (method path : str) (r1 : Response)
  : prog (outcome Response) :=
  let wwwAuth := match www_authenticate r1 with
                 | Some ((_ :: _) as h) => h
                 | _ => []
                 end in
  RandomHex (fun cnonce =>
    let auth := authorization method path wwwAuth cnonce in
    Fetch (mkRequest (rq_url rq) (rq_method rq)
             (rq_headers rq ++ [(lit "Authorization", auth)]) (rq_body rq))
          Ret).

Definition digestFetch (path method : str) (body : option str)
  : prog (outcome Response) :=
  let url := BASE ++ path in
  let baseHeaders :=
    match body with
    | Some _ => [(lit "Content-Type", lit "application/x-www-form-urlencoded")]
    | None => []
    end in
  let rq := mkRequest url method baseHeaders body in
  let+ r1 := Fetch rq Ret in
  if negb (status r1 =? 401) then Ret (Ok r1)
  else retry rq method path r1.

Definition devicePost (path : str) (params : JsVal) : prog (outcome Response) :=
  let url := BASE ++ path in
  let body := lit "data=" ++ encodeURIComponent (JSON_stringify params) in
  let hdrs := [(lit "Content-Type", lit "application/x-www-form-urlencoded");
               (lit "X-Requested-With", lit "XMLHttpRequest")] in
  let rq := mkRequest url POST hdrs (Some body) in
  let+ r1 := Fetch rq Ret in
  if negb (status r1 =? 401) then Ret (Ok r1)
  else retry rq POST path r1.

(** *** HTML helpers *)

Definition not_gt (c : N) : bool := negb (N.eqb c 62).
Definition is_kwh_char (c : N) : bool :=
  is_digit c || N.eqb c 46 || N.eqb c 44.

Definition id_val_kwh : str := lit "id=" ++ quoted (lit "val_kwh").

(** A match of the pattern of [parseKwh] at the head of [s]: the text
    [<span], one character or more without [>] holding the attribute
    [id_val_kwh] after its first character, [>], a non-empty run of
    digits, points and commas, and [</span>].  The group is that run.
    The tag ends at the first [>] and the run is the longest one, as the
    character after a shorter choice belongs to the class just left. *)
Definition kwh_match_here (s : str) : option str :=
  if starts_with (lit "<span") s then
    let '(attrs, after) := span not_gt (drop 5 s) in
    match after with
    | _ :: inner =>
        if includes id_val_kwh (drop 1 attrs) then
          let '(v, tail) := span is_kwh_char inner in
          match v with
          | _ :: _ => if starts_with (lit "</span>") tail then Some v else None
          | [] => None
          end
        else None
    | [] => None
    end
  else None.

(** [html.match(re)]: the leftmost match. *)
Fixpoint kwh_match (html : str) : option str :=
  match kwh_match_here html with
  | Some v => Some v
  | None => match html with
            | [] => None
            | _ :: html' => kwh_match html'
            end
  end.

Definition parseKwh (html : str) : JsVal :=
  match kwh_match html with
  | Some m1 => VNum (parseFloat_str (remove_first 44%N m1))
  | None => VNull
  end.

(** *** Public API *)

Definition zero : JsVal := VNum (Dec 0 0).
Definition one : num := Dec 1 0.

(** [parseFloat(v) || 0] *)
Definition float_or_zero (v : JsVal) : outcome JsVal :=
  obind (parseFloat v) (fun n => Ok (js_or (VNum n) zero)).

Definition visible (c : JsVal) : bool := truthy (get_prop_opt c (lit "visible")).

(** The object [getRealtime] returns for the payload [d], its fields
    evaluated in the order of the source; reading the first field throws
    when [d] is [null], and so do [parseFloat] and the comparison with 0
    on a field that cannot be converted. *)
Definition realtime_snapshot (d : JsVal) : outcome JsVal :=
  obind (get_prop d (lit "g_capacity")) (fun g_capacity =>
  let f k := get_prop_opt d k in
  let consumer title capacity best :=
    VObj [(lit "name", f (lit title)); (lit "watts", f (lit capacity));
          (lit "visible", VBool (is_num (f (lit best)) one))] in
  obind (float_or_zero g_capacity) (fun gen_kw =>
  obind (float_or_zero (f (lit "u_capacity"))) (fun use_kw =>
  obind (gt_zero (f (lit "connFc"))) (fun fc_connected =>
  Ok (VObj [
    (lit "gen_kw", gen_kw);
    (lit "use_kw", use_kw);
    (lit "solar_w", js_nullish (f (lit "g_d_1_capacity")) zero);
    (lit "enefarm_w", js_nullish (f (lit "g_d_2_capacity")) zero);
    (lit "selling", VBool (is_num (f (lit "lo_buy_sell")) one));
    (lit "top", VArr (List.filter visible
       [consumer "u_d_1_title"%string "u_d_1_capacity"%string "best1"%string;
        consumer "u_d_2_title"%string "u_d_2_capacity"%string "best2"%string;
        consumer "u_d_3_title"%string "u_d_3_capacity"%string "best3"%string]));
    (lit "ev_connected", VBool (is_num (f (lit "connEv")) one));
    (lit "battery_pct", if truthy (f (lit "connSb")) then f (lit "percent") else VNull);
    (lit "fc_connected", VBool fc_connected);
    (lit "raw", d)]))))).

Definition getRealtime : prog (outcome JsVal) :=
  let+ r := digestFetch (lit "/data/electricflow/111/update") POST (Some []) in
  if negb (ok r) then Ret (Err (HttpError (status r)))
  else let+ d := lift (json r) in
       lift (realtime_snapshot d).

Definition pages : list (str * Z) :=
  [(lit "solar", 51111); (lit "consumption", 52111);
   (lit "purchase", 53111); (lit "sold", 54111)].

(** One scrape of [getTotals]: the chain
    [digestFetch(..).then(r => r.text()).then(parseKwh).catch(() => null)]. *)
Definition scrape (path : str) : prog JsVal :=
  catch (let+ r := digestFetch path GET None in
         let+ html := lift (text r) in
         Ret (Ok (parseKwh html)))
        (fun _ => Ret VNull).

Definition totals_of (results : list JsVal) : JsVal :=
  VObj (imap (fun i e => (e.1, default VUndef (results !! i))) pages).

Definition getTotals : aprog (outcome JsVal) :=
  AAll (List.map (fun e => scrape (lit "/page/graph/" ++ num_to_str (num_of_Z e.2))) pages)
       (fun results => ARet (Ok (totals_of results))).

(** **** Circuits *)

Definition marker : str := lit "arrayCircuitNameList".

(** A match of the script pattern of [getCircuits] at the head of [s]:
    [<script], the rest of the tag up to the first [>], and the shortest
    content followed by [</script>]; the content and the length of the
    match. *)
Definition script_match_here (s : str) : option (str * nat) :=
  if starts_with (lit "<script") s then
    let '(attrs, after) := span not_gt (drop 7 s) in
    match after with
    | _ :: inner =>
        match indexOf (lit "</script>") inner with
        | Some n => Some (take n inner, (length attrs + n + 17)%nat)
        | None => None
        end
    | [] => None
    end
  else None.

(** [[...html.matchAll(re)].map(m => m[1])] *)
Fixpoint scripts (skip : nat) (html : str) : list str :=
  match html with
  | [] => []
  | _ :: html' =>
      match skip with
      | S n => scripts n html'
      | O =>
          match script_match_here html with
          | Some (content, len) => content :: scripts (len - 1) html'
          | None => scripts 0 html'
          end
      end
  end.

(** [c => ({ id: String(c.strId), name: c.strCircuit || `Circuit ${c.strId}` })];
    the conversion of the identifier may throw. *)
Definition circuit_entry (c : JsVal) : outcome JsVal :=
  let strId := get_prop_opt c (lit "strId") in
  obind (ToString strId) (fun id =>
  Ok (VObj [(lit "id", VStr id);
            (lit "name", js_or (get_prop_opt c (lit "strCircuit"))
                               (VStr (lit "Circuit " ++ id)))])).

(** [c => c.strBtnType === '1'] *)
Definition enabled (c : JsVal) : outcome bool :=
  obind (get_prop c (lit "strBtnType")) (fun t => Ok (is_str t (lit "1"))).

(** [(data.arrayCircuitNameList || []).filter(..).map(..)]: [filter] is
    not a function on a value that is not an array. *)
Definition circuits_of_data (data : JsVal) : outcome (list JsVal) :=
  obind (get_prop data marker) (fun l =>
    match js_or l (VArr []) with
    | VArr cs => obind (ofilter enabled cs) (fun cs' => omap circuit_entry cs')
    | _ => Err TypeError
    end).

(** The text between the first [(] and the last [)] of a script. *)
Definition call_argument (s : str) : option str :=
  match indexOf [40%N] s, lastIndexOf [41%N] s with
  | Some l, Some rpos =>
      if (rpos <=? l)%nat then None else Some (trim (slice (S l) rpos s))
  | _, _ => None
  end.

(** One turn of the loop of [getCircuits]: [Some] is its [return],
    [None] its [continue] or the end of its [catch]. *)
Definition circuits_of_script (s : str) : option (list JsVal) :=
  if negb (includes marker s) then None
  else match call_argument s with
       | None => None
       | Some arg =>
           match JSON_parse arg with
           | None => None
           | Some data =>
               match circuits_of_data data with
               | Ok cs => Some cs
               | Err _ => None
               end
           end
       end.

Fixpoint first_circuits (ss : list str) : list JsVal :=
  match ss with
  | [] => []
  | s :: ss' =>
      match circuits_of_script s with
      | Some cs => cs
      | None => first_circuits ss'
      end
  end.

(** What [getCircuits] makes of the page. *)
Definition circuits_of_html (html : str) : list JsVal :=
  first_circuits (scripts 0 html).

Definition getCircuits : prog (outcome JsVal) :=
  let+ r := digestFetch (lit "/page/setting/installation/734") GET None in
  let+ html := lift (text r) in
  Ret (Ok (VArr (circuits_of_html html))).

Record Circuit : Type := mkCircuit { c_id : JsVal; c_name : JsVal }.

Definition getCircuitKwh (id : JsVal) : prog (outcome JsVal) :=
  let+ circuitid := lift (ToString id) in
  let data := toBase64 (JSON_stringify (VObj [(lit "circuitid", VStr circuitid)])) in
  let+ r := digestFetch (lit "/page/graph/584?data=" ++ data) GET None in
  let+ html := lift (text r) in
  Ret (Ok (parseKwh html)).

Definition CONCURRENCY : nat := 10.

(** [c => getCircuitKwh(c.id).catch(() => null)] *)
Definition kwh_task (c : Circuit) : prog JsVal :=
  catch (getCircuitKwh (c_id c)) (fun _ => Ret VNull).

(** [batchResults.forEach((v, j) => { results[i + j] = v; })]; the index
    is within [results]. *)
Definition store (i : nat) (batchResults results : list JsVal) : list JsVal :=
  foldl (fun acc jv => <[(i + jv.1)%nat := jv.2]> acc) results
        (imap pair batchResults).

(** The values of [i] in [for (let i = 0; i < n; i += CONCURRENCY)]. *)
Definition batch_starts (n : nat) : list nat :=
  List.filter (fun i => Nat.eqb (i mod CONCURRENCY) 0) (seq 0 n).

Fixpoint batches (starts : list nat) (circuits : list Circuit)
    (results : list JsVal) : aprog (list JsVal) :=
  match starts with
  | [] => ARet results
  | i :: starts' =>
      let batch := take CONCURRENCY (drop i circuits) in
      AAll (List.map kwh_task batch)
           (fun batchResults =>
              batches starts' circuits (store i batchResults results))
  end.

Definition getAllCircuitKwh (circuits : list Circuit) : aprog (list JsVal) :=
  batches (batch_starts (length circuits)) circuits
          (replicate (length circuits) VNull).

(** *** Device control helpers *)

(** The module variables [_token] and [_tokenAt]. *)
Record ClientState : Type := mkClientState {
  _token : option str;
  _tokenAt : Z;
}.

(** Code of the client that reads and writes the module variables. *)
Definition client (A : Type) : Type := ClientState -> prog (outcome A * ClientState).

Definition expect_char (c : N) (s : str) : option str :=
  match s with
  | x :: s' => if N.eqb x c then Some s' else None
  | [] => None
  end.

(** [\d+] *)
Definition digits1 (s : str) : option (str * str) :=
  match span is_digit s with
  | ((_ :: _) as d, rest) => Some (d, rest)
  | _ => None
  end.

Definition skip_space (s : str) : str := snd (span is_space s).

(** A match of the pattern of [getToken] at the head of [s]: [init], an
    opening parenthesis, three numbers each followed by a comma and a
    fourth number, with optional white space between them; the group is
    the fourth number.  White space, digits and the punctuation are
    disjoint classes, so the longest runs are the only choice. *)
Definition token_match_here (s : str) : option str :=
  if starts_with (lit "init") s then
    s1 ← expect_char 40%N (skip_space (drop 4 s));
    '(_, s2) ← digits1 (skip_space s1);
    s3 ← expect_char 44%N (skip_space s2);
    '(_, s4) ← digits1 (skip_space s3);
    s5 ← expect_char 44%N (skip_space s4);
    '(_, s6) ← digits1 (skip_space s5);
    s7 ← expect_char 44%N (skip_space s6);
    '(tok, _) ← digits1 (skip_space s7);
    Some tok
  else None.

Fixpoint token_match (html : str) : option str :=
  match token_match_here html with
  | Some t => Some t
  | None => match html with
            | [] => None
            | _ :: html' => token_match html'
            end
  end.

Definition str_truthy (s : str) : bool :=
  match s with [] => false | _ => true end.

(** The part of [getToken] after its first line. *)
Definition refreshToken : client str := fun st =>
  let* o := (let+ r := digestFetch (lit "/page/devices/device/32") GET None in
             lift (text r)) in
  match o with
  | Err e => Ret (Err e, st)
  | Ok html =>
      let tok := default (lit "32140") (token_match html) in
      DateNow (fun now => Ret (Ok tok, mkClientState (Some tok) now))
  end.

Definition getToken : client str := fun st =>
  match _token st with
  | Some tok =>
      if str_truthy tok then
        DateNow (fun now =>
          if now - _tokenAt st <? 3600000 then Ret (Ok tok, st)
          else refreshToken st)
      else refreshToken st
  | None => refreshToken st
  end.

(** [token || await getToken()] *)
Definition resolveToken (token : JsVal) : client JsVal := fun st =>
  if truthy token then Ret (Ok token, st)
  else let* (o, st') := getToken st in
       Ret (obind o (fun t => Ok (VStr t)), st').

(** [r.ok ? r.json() : { result: 'error', status: r.status }] *)
Definition acknowledgment (r : Response) : outcome JsVal :=
  if ok r then json r
  else Ok (VObj [(lit "result", VStr (lit "error"));
                 (lit "status", VNum (num_of_Z (status r)))]).

(** A control operation: the token, one request, the acknowledgment. *)
Definition control (token : JsVal) (send : JsVal -> prog (outcome Response))
  : client JsVal := fun st =>
  let* (o, st') := resolveToken token st in
  match o with
  | Err e => Ret (Err e, st')
  | Ok tok =>
      let* a := (let+ r := send tok in lift (acknowledgment r)) in
      Ret (a, st')
  end.

Definition setACSettings (nodeId eoj : JsVal) (settingType : Z) (value token : JsVal)
  : client JsVal :=
  control token (fun tok =>
    let+ v := lift (ToString value) in
    devicePost (lit "/action/devices/device/3211/change")
      (VObj [(lit "nodeId", nodeId); (lit "eoj", eoj); (lit "type", VStr (lit "0x33"));
             (lit "page", VStr (lit "1")); (lit "individual_page", VStr (lit "1"));
             (lit "setting_type", VStr (num_to_str (num_of_Z settingType)));
             (lit "value", VStr v);
             (lit "token", tok)])).

Definition controlAC (nodeId eoj state token : JsVal) : client JsVal :=
  control token (fun tok =>
    devicePost (lit "/action/devices/device/321/change")
      (VObj [(lit "nodeId", nodeId); (lit "eoj", eoj); (lit "type", VStr (lit "0x33"));
             (lit "state", state); (lit "token", tok)])).

(** [Math.max(1, Math.min(9, level))]; the conversion of the level to a
    number may throw. *)
Definition clampLevel (level : JsVal) : outcome num :=
  obind (ToNumber level) (fun n => Ok (num_max one (num_min (Dec 9 0) n))).

(** ['0x3' + lvl] *)
Definition templevel (level : JsVal) : outcome str :=
  obind (clampLevel level) (fun lvl => Ok (lit "0x3" ++ num_to_str lvl)).

Definition setFHLevel (nodeId eoj currentState level token : JsVal) : client JsVal :=
  control token (fun tok =>
    let+ code := lift (templevel level) in
    devicePost (lit "/action/devices/device/32b/change")
      (VObj [(lit "nodeId", nodeId); (lit "eoj", eoj); (lit "type", VStr (lit "0x34"));
             (lit "state", currentState);
             (lit "templevel", VStr code);
             (lit "token", tok)])).

Definition controlFH (nodeId eoj state token : JsVal) : client JsVal :=
  control token (fun tok =>
    devicePost (lit "/action/devices/device/32b/change")
      (VObj [(lit "nodeId", nodeId); (lit "eoj", eoj); (lit "type", VStr (lit "0x34"));
             (lit "state", state); (lit "token", tok)])).

Definition controlBath (token : JsVal) : client JsVal :=
  control token (fun tok =>
    let+ t := lift (ToString tok) in
    let params := URLSearchParams_toString
      [(lit "page", VStr (lit "1")); (lit "old_page", VStr (lit "1"));
       (lit "nodeid", VStr (lit "1073741826")); (lit "eoj", VStr (lit "0x027201"));
       (lit "devtype", VStr (lit "0x37")); (lit "bathcmd", VStr (lit "0x41"));
       (lit "generatecmd", VStr (lit "-")); (lit "geneHeatcmd", VStr (lit "-"));
       (lit "cleancmd", VStr (lit "-")); (lit "token", VStr t)] in
    digestFetch (lit "/action/devices/device/301?" ++ params) GET None).

Definition controlGenerate (token : JsVal) : client JsVal :=
  control token (fun tok =>
    devicePost (lit "/action/devices/device/32/ctrl_lanEnefirm_generate")
      (VObj [(lit "token", tok); (lit "generatecmd", VStr (lit "0x42"))])).

End Client.
End Aiseg2.

(** ** The cache and REST server ([server.js]) *)

Module Server.
Local Open Scope prog_scope.

(** The object [cache]. *)
Record Cache : Type := mkCache {
  realtime : JsVal;
  realtimeAt : Z;
  totals : JsVal;
  totalsAt : Z;
  circuits : JsVal;
  circuitKwh : JsVal;
  circuitKwhAt : Z;
  devices : JsVal;
  devicesAt : Z;
}.

Definition cache0 : Cache :=
  mkCache VNull 0 VNull 0 VNull VNull 0 VNull 0.

(** The object [TTL]. *)
Definition TTL_realtime : Z := 5000.
Definition TTL_totals : Z := 60000.
Definition TTL_circuitKwh : Z := 300000.
Definition TTL_devices : Z := 10000.

(** The module variables of the server: the cache, the own properties of
    the object [nicknames], and the delays of the refreshes of the device
    status that [setTimeout] has scheduled. *)
Record State : Type := mkState {
  cache : Cache;
  nicknames : gmap str JsVal;
  scheduled : list Z;
}.

Definition set_cache (c : Cache) (st : State) : State :=
  mkState c (nicknames st) (scheduled st).

(** Code of the server that reads and writes the module variables and
    may throw. *)
Definition server (A : Type) : Type := State -> prog (outcome A * State).

(** What a handler answers: [res.status(code).json(..)]. *)
Inductive ReplyBody : Type :=
| Json (v : JsVal)
| ErrorOf (e : error)            (* { error: e.message } *)
| ErrorText (msg : str).         (* { error: msg } *)

Record Reply : Type := mkReply { code : Z; content : ReplyBody }.

Definition fetchRealtime : server JsVal := fun st =>
  Call GetRealtime (fun o =>
    match o with
    | Err e => Ret (Err e, st)
    | Ok data =>
        let c := cache st in
        DateNow (fun now =>
          Ret (Ok data,
               set_cache (mkCache data now (totals c) (totalsAt c) (circuits c)
                            (circuitKwh c) (circuitKwhAt c) (devices c) (devicesAt c)) st))
    end).

Definition fetchTotals : server JsVal := fun st =>
  Call GetTotals (fun o =>
    match o with
    | Err e => Ret (Err e, st)
    | Ok data =>
        let c := cache st in
        DateNow (fun now =>
          Ret (Ok data,
               set_cache (mkCache (realtime c) (realtimeAt c) data now (circuits c)
                            (circuitKwh c) (circuitKwhAt c) (devices c) (devicesAt c)) st))
    end).

(** [nicknames[key]]: the own property, or else the property of that
    name of [Object.prototype]. *)
Definition nickname_of (nn : gmap str JsVal) (key : str) : JsVal :=
  match nn !! key with
  | Some v => v
  | None => inherited key
  end.

(** [nicknames[key] = v] for a string [v]: for the name [__proto__],
    unless the object has such a property of its own, the assignment
    reaches the setter of [Object.prototype], which ignores a string. *)
Definition nickname_store (key : str) (v : JsVal) (nn : gmap str JsVal) : gmap str JsVal :=
  if str_eqb key (lit "__proto__") && negb (bool_decide (is_Some (nn !! key)))
  then nn else <[key := v]> nn.

(** [`${nodeId}_${eoj}`]; the conversions may throw. *)
Definition nickname_key (nodeId eoj : JsVal) : outcome str :=
  obind (ToString nodeId) (fun n =>
  obind (ToString eoj) (fun e => Ok (n ++ [95%N] ++ e))).

(** The function [applyName] of [applyNicknames]. *)
Definition applyName (nn : gmap str JsVal) (d : JsVal) : outcome JsVal :=
  obind (get_prop d (lit "nodeId")) (fun nodeId =>
  obind (nickname_key nodeId (get_prop_opt d (lit "eoj"))) (fun key =>
    Ok (if truthy (nickname_of nn key)
        then VObj (obj_set (lit "nickname") (nickname_of nn key) (spread d))
        else d))).

(** [(l || []).map(applyName)]: [map] is not a function on a value that
    is not an array. *)
Definition applyNames (nn : gmap str JsVal) (l : JsVal) : outcome JsVal :=
  match js_or l (VArr []) with
  | VArr ds => obind (omap (applyName nn) ds) (fun ds' => Ok (VArr ds'))
  | _ => Err TypeError
  end.

Definition applyNicknames (nn : gmap str JsVal) (data : JsVal) : outcome JsVal :=
  if negb (truthy data) then Ok data
  else
    obind (applyNames nn (get_prop_opt data (lit "acs"))) (fun acs =>
    obind (applyNames nn (get_prop_opt data (lit "fhs"))) (fun fhs =>
    Ok (VObj (obj_set (lit "fhs") fhs (obj_set (lit "acs") acs (spread data)))))).

Definition set_devices (data : JsVal) (now : Z) (c : Cache) : Cache :=
  mkCache (realtime c) (realtimeAt c) (totals c) (totalsAt c) (circuits c)
          (circuitKwh c) (circuitKwhAt c) data now.

Definition fetchDevices : server JsVal := fun st =>
  Call GetDevices (fun o =>
    match obind o (applyNicknames (nicknames st)) with
    | Err e => Ret (Err e, st)
    | Ok data =>
        DateNow (fun now => Ret (Ok data, set_cache (set_devices data now (cache st)) st))
    end).

(** *** REST API *)

(** The shape the three cached reads share:
    [try { if (Date.now() - at > ttl) await refresh(); res.json(payload) }
     catch (e) { res.status(502).json({ error: e.message }) }]. *)
Definition cachedRead (at_ : Cache -> Z) (ttl : Z) (refresh : server JsVal)
    (payload : Cache -> JsVal) : State -> prog (Reply * State) := fun st =>
  DateNow (fun now =>
    if ttl <? now - at_ (cache st) then
      let* (o, st') := refresh st in
      match o with
      | Ok _ => Ret (mkReply 200 (Json (payload (cache st'))), st')
      | Err e => Ret (mkReply 502 (ErrorOf e), st')
      end
    else Ret (mkReply 200 (Json (payload (cache st))), st)).

Definition get_api_realtime := cachedRead realtimeAt TTL_realtime fetchRealtime realtime.
Definition get_api_totals := cachedRead totalsAt TTL_totals fetchTotals totals.
Definition get_api_devices := cachedRead devicesAt TTL_devices fetchDevices devices.

(** The dispatch of [POST /api/devices/control] on [action]: the
    operation of the client to call, [None] for an unknown action. *)
Definition dispatch (action nodeId eoj state value token : JsVal) : option ClientOp :=
  if is_str action (lit "toggleAC") then Some (ControlAC nodeId eoj state token)
  else if is_str action (lit "toggleFH") then Some (ControlFH nodeId eoj state token)
  else if is_str action (lit "toggleBath") then Some (ControlBath token)
  else if is_str action (lit "toggleGenerate") then Some (ControlGenerate token)
  else if is_str action (lit "setACMode") then Some (SetACSettings nodeId eoj 1 value token)
  else if is_str action (lit "setACTemp") then Some (SetACSettings nodeId eoj 2 value token)
  else if is_str action (lit "setACFan") then Some (SetACSettings nodeId eoj 3 value token)
  else if is_str action (lit "setFHLevel") then Some (SetFHLevel nodeId eoj state value token)
  else None.

(** [cache.devices?.token || await aiseg2.getToken()] *)
Definition controlToken (st : State) : prog (outcome JsVal) :=
  let cached := get_prop_opt (devices (cache st)) (lit "token") in
  if truthy cached then Ret (Ok cached) else Call GetToken Ret.

(** [setTimeout(.., 2_500)] *)
Definition schedule_refresh (st : State) : State :=
  mkState (cache st) (nicknames st) (scheduled st ++ [2500]).

(** [app.post('/api/devices/control', ..)] on the request body [req]
    ([req.body || {}]). *)
Definition post_api_devices_control (req : JsVal) : State -> prog (Reply * State) :=
  fun st =>
  let f k := get_prop_opt req (lit k) in
  let* t := controlToken st in
  match t with
  | Err e => Ret (mkReply 502 (ErrorOf e), st)
  | Ok token =>
      match dispatch (f "action"%string) (f "nodeId"%string) (f "eoj"%string)
                     (f "state"%string) (f "value"%string) token with
      | None => Ret (mkReply 400 (ErrorText (lit "unknown action")), st)
      | Some op =>
          Call op (fun o =>
            match o with
            | Err e => Ret (mkReply 502 (ErrorOf e), st)
            | Ok result => Ret (mkReply 200 (Json result), schedule_refresh st)
            end)
      end
  end.

(** [name && name.trim()]: the label to store, [None] to reset; [trim]
    is not a function on a truthy value that is not a string. *)
Definition nickname_label (name : JsVal) : outcome (option str) :=
  if truthy name then
    match name with
    | VStr s => Ok (match trim s with
                    | [] => None
                    | t => Some t
                    end)
    | _ => Err TypeError
    end
  else Ok None.

(** [app.post('/api/nicknames', ..)]; an exception leaves the handler. *)
Definition post_api_nicknames (req : JsVal) : State -> prog (outcome Reply * State) :=
  fun st =>
  let nodeId := get_prop_opt req (lit "nodeId") in
  let eoj := get_prop_opt req (lit "eoj") in
  if negb (truthy nodeId) || negb (truthy eoj) then
    Ret (Ok (mkReply 400 (ErrorText (lit "nodeId and eoj required"))), st)
  else
    match obind (nickname_key nodeId eoj) (fun key =>
          obind (nickname_label (get_prop_opt req (lit "name"))) (fun label =>
          Ok (key, label))) with
    | Err e => Ret (Err e, st)
    | Ok (key, label) =>
        let nn := match label with
                  | Some t => nickname_store key (VStr t) (nicknames st)
                  | None => delete key (nicknames st)
                  end in
        let st1 := mkState (cache st) nn (scheduled st) in
        WriteNicknames nn (fun w =>
          match w with
          | Err e => Ret (Err e, st1)
          | Ok _ =>
              if truthy (devices (cache st1)) then
                match applyNicknames nn (devices (cache st1)) with
                | Err e => Ret (Err e, st1)
                | Ok data =>
                    Ret (Ok (mkReply 200 (Json (VObj [(lit "ok", VBool true)]))),
                         set_cache (set_devices data (devicesAt (cache st1)) (cache st1)) st1)
                end
              else Ret (Ok (mkReply 200 (Json (VObj [(lit "ok", VBool true)]))), st1)
          end)
    end.

(** *** The server on top of the client

    [link getDevices p cs] is the server code [p] with each call into
    [aiseg2] replaced by the code of the client, started with the module
    variables [cs] of the client.  The device status aggregation
    [getDevices] of the client is a parameter. *)
Section Link.
Context `{Host}.
Variable getDevices : Aiseg2.ClientState -> aprog (outcome JsVal * Aiseg2.ClientState).

Definition seq_op (c : Aiseg2.client JsVal) (cs : Aiseg2.ClientState)
  : aprog (outcome JsVal * Aiseg2.ClientState) :=
  ADo (c cs) ARet.

Definition implementation (op : ClientOp) (cs : Aiseg2.ClientState)
  : aprog (outcome JsVal * Aiseg2.ClientState) :=
  match op with
  | GetRealtime => ADo Aiseg2.getRealtime (fun o => ARet (o, cs))
  | GetTotals => abind Aiseg2.getTotals (fun o => ARet (o, cs))
  | GetDevices => getDevices cs
  | GetToken =>
      ADo (Aiseg2.getToken cs) (fun r => ARet (obind r.1 (fun t => Ok (VStr t)), r.2))
  | ControlAC n e s t => seq_op (Aiseg2.controlAC n e s t) cs
  | ControlFH n e s t => seq_op (Aiseg2.controlFH n e s t) cs
  | ControlBath t => seq_op (Aiseg2.controlBath t) cs
  | ControlGenerate t => seq_op (Aiseg2.controlGenerate t) cs
  | SetACSettings n e ty v t => seq_op (Aiseg2.setACSettings n e ty v t) cs
  | SetFHLevel n e s l t => seq_op (Aiseg2.setFHLevel n e s l t) cs
  end.

Fixpoint link {R} (p : prog R) (cs : Aiseg2.ClientState)
  : aprog (R * Aiseg2.ClientState) :=
  match p with
  | Ret r => ARet (r, cs)
  | Fetch rq k => ADo (Fetch rq Ret) (fun o => link (k o) cs)
  | DateNow k => ADo (DateNow Ret) (fun t => link (k t) cs)
  | RandomHex k => ADo (RandomHex Ret) (fun s => link (k s) cs)
  | WriteNicknames m k => ADo (WriteNicknames m Ret) (fun o => link (k o) cs)
  | Call op k => abind (implementation op cs) (fun r => link (k r.1) r.2)
  end.

End Link.

End Server.

(** ** Reference definitions

    What the description of the program says, in its own words, to be
    compared with the code; and environments to run the code in. *)

(** The level the appliance is sent for the requested level [n]. *)
Definition clamp19 (n : Z) : Z := Z.max 1 (Z.min 9 n).

(** The response digest of RFC 2617 as the description gives it:
    [HA1 = hash(username:realm:password)], [HA2 = hash(method:path)] and
    [hash(HA1:nonce:nc:cnonce:auth:HA2)] when the challenge has
    [qop=auth], [hash(HA1:nonce:HA2)] otherwise. *)
Definition reference_digest `{Host} (username password realm nonce : str)
    (qop : option str) (method path cnonce : str) : str :=
  let HA1 := md5 (username ++ lit ":" ++ realm ++ lit ":" ++ password) in
  let HA2 := md5 (method ++ lit ":" ++ path) in
  if bool_decide (qop = Some (lit "auth"))
  then md5 (HA1 ++ lit ":" ++ nonce ++ lit ":00000001:" ++ cnonce ++ lit ":auth:" ++ HA2)
  else md5 (HA1 ++ lit ":" ++ nonce ++ lit ":" ++ HA2).

(** The fields of a challenge header, with the defaults of the
    description. *)
Definition challenge_realm (header : str) : str :=
  default (lit "AiSEG") (Aiseg2.parseWWWAuth header !! lit "realm").
Definition challenge_nonce (header : str) : str :=
  default [] (Aiseg2.parseWWWAuth header !! lit "nonce").
Definition challenge_qop (header : str) : option str :=
  Aiseg2.parseWWWAuth header !! lit "qop".

(** The header of a response, [''] when there is none. *)
Definition challenge_header (r : Response) : str :=
  default [] (www_authenticate r).

(** The start of an [Authorization] header with the given fields. *)
Definition digest_fields (realm nonce uri response : str) : str :=
  lit "Digest username=" ++ Aiseg2.quoted (lit "aiseg") ++
  lit ", realm=" ++ Aiseg2.quoted realm ++
  lit ", nonce=" ++ Aiseg2.quoted nonce ++
  lit ", uri=" ++ Aiseg2.quoted uri ++
  lit ", response=" ++ Aiseg2.quoted response.

(** The request [rq] sent again with an [Authorization] header. *)
Definition authenticated (rq : Request) (auth : str) : Request :=
  mkRequest (rq_url rq) (rq_method rq)
            (rq_headers rq ++ [(lit "Authorization", auth)]) (rq_body rq).

(** The first request of [digestFetch] and of [devicePost]. *)
Definition digestFetch_request (path method : str) (body : option str) : Request :=
  mkRequest (lit "http://192.168.0.216" ++ path) method
    (match body with
     | Some _ => [(lit "Content-Type", lit "application/x-www-form-urlencoded")]
     | None => []
     end) body.

Definition devicePost_request `{Host} (path : str) (params : JsVal) : Request :=
  mkRequest (lit "http://192.168.0.216" ++ path) (lit "POST")
    [(lit "Content-Type", lit "application/x-www-form-urlencoded");
     (lit "X-Requested-With", lit "XMLHttpRequest")]
    (Some (lit "data=" ++ encodeURIComponent (JSON_stringify params))).

(** An exchange with one authenticated retry: the first answer is a 401
    [r1], the retry carries the digest of the description with [uri]
    equal to [path], and the result is the second answer, whatever it
    is. *)
Definition digest_exchange `{Host} (rq : Request) (method path : str)
    (tr : trace) (res : outcome Response) : Prop :=
  exists r1 cnonce more,
    status r1 = 401 /\
    let h := challenge_header r1 in
    let auth :=
      digest_fields (challenge_realm h) (challenge_nonce h) path
        (reference_digest (lit "aiseg") (lit "0123456789")
           (challenge_realm h) (challenge_nonce h) (challenge_qop h)
           method path cnonce) ++ more in
    tr = [EvSend rq; EvRecv rq (Ok r1); EvRandom cnonce;
          EvSend (authenticated rq auth); EvRecv (authenticated rq auth) res].

(** An exchange without retry: the first answer is the result, and it is
    not a 401. *)
Definition plain_exchange (rq : Request) (tr : trace) (res : outcome Response) : Prop :=
  tr = [EvSend rq; EvRecv rq res] /\
  match res with
  | Ok r => status r <> 401
  | Err _ => True
  end.

(** At no instant of [tr] are more than [n] requests in flight. *)
Definition in_flight_at_most (n : Z) (tr : trace) : Prop :=
  forall pre suf, tr = pre ++ suf -> 0 <= balance pre <= n.

(** The events [seg] and the results [xs] of one batch of the bulk fetch:
    a [Promise.all] over the tasks of the circuits of index [s] to
    [s + 9]. *)
Definition batch_run `{Host} (circuits : list Aiseg2.Circuit) (s : nat)
    (seg : trace) (xs : list JsVal) : Prop :=
  exists ttr,
    all_exec (List.map Aiseg2.kwh_task (take 10 (drop s circuits))) ttr xs /\
    seg = untag ttr.

(** [p.catch(() => null)] on the outcome of [p]. *)
Definition or_null (o : outcome JsVal) : JsVal :=
  match o with
  | Ok v => v
  | Err _ => VNull
  end.

(** [null] or [undefined]. *)
Definition nullish (v : JsVal) : bool :=
  match v with
  | VUndef | VNull => true
  | _ => false
  end.

(** A field of the snapshot holds a number. *)
Definition numeric (v : JsVal) : Prop := exists n, v = VNum n.

Definition field (v : JsVal) (k : string) : JsVal := get_prop_opt v (lit k).

(** The consumers listed under [top]. *)
Definition top_of (snap : JsVal) : list JsVal :=
  match field snap "top" with
  | VArr cs => cs
  | _ => []
  end.

(** The description of the realtime mapper, as it is worded: every
    numeric field of the snapshot is a number, and is 0 when its source
    field is absent or does not parse. *)
Definition realtime_fields_numeric : Prop :=
  forall d snap, Aiseg2.realtime_snapshot d = Ok snap ->
    (numeric (field snap "gen_kw") /\
     (parseFloat (field d "g_capacity") = Ok NaN -> field snap "gen_kw" = Aiseg2.zero)) /\
    (numeric (field snap "use_kw") /\
     (parseFloat (field d "u_capacity") = Ok NaN -> field snap "use_kw" = Aiseg2.zero)) /\
    (numeric (field snap "solar_w") /\
     (parseFloat (field d "g_d_1_capacity") = Ok NaN -> field snap "solar_w" = Aiseg2.zero)) /\
    (numeric (field snap "enefarm_w") /\
     (parseFloat (field d "g_d_2_capacity") = Ok NaN -> field snap "enefarm_w" = Aiseg2.zero)) /\
    (forall c, c ∈ top_of snap -> numeric (field c "watts")).

(** The kW field [n] of the snapshot for the number [g] that [parseFloat]
    reads in its source field: 0 when [g] is NaN or zero, [g] otherwise;
    never NaN. *)
Definition kw_of (g n : num) : Prop :=
  n <> NaN /\
  (g = NaN \/ (exists e, g = Dec 0 e) -> n = Dec 0 0) /\
  (g <> NaN -> (forall e, g <> Dec 0 e) -> n = g).

(** A payload with a first consumer that has no capacity and a solar
    capacity that is not a number. *)
Definition odd_payload : JsVal :=
  VObj [(lit "best1", VNum (Dec 1 0)); (lit "g_d_1_capacity", VStr (lit "abc"))].

(** A decimal with its group separators removed, as the description has
    it: every comma goes. *)
Definition strip_commas (v : str) : str :=
  List.filter (fun c => negb (N.eqb c 44)) v.

(** What a scrape makes of the outcome of its request. *)
Definition scraped (o : outcome Response) : JsVal :=
  match o with
  | Ok r => match text r with
            | Ok html => Aiseg2.parseKwh html
            | Err _ => VNull
            end
  | Err _ => VNull
  end.

(** The place of the parenthesis that closes a call, at [depth] calls
    opened inside it so far; [pos] is the place of the head of [s]. *)
Fixpoint closing (depth pos : nat) (s : str) : option nat :=
  match s with
  | [] => None
  | c :: s' =>
      if N.eqb c 40 then closing (S depth) (S pos) s'
      else if N.eqb c 41 then
        match depth with
        | O => Some pos
        | S d => closing d (S pos) s'
        end
      else closing depth (S pos) s'
  end.

(** The balanced-parenthesis argument of a script, as the description
    has it: the text from the first opening parenthesis to the closing
    one that balances it. *)
Definition balanced_argument (s : str) : option str :=
  match indexOf [40%N] s with
  | Some l =>
      match closing 0 (S l) (drop (S l) s) with
      | Some r => Some (slice (S l) r s)
      | None => None
      end
  | None => None
  end.

(** The text [getCircuits] cuts out of a script that holds the marker is
    its balanced argument: its last closing parenthesis is the one that
    balances its first opening one. *)
Definition balanced_cut (s : str) : Prop :=
  includes Aiseg2.marker s = true ->
  Aiseg2.call_argument s = trim <$> balanced_argument s.

(** The value a script gives when it holds the marker and its balanced
    argument parses. *)
Definition parsed_argument (s : str) : option JsVal :=
  if includes Aiseg2.marker s then
    balanced_argument s ≫= (fun arg => JSON_parse (trim arg))
  else None.

(** The first script of the page, in document order, that holds the
    marker and parses. *)
Fixpoint first_parsed (ss : list str) : option JsVal :=
  match ss with
  | [] => None
  | s :: ss' =>
      match parsed_argument s with
      | Some d => Some d
      | None => first_parsed ss'
      end
  end.

(** The description of the circuit list, as it is worded: the circuits
    come from the first script that parses, and there are none when no
    script parses. *)
Definition circuits_from_first_parsed : Prop :=
  exists F : option JsVal -> list JsVal,
    F None = [] /\
    forall html,
      Aiseg2.circuits_of_html html = F (first_parsed (Aiseg2.scripts 0 html)).

(** [c.strBtnType === '1'] on an entry that is not [null]. *)
Definition button_is_1 (c : JsVal) : bool :=
  is_str (get_prop_opt c (lit "strBtnType")) (lit "1").

(** The entry [e] of the circuit list made of the circuit [c] of the
    page: the identifier is the text of [c.strId], the name is
    [c.strCircuit] when that is truthy. *)
Definition entry_of (c e : JsVal) : Prop :=
  exists id,
    ToString (field c "strId") = Ok id /\
    e = VObj [(lit "id", VStr id);
              (lit "name", js_or (field c "strCircuit") (VStr (lit "Circuit " ++ id)))].

(** A script is passed over: it does not hold the marker, it has no
    balanced argument, the argument does not parse, or reading the
    circuits from the value it parses to throws. *)
Definition passed_over (s : str) : Prop :=
  includes Aiseg2.marker s = false \/
  balanced_argument s = None \/
  exists arg, balanced_argument s = Some arg /\
    (JSON_parse (trim arg) = None \/
     exists data e, JSON_parse (trim arg) = Some data /\
                    Aiseg2.circuits_of_data data = Err e).

(** A script with a second call after the list: its balanced argument is
    the object, the text up to its last closing parenthesis is not. *)
Definition two_calls_script : str :=
  lit "init({" ++ Aiseg2.quoted (lit "arrayCircuitNameList") ++ lit ":[]}); ready();".

(** Two pages: a script calling with [null], alone and followed by a
    script with one enabled circuit. *)
Definition script_tag (content : str) : str :=
  lit "<script>" ++ content ++ lit "</script>".

Definition null_script : str := script_tag (lit "arrayCircuitNameList(null);").

Definition kitchen_call : str :=
  lit "init({" ++ Aiseg2.quoted (lit "arrayCircuitNameList") ++ lit ":[{" ++
  Aiseg2.quoted (lit "strBtnType") ++ lit ":" ++ Aiseg2.quoted (lit "1") ++ lit "," ++
  Aiseg2.quoted (lit "strId") ++ lit ":" ++ Aiseg2.quoted (lit "7") ++ lit "," ++
  Aiseg2.quoted (lit "strCircuit") ++ lit ":" ++ Aiseg2.quoted (lit "Kitchen") ++
  lit "}]});".

Definition kitchen_script : str := script_tag kitchen_call.

Definition kitchen : JsVal :=
  VObj [(lit "id", VStr (lit "7")); (lit "name", VStr (lit "Kitchen"))].

(** The calls into the client among the events [tr]. *)
Fixpoint client_calls (tr : trace) : list ClientOp :=
  match tr with
  | [] => []
  | EvCall op _ :: tr' => op :: client_calls tr'
  | _ :: tr' => client_calls tr'
  end.

(** A cached category of the server: its REST read, the operation of the
    client that refreshes it, its TTL, its timestamp and payload in the
    cache, what is cached for a fetched value (the device status is
    annotated with the nicknames first, which may throw), and the cache
    with a new payload and timestamp. *)
Record Category : Type := mkCategory {
  cat_read : Server.State -> prog (Server.Reply * Server.State);
  cat_op : ClientOp;
  cat_ttl : Z;
  cat_at : Server.Cache -> Z;
  cat_payload : Server.Cache -> JsVal;
  cat_annotate : Server.State -> JsVal -> outcome JsVal;
  cat_update : JsVal -> Z -> Server.Cache -> Server.Cache;
}.

Definition cat_realtime : Category := {|
  cat_read := Server.get_api_realtime;
  cat_op := GetRealtime;
  cat_ttl := 5000;
  cat_at := Server.realtimeAt;
  cat_payload := Server.realtime;
  cat_annotate _ data := Ok data;
  cat_update data t c :=
    Server.mkCache data t (Server.totals c) (Server.totalsAt c) (Server.circuits c)
      (Server.circuitKwh c) (Server.circuitKwhAt c) (Server.devices c) (Server.devicesAt c);
|}.

Definition cat_totals : Category := {|
  cat_read := Server.get_api_totals;
  cat_op := GetTotals;
  cat_ttl := 60000;
  cat_at := Server.totalsAt;
  cat_payload := Server.totals;
  cat_annotate _ data := Ok data;
  cat_update data t c :=
    Server.mkCache (Server.realtime c) (Server.realtimeAt c) data t (Server.circuits c)
      (Server.circuitKwh c) (Server.circuitKwhAt c) (Server.devices c) (Server.devicesAt c);
|}.

Definition cat_devices : Category := {|
  cat_read := Server.get_api_devices;
  cat_op := GetDevices;
  cat_ttl := 10000;
  cat_at := Server.devicesAt;
  cat_payload := Server.devices;
  cat_annotate st raw := Server.applyNicknames (Server.nicknames st) raw;
  cat_update data t c :=
    Server.mkCache (Server.realtime c) (Server.realtimeAt c) (Server.totals c)
      (Server.totalsAt c) (Server.circuits c) (Server.circuitKwh c)
      (Server.circuitKwhAt c) data t;
|}.

Definition categories : list Category := [cat_realtime; cat_totals; cat_devices].

(** The outcome of a refresh: the value to cache, or what was thrown by
    the client or by the annotation. *)
Definition refreshed (c : Category) (st : Server.State) (o : outcome JsVal) : outcome JsVal :=
  obind o (cat_annotate c st).

(** What a read of the category [c] does in the state [st] when the
    clock shows [now]: its events, its reply and the state it leaves. *)
Inductive read_result (c : Category) (st : Server.State) (now : Z)
  : trace -> Server.Reply -> Server.State -> Prop :=
| read_cached :
    now - cat_at c (Server.cache st) <= cat_ttl c ->
    read_result c st now [EvNow now]
      (Server.mkReply 200 (Server.Json (cat_payload c (Server.cache st)))) st
| read_refreshed o data t :
    cat_ttl c < now - cat_at c (Server.cache st) ->
    refreshed c st o = Ok data ->
    read_result c st now [EvNow now; EvCall (cat_op c) o; EvNow t]
      (Server.mkReply 200 (Server.Json data))
      (Server.set_cache (cat_update c data t (Server.cache st)) st)
| read_failed o e :
    cat_ttl c < now - cat_at c (Server.cache st) ->
    refreshed c st o = Err e ->
    read_result c st now [EvNow now; EvCall (cat_op c) o]
      (Server.mkReply 502 (Server.ErrorOf e)) st.

(** A server state to run examples: an expired realtime entry. *)
Definition demo_state : Server.State :=
  Server.mkState
    (Server.mkCache (VObj [(lit "gen_kw", VNum (Dec 12 (-1)))]) 990000
                    VNull 0 VNull VNull 0 VNull 0)
    ∅ [].

(** The key under which the nickname of a device entry is stored. *)
Definition key_of (d : JsVal) : outcome str :=
  Server.nickname_key (field d "nodeId") (field d "eoj").

(** A device status with one air conditioner that carries a nickname, the
    nickname map that gave it, and the request that resets it. *)
Definition demo_ac : JsVal :=
  VObj [(lit "nodeId", VStr (lit "1073741827")); (lit "eoj", VStr (lit "0x013001"));
        (lit "name", VStr (lit "AC-A")); (lit "nickname", VStr (lit "Bedroom"))].

Definition demo_devices_state : Server.State :=
  Server.mkState
    (Server.mkCache VNull 0 VNull 0 VNull VNull 0
       (VObj [(lit "token", VStr (lit "32140")); (lit "acs", VArr [demo_ac]);
              (lit "fhs", VArr [])]) 990000)
    {[ lit "1073741827_0x013001" := VStr (lit "Bedroom") ]} [].






(** The key of the request [req] of [POST /api/nicknames]. *)
Definition request_key (req : JsVal) : outcome str :=
  Server.nickname_key (field req "nodeId") (field req "eoj").

(** The answer of [POST /api/nicknames] when it succeeds. *)
Definition ok_true : Server.Reply :=
  Server.mkReply 200 (Server.Json (VObj [(lit "ok", VBool true)])).

(** The actions [POST /api/devices/control] supports. *)
Definition supported_actions : list str :=
  [lit "toggleAC"; lit "toggleFH"; lit "toggleBath"; lit "toggleGenerate";
   lit "setACMode"; lit "setACTemp"; lit "setACFan"; lit "setFHLevel"].

Definition unknown_action (req : JsVal) : Prop :=
  forall a, a ∈ supported_actions -> field req "action" <> VStr a.

(** The description of the control endpoint, as it is worded: a request
    with an unknown action is answered with 400 and no request leaves for
    the appliance before that. *)
Definition unknown_action_rejected_first `{Host} : Prop :=
  forall getDevices req st cs tr reply st' cs',
    unknown_action req ->
    aexec (Server.link getDevices (Server.post_api_devices_control req st) cs)
          tr ((reply, st'), cs') ->
    Server.code reply = 400 /\ forall rq, EvSend rq ∉ tr.

(** A server and a client that have fetched nothing yet, a request with
    an action the server does not know, and the page the token is read
    from. *)
Definition fresh_state : Server.State := Server.mkState Server.cache0 ∅ [].
Definition fresh_client : Aiseg2.ClientState := Aiseg2.mkClientState None 0.
Definition reboot_request : JsVal := VObj [(lit "action", VStr (lit "reboot"))].
Definition token_page : str := lit "<script>init(1, 2, 3, 32140);</script>".
Definition no_devices (cs : Aiseg2.ClientState)
  : aprog (outcome JsVal * Aiseg2.ClientState) := ARet (Err TypeError, cs).

(** A stand-in for the functions of the host, to run examples: the
    expression hashed or encoded stays readable. *)
Definition demo_host : Host := {|
  md5 s := lit "md5(" ++ s ++ lit ")";
  toBase64 s := lit "b64(" ++ s ++ lit ")";
  JSON_stringify v := match ToString v with Ok s => s | Err _ => [] end;
  encodeURIComponent s := s;
  URLSearchParams_toString l :=
    concat (List.map (fun kv => lit "&" ++ kv.1 ++ lit "=" ++
                               match ToString kv.2 with Ok s => s | Err _ => [] end) l);
|}.

(** A challenge as the appliance sends it: realm, nonce and [qop]. *)
Definition demo_challenge : str :=
  lit "Digest realm=" ++ Aiseg2.quoted (lit "AiSEG2") ++
  lit ", nonce=" ++ Aiseg2.quoted (lit "5f3a") ++
  lit ", qop=" ++ Aiseg2.quoted (lit "auth").

(** An appliance that asks every request without credentials to
    authenticate and answers the others with [page]. *)
Definition has_authorization (rq : Request) : bool :=
  existsb (fun h => str_eqb h.1 (lit "Authorization")) (rq_headers rq).

Definition demo_appliance (page : str) : oracle := {|
  on_fetch _ rq :=
    if has_authorization rq then Ok (mkResponse 200 None (Ok page))
    else Ok (mkResponse 401 (Some demo_challenge) (Ok []));
  on_now h := 1000000 + Z.of_nat (length h);
  on_random _ := lit "0a1b2c3d4e5f6071";
  on_write _ _ := Ok ();
  on_call _ _ := Err TypeError;
|}.

(** A page of the appliance that shows [v] in its kWh span. *)
Definition kwh_page (v : string) : str :=
  lit "<div><span class='num' " ++ Aiseg2.id_val_kwh ++ lit ">" ++ lit v ++
  lit "</span></div>".

(** An appliance that needs no authentication, answers with [page] and
    lets every third request fail. *)
Definition settled (h : trace) : nat :=
  length (List.filter (fun e => match e with EvRecv _ _ => true | _ => false end) h).

Definition demo_flaky (page : str) : oracle := {|
  on_fetch h _ :=
    if Nat.eqb (settled h mod 3) 2 then Err (NetworkError (lit "ECONNRESET"))
    else Ok (mkResponse 200 None (Ok page));
  on_now h := 1000000 + Z.of_nat (length h);
  on_random _ := lit "0a1b2c3d4e5f6071";
  on_write _ _ := Ok ();
  on_call _ _ := Err TypeError;
|}.

Definition demo_circuits : list Aiseg2.Circuit :=
  List.map (fun i => Aiseg2.mkCircuit (VStr (nat_digits (Z.of_nat i))) (VStr (lit "circuit")))
           (seq 1 25).

(** A client that answers every call with [o], and a clock. *)
Definition demo_client (o : outcome JsVal) : oracle := {|
  on_fetch _ _ := Err (NetworkError (lit "unreachable"));
  on_now h := 1000000 + Z.of_nat (length h);
  on_random _ := lit "0a1b2c3d4e5f6071";
  on_write _ _ := Ok ();
  on_call _ _ := o;
|}.

(** ** The session token *)

(** The token [getToken] reads off the page [html]: the fourth argument
    of the first call of [init] with four numbers, [32140] when there is
    none. *)
Definition token_of (html : str) : str :=
  default (lit "32140") (Aiseg2.token_match html).

(** The first line of [getToken] does not answer from memory: no token is
    held and the clock is not read ([clock] is empty), or the clock shows
    that the token is an hour old. *)
Definition token_stale (st : Aiseg2.ClientState) (clock : trace) : Prop :=
  (clock = [] /\ (Aiseg2._token st = None \/ Aiseg2._token st = Some [])) \/
  (exists now, clock = [EvNow now] /\ 3600000 <= now - Aiseg2._tokenAt st).

(** What a control operation resolves to for the final answer of the
    appliance. *)
Definition error_status (r : Response) : JsVal :=
  VObj [(lit "result", VStr (lit "error")); (lit "status", VNum (num_of_Z (status r)))].

(** An exchange of [digestFetch] or of [devicePost] for the request
    [rq]: without or with the authenticated retry. *)
Definition exchange `{Host} (rq : Request) (method path : str)
    (tr : trace) (res : outcome Response) : Prop :=
  plain_exchange rq tr res \/ digest_exchange rq method path tr res.

(** The body [s] read as JSON. *)
Definition body_json (s : outcome str) : outcome JsVal :=
  match s with
  | Err e => Err e
  | Ok s =>
      match JSON_parse s with
      | Some v => Ok v
      | None => Err SyntaxError
      end
  end.

(** What a control operation makes of the outcome of its exchange: a
    failed exchange is thrown, an answer with a status from 200 to 299
    gives its body read as JSON, any other answer is reported. *)
Definition acknowledged (o : outcome Response) : outcome JsVal :=
  match o with
  | Err e => Err e
  | Ok r =>
      if (200 <=? status r) && (status r <=? 299) then body_json (body r)
      else Ok (error_status r)
  end.

(** The first request of a [devicePost] for the device page [page] with
    the parameters [params], with its method and its path. *)
Definition device_request `{Host} (page : string) (params : list (str * JsVal))
  : Request * str * str :=
  let path := lit "/action/devices/device/" ++ lit page in
  (devicePost_request path (VObj params), lit "POST", path).

(** The first request of the [digestFetch] of [controlBath] with the
    token text [t]. *)
Definition bath_request `{Host} (t : str) : Request * str * str :=
  let path := lit "/action/devices/device/301?" ++
    URLSearchParams_toString
      [(lit "page", VStr (lit "1")); (lit "old_page", VStr (lit "1"));
       (lit "nodeid", VStr (lit "1073741826")); (lit "eoj", VStr (lit "0x027201"));
       (lit "devtype", VStr (lit "0x37")); (lit "bathcmd", VStr (lit "0x41"));
       (lit "generatecmd", VStr (lit "-")); (lit "geneHeatcmd", VStr (lit "-"));
       (lit "cleancmd", VStr (lit "-")); (lit "token", VStr t)] in
  (digestFetch_request path (lit "GET") None, lit "GET", path).

(** The course of a control operation called with [token] in the state
    [st] of the module variables, where [request] gives the request for
    the token resolved, or throws.  A truthy token is taken as it is,
    without a request and without a change of the variables; otherwise
    [getToken] runs, and when it throws the operation throws and sends
    nothing more.  When [request] throws, the operation throws and sends
    nothing more.  Otherwise the operation makes the one exchange of that
    request and acknowledges its outcome. *)
Definition control_run `{Host} (token : JsVal)
    (request : JsVal -> outcome (Request * str * str))
    (st : Aiseg2.ClientState) (tr : trace) (r : outcome JsVal)
    (st' : Aiseg2.ClientState) : Prop :=
  exists tr0 t,
    (if truthy token then tr0 = [] /\ t = Ok token /\ st' = st
     else exists o, exec (Aiseg2.getToken st) tr0 (o, st') /\
                    t = obind o (fun s => Ok (VStr s))) /\
    match t with
    | Err e => tr = tr0 /\ r = Err e
    | Ok tok =>
        match request tok with
        | Err e => tr = tr0 /\ r = Err e
        | Ok (rq, method, path) =>
            exists tr1 o,
              exchange rq method path tr1 o /\ tr = tr0 ++ tr1 /\
              r = acknowledged o
        end
    end.

(** What [getRealtime] makes of the outcome of its exchange: a failed
    exchange is thrown, an answer with a status outside 200 to 299 is
    thrown as an HTTP error with that status, a body that cannot be read
    or is not JSON is thrown, and so is the reading of the fields of
    [null]; otherwise the result is that of the mapper. *)
Definition realtime_result (o : outcome Response) : outcome JsVal :=
  match o with
  | Err e => Err e
  | Ok r =>
      if (200 <=? status r) && (status r <=? 299) then
        match body_json (body r) with
        | Err e => Err e
        | Ok d => if nullish d then Err TypeError else Aiseg2.realtime_snapshot d
        end
      else Err (HttpError (status r))
  end.

(** The request of [getRealtime]. *)
Definition realtime_path : str := lit "/data/electricflow/111/update".

(** An appliance that answers every request with the status [s] and the
    body [page], without a challenge. *)
Definition demo_status (s : Z) (page : str) : oracle := {|
  on_fetch _ _ := Ok (mkResponse s None (Ok page));
  on_now h := 1000000 + Z.of_nat (length h);
  on_random _ := lit "0a1b2c3d4e5f6071";
  on_write _ _ := Ok ();
  on_call _ _ := Err TypeError;
|}.

(** ** Challenge headers *)

(** A challenge header as a server writes it: the scheme and the
    parameters, each a name, an equals sign and a value between quotation
    marks, separated by a comma and a space. *)
Definition auth_param (kv : str * str) : str :=
  kv.1 ++ lit "=" ++ Aiseg2.quoted kv.2.

Fixpoint auth_params (l : list (str * str)) : str :=
  match l with
  | [] => []
  | kv :: l' =>
      match l' with
      | [] => auth_param kv
      | _ :: _ => auth_param kv ++ lit ", " ++ auth_params l'
      end
  end.

Definition challenge_of (l : list (str * str)) : str :=
  lit "Digest " ++ auth_params l.

(** The name is a non-empty run of word characters, the value a
    non-empty text without a quotation mark. *)
Definition well_formed (kv : str * str) : Prop :=
  kv.1 <> [] /\ Forall (fun c => is_word c = true) kv.1 /\
  kv.2 <> [] /\ Forall (fun c => Aiseg2.not_quote c = true) kv.2.

(** A parameter the object of [parseWWWAuth] stores: any but one named
    [__proto__]. *)
Definition stored (kv : str * str) : bool := negb (str_eqb kv.1 (lit "__proto__")).

(** ** Pages *)

(** The page [html] shows the run [v] in a kWh span that starts after
    [pre]. *)
Definition kwh_span_at (html pre v : str) : Prop :=
  exists attrs rest,
    html = pre ++ lit "<span" ++ attrs ++ lit ">" ++ v ++ lit "</span>" ++ rest /\
    Forall (fun c => Aiseg2.not_gt c = true) attrs /\
    includes Aiseg2.id_val_kwh (drop 1 attrs) = true.

(** An entry of the circuit list: a string identifier and a truthy
    name. *)
Definition circuit_shape (c : JsVal) : Prop :=
  exists id name,
    c = VObj [(lit "id", VStr id); (lit "name", name)] /\ truthy name = true.

(** A total of the day: [null] or a number. *)
Definition null_or_number (v : JsVal) : Prop := v = VNull \/ exists n, v = VNum n.

(** ** Handlers *)

(** The token argument of a control operation. *)
Definition op_token (op : ClientOp) : option JsVal :=
  match op with
  | ControlAC _ _ _ t | ControlFH _ _ _ t | ControlBath t | ControlGenerate t
  | SetACSettings _ _ _ _ t | SetFHLevel _ _ _ _ t => Some t
  | _ => None
  end.

(** The token [POST /api/devices/control] resolves in the state [st] with
    the events [pre]: the token of the cached device status when it is
    truthy, the answer of [getToken] otherwise. *)
Definition resolved_token (st : Server.State) (pre : trace) (t : outcome JsVal) : Prop :=
  let cached := field (Server.devices (Server.cache st)) "token" in
  if truthy cached then pre = [] /\ t = Ok cached
  else pre = [EvCall GetToken t].

(** A request that renames the air conditioner of [demo_devices_state],
    and one that toggles it. *)
Definition demo_rename : JsVal :=
  VObj [(lit "nodeId", VStr (lit "1073741827")); (lit "eoj", VStr (lit "0x013001"));
        (lit "name", VStr (lit " Study "))].

Definition demo_toggle : JsVal :=
  VObj [(lit "action", VStr (lit "toggleAC")); (lit "nodeId", VStr (lit "1073741827"));
        (lit "eoj", VStr (lit "0x013001")); (lit "state", VStr (lit "0x31"))].

(** ** The circuit cache ([fetchCircuits] of [server.js]) *)

Module CircuitCache.
Section FetchCircuits.
Context `{Host}.

(** [cache.circuits = v] *)
Definition set_circuits (v : JsVal) (st : Server.State) : Server.State :=
  let c := Server.cache st in
  Server.set_cache
    (Server.mkCache (Server.realtime c) (Server.realtimeAt c) (Server.totals c)
       (Server.totalsAt c) v (Server.circuitKwh c) (Server.circuitKwhAt c)
       (Server.devices c) (Server.devicesAt c)) st.

(** [cache.circuitKwh = v; cache.circuitKwhAt = now] *)
Definition set_circuitKwh (v : JsVal) (now : Z) (st : Server.State) : Server.State :=
  let c := Server.cache st in
  Server.set_cache
    (Server.mkCache (Server.realtime c) (Server.realtimeAt c) (Server.totals c)
       (Server.totalsAt c) (Server.circuits c) v now
       (Server.devices c) (Server.devicesAt c)) st.

(** An entry of the cached list as [getAllCircuitKwh] reads it ([c.id]).
    For an entry that is [null] or [undefined] the callback of a batch
    throws after the requests of the entries before it have left: this is
    not modelled ([None]); [getCircuits] stores no such entry. *)
Definition entry (c : JsVal) : option Aiseg2.Circuit :=
  match get_prop c (lit "id") with
  | Ok id => Some (Aiseg2.mkCircuit id (get_prop_opt c (lit "name")))
  | Err _ => None
  end.

Definition entries (cs : list JsVal) : option (list Aiseg2.Circuit) := mapM entry cs.

(** [(c, i) => ({ ...c, kwh: kwh[i] })] *)
Definition with_kwh (kwh : list JsVal) (i : nat) (c : JsVal) : JsVal :=
  VObj (obj_set (lit "kwh") (default VUndef (kwh !! i)) (spread c)).

(** The second statement of [fetchCircuits] and its [return], with
    [cache.circuits] equal to [v].  The result is [None] where the code is
    not modelled: a list that is not an array (what [length], [slice] and
    [map] do then depends on the properties of the value), or an array
    with an entry that is [null] or [undefined]. *)
Definition refreshKwh (v : JsVal) (st : Server.State)
  : aprog (option (outcome JsVal * Server.State)) :=
  ADo (DateNow Ret) (fun now =>
    if Server.TTL_circuitKwh <? now - Server.circuitKwhAt (Server.cache st) then
      match v with
      | VArr cs =>
          match entries cs with
          | Some l =>
              abind (Aiseg2.getAllCircuitKwh l) (fun kwh =>
                let data := VArr (imap (with_kwh kwh) cs) in
                ADo (DateNow Ret) (fun now' =>
                  ARet (Some (Ok data, set_circuitKwh data now' st))))
          | None => ARet None
          end
      | _ => ARet None
      end
    else ARet (Some (Ok (Server.circuitKwh (Server.cache st)), st))).

Definition fetchCircuits (st : Server.State)
  : aprog (option (outcome JsVal * Server.State)) :=
  if truthy (Server.circuits (Server.cache st)) then
    refreshKwh (Server.circuits (Server.cache st)) st
  else
    ADo Aiseg2.getCircuits (fun o =>
      match o with
      | Err e => ARet (Some (Err e, st))
      | Ok v => refreshKwh v (set_circuits v st)
      end).

End FetchCircuits.
End CircuitCache.

(** What [fetchCircuits] keeps in [cache.circuits]: nothing yet, or a list
    as [getCircuits] returns it. *)
Definition circuits_stored (v : JsVal) : Prop :=
  v = VNull \/ exists cs, v = VArr cs /\ Forall circuit_shape cs.

(** The events hold no request. *)
Definition no_request (tr : trace) : Prop := forall rq, EvSend rq ∉ tr.

(** What the second statement of [fetchCircuits] does with the list [cs]
    in the state [st]: within the TTL after the last refresh it reads
    the clock and returns the cached kWh list; past it, it fetches the kWh
    of every circuit, caches the circuits with their [kwh] and the time
    read afterwards, and returns them. *)
Definition kwh_events `{Host} (st : Server.State) (cs : list JsVal) (tr : trace)
    (res : outcome JsVal) (st' : Server.State) : Prop :=
  exists now,
    (now - Server.circuitKwhAt (Server.cache st) <= 300000 /\
     tr = [EvNow now] /\ res = Ok (Server.circuitKwh (Server.cache st)) /\ st' = st) \/
    (300000 < now - Server.circuitKwhAt (Server.cache st) /\
     exists l trk kwh now',
       CircuitCache.entries cs = Some l /\
       aexec (Aiseg2.getAllCircuitKwh l) trk kwh /\ length kwh = length cs /\
       tr = EvNow now :: trk ++ [EvNow now'] /\
       res = Ok (VArr (imap (CircuitCache.with_kwh kwh) cs)) /\
       st' = CircuitCache.set_circuitKwh (VArr (imap (CircuitCache.with_kwh kwh) cs)) now' st).

(** A server that has loaded an empty circuit list. *)
Definition demo_no_circuits : Server.State :=
  CircuitCache.set_circuits (VArr []) fresh_state.

(** ** Live polling ([startPolling] and [stopPolling] of [server.js]) *)

Module Polling.

(** The three polls. *)
Inductive Poll : Type := pollRealtime | pollTotals | pollDevices.

(** An interval that is set: the object [setInterval] returned (a new one
    at each call, here numbered), its callback and its period. *)
Record Timer : Type := mkTimer { timer_id : nat; callback : Poll; period : Z }.

(** The module variables [pollHandle], [totalsHandle] and
    [devicesHandle], the intervals of the process, the number of the
    next timer, and the polls called directly so far. *)
Record State : Type := mkState {
  pollHandle : option nat;
  totalsHandle : option nat;
  devicesHandle : option nat;
  timers : list Timer;
  next_id : nat;
  called : list Poll;
}.

Definition initial : State := mkState None None None [] 0 [].

Definition setInterval (cb : Poll) (ms : Z) (st : State) : nat * State :=
  (next_id st,
   mkState (pollHandle st) (totalsHandle st) (devicesHandle st)
           (timers st ++ [mkTimer (next_id st) cb ms]) (S (next_id st)) (called st)).

(** [clearInterval(h)]; nothing happens for [null]. *)
Definition clearInterval (h : option nat) (st : State) : State :=
  mkState (pollHandle st) (totalsHandle st) (devicesHandle st)
          (List.filter (fun t => negb (bool_decide (h = Some (timer_id t)))) (timers st))
          (next_id st) (called st).

Definition call (p : Poll) (st : State) : State :=
  mkState (pollHandle st) (totalsHandle st) (devicesHandle st) (timers st) (next_id st)
          (called st ++ [p]).

Definition startPolling (st : State) : State :=
  match pollHandle st with
  | Some _ => st
  | None =>
      let st := call pollRealtime st in
      let '(h1, st) := setInterval pollRealtime 5000 st in
      let st := mkState (Some h1) (totalsHandle st) (devicesHandle st)
                        (timers st) (next_id st) (called st) in
      let '(h2, st) := setInterval pollTotals 60000 st in
      let st := mkState (pollHandle st) (Some h2) (devicesHandle st)
                        (timers st) (next_id st) (called st) in
      let '(h3, st) := setInterval pollDevices 10000 st in
      mkState (pollHandle st) (totalsHandle st) (Some h3)
              (timers st) (next_id st) (called st)
  end.

Definition stopPolling (st : State) : State :=
  match pollHandle st with
  | None => st
  | Some _ =>
      let st := clearInterval (pollHandle st) st in
      let st := clearInterval (totalsHandle st) st in
      let st := clearInterval (devicesHandle st) st in
      mkState None None None (timers st) (next_id st) (called st)
  end.

(** What the socket server tells the module: a client has connected,
    or one has closed and [size] clients remain ([wss.clients.size]). *)
Inductive Event : Type := connection | close (size : nat).

(** The part of the handlers of [wss.on('connection', ..)] that
    concerns the polling. *)
Definition handle (st : State) (ev : Event) : State :=
  match ev with
  | connection => startPolling st
  | close size => if Nat.eqb size 0 then stopPolling st else st
  end.

(** A frame for a client: [JSON.stringify({ type, data, ts })]. *)
Record Frame : Type := mkFrame { frame_type : str; frame_data : JsVal; frame_ts : Z }.

(** The clients of the socket server that are open ([readyState === 1]),
    by their place in [wss.clients], given by their [readyState]. *)
Definition open_clients (clients : list Z) : list nat :=
  List.map fst (List.filter (fun iw => snd iw =? 1) (imap pair clients)).

(** [broadcast(type, data)]: the frames sent, each with its client. *)
Definition broadcast (type : str) (data : JsVal) (clients : list Z)
  : prog (list (nat * Frame)) :=
  DateNow (fun ts =>
    let msg := mkFrame type data ts in
    Ret (List.map (fun i => (i, msg)) (open_clients clients))).

(** The shape of the three polls:
    [try { const data = await fetch(); broadcast(type, data) } catch (e) { .. }]. *)
Definition poll (type : str) (fetch : Server.server JsVal) (clients : list Z)
  : Server.State -> prog (list (nat * Frame) * Server.State) := fun st =>
  bind (fetch st) (fun r =>
    match r.1 with
    | Ok data => bind (broadcast type data clients) (fun sent => Ret (sent, r.2))
    | Err _ => Ret ([], r.2)
    end).

(** The function a [Poll] names. *)
Definition poll_body (p : Poll) :=
  match p with
  | pollRealtime => poll (lit "realtime") Server.fetchRealtime
  | pollTotals => poll (lit "totals") Server.fetchTotals
  | pollDevices => poll (lit "devices") Server.fetchDevices
  end.

End Polling.

(** The polling is off: no handle is held and no interval is set.  The
    polling is on: the three handles hold the only three intervals, one
    for each poll, with the periods 5 s, 60 s and 10 s. *)
Definition polling_off (st : Polling.State) : Prop :=
  Polling.pollHandle st = None /\ Polling.totalsHandle st = None /\
  Polling.devicesHandle st = None /\ Polling.timers st = [].

Definition polling_on (st : Polling.State) : Prop :=
  exists a b c,
    Polling.pollHandle st = Some a /\ Polling.totalsHandle st = Some b /\
    Polling.devicesHandle st = Some c /\
    Polling.timers st =
      [Polling.mkTimer a Polling.pollRealtime 5000;
       Polling.mkTimer b Polling.pollTotals 60000;
       Polling.mkTimer c Polling.pollDevices 10000] /\
    (a < b < c)%nat /\ (c < Polling.next_id st)%nat.

(** The state after the events [evs], from the start of the process. *)
Definition state_after (evs : list Polling.Event) : Polling.State :=
  foldl Polling.handle Polling.initial evs.

(** The number of times the polling was switched on by the events [evs],
    starting with the polling on or off. *)
Fixpoint switched_on (on : bool) (evs : list Polling.Event) : nat :=
  match evs with
  | [] => 0
  | Polling.connection :: evs' => (if on then 0 else 1) + switched_on true evs'
  | Polling.close size :: evs' =>
      switched_on (if Nat.eqb size 0 then false else on) evs'
  end.

(** The payload a poll keeps in the cache. *)
Definition poll_payload (p : Polling.Poll) : Server.Cache -> JsVal :=
  match p with
  | Polling.pollRealtime => Server.realtime
  | Polling.pollTotals => Server.totals
  | Polling.pollDevices => Server.devices
  end.

(** The type a poll gives its frames. *)
Definition poll_type (p : Polling.Poll) : str :=
  match p with
  | Polling.pollRealtime => lit "realtime"
  | Polling.pollTotals => lit "totals"
  | Polling.pollDevices => lit "devices"
  end.

(** The time a poll keeps in the cache with its payload. *)
Definition poll_at (p : Polling.Poll) : Server.Cache -> Z :=
  match p with
  | Polling.pollRealtime => Server.realtimeAt
  | Polling.pollTotals => Server.totalsAt
  | Polling.pollDevices => Server.devicesAt
  end.

(** The value a poll caches for what the client returned: the device
    status is annotated with the nicknames first, which may throw. *)
Definition poll_value (p : Polling.Poll) (st : Server.State) (raw : JsVal)
  : outcome JsVal :=
  match p with
  | Polling.pollDevices => Server.applyNicknames (Server.nicknames st) raw
  | _ => Ok raw
  end.

(** The operation of the client a poll calls. *)
Definition poll_op (p : Polling.Poll) : ClientOp :=
  match p with
  | Polling.pollRealtime => GetRealtime
  | Polling.pollTotals => GetTotals
  | Polling.pollDevices => GetDevices
  end.

(** ** The page script ([app.js]) *)

Module App.

(** [s.replace(/c/g, r)] for a pattern of one character [c]. *)
Definition replace_all (c : N) (r : str) (s : str) : str :=
  flat_map (fun x => if N.eqb x c then r else [x]) s.

(** [escHtml]: [String(s)], which may throw, then the ampersands first
    and the two angle brackets after them. *)
Definition escHtml (s : JsVal) : outcome str :=
  obind (ToString s) (fun t =>
    Ok (replace_all 62 (lit "&gt;")
          (replace_all 60 (lit "&lt;")
             (replace_all 38 (lit "&amp;") t)))).

End App.

(** The text a browser shows for the markup [s], as far as the three
    entities of [escHtml] go: each of them stands for its character;
    [skip] characters of an entity just read are still to be passed. *)
Fixpoint unescape (skip : nat) (s : str) : str :=
  match s with
  | [] => []
  | c :: s' =>
      match skip with
      | S n => unescape n s'
      | O =>
          if starts_with (lit "&amp;") s then 38%N :: unescape 4 s'
          else if starts_with (lit "&lt;") s then 60%N :: unescape 3 s'
          else if starts_with (lit "&gt;") s then 62%N :: unescape 3 s'
          else c :: unescape 0 s'
      end
  end.

(** The two quotation marks. *)
Definition is_quote (c : N) : bool := N.eqb c 34 || N.eqb c 39.

(** The two angle brackets. *)
Definition is_angle (c : N) : bool := N.eqb c 60 || N.eqb c 62.

(** [escHtml] in one pass. *)
Definition entity (c : N) : str :=
  if N.eqb c 38 then lit "&amp;"
  else if N.eqb c 60 then lit "&lt;"
  else if N.eqb c 62 then lit "&gt;"
  else [c].

(** * Properties *)

(** ** Strings and numbers *)

Lemma str_eqb_eq a b : str_eqb a b = true <-> a = b.
Proof.
  revert b; induction a as [|x a IH]; intros [|y b]; simpl; try easy.
  rewrite andb_true_iff, N.eqb_eq, IH. split.
  - intros [-> ->]; reflexivity.
  - intros [= -> ->]; auto.
Qed.

Lemma str_eqb_refl a : str_eqb a a = true.
Proof. apply str_eqb_eq; reflexivity. Qed.

Lemma span_app f s : (span f s).1 ++ (span f s).2 = s.
Proof.
  induction s as [|c s IH]; simpl; [reflexivity|].
  destruct (f c); [|reflexivity].
  destruct (span f s) as [a b]; simpl in *. now rewrite IH.
Qed.

(** Stripping zeros keeps the value of the number. *)
Lemma strip_zeros_value fuel m e m' e' :
  strip_zeros fuel m e = (m', e') -> e <= e' /\ m = m' * 10 ^ (e' - e).
Proof.
  revert m e; induction fuel as [|fuel IH]; intros m e; simpl.
  - intros [= -> ->]. rewrite Z.sub_diag. simpl. lia.
  - destruct ((m mod 10 =? 0) && negb (m =? 0)) eqn:E.
    + intros Hs. apply IH in Hs as [Hle Hm].
      apply andb_true_iff in E as [E _]. apply Z.eqb_eq in E.
      split; [lia|].
      replace (e' - e) with (Z.succ (e' - (e + 1))) by lia.
      rewrite Z.pow_succ_r by lia.
      rewrite (Z.div_mod m 10) by lia. rewrite E, Hm. lia.
    + intros [= -> ->]. rewrite Z.sub_diag. simpl. lia.
Qed.

Lemma num_of_Z_value n :
  exists m e, num_of_Z n = Dec m e /\ 0 <= e /\ n = m * 10 ^ e.
Proof.
  unfold num_of_Z, mkDec. destruct (n =? 0) eqn:E.
  - apply Z.eqb_eq in E. subst. exists 0, 0. simpl. auto with zarith.
  - destruct (strip_zeros _ n 0) as [m e] eqn:Hs.
    apply strip_zeros_value in Hs as [Hle Hm]. rewrite Z.sub_0_r in Hm.
    exists m, e. auto.
Qed.

(** ** Floor-heater level *)

Lemma clampLevel_integer n :
  Aiseg2.clampLevel (VNum (num_of_Z n)) = Ok (num_of_Z (clamp19 n)).
Proof.
  unfold Aiseg2.clampLevel, clamp19. simpl ToNumber. cbn [obind]. f_equal.
  destruct (num_of_Z_value n) as (m & e & Hn & He & Hv).
  rewrite Hn. unfold num_min, num_cmp.
  replace (0 <=? e) with true by (symmetry; apply Z.leb_le; lia).
  rewrite Z.sub_0_r, <- Hv.
  destruct (9 ?= n) eqn:C.
  - apply Z.compare_eq in C.
    replace (Z.max 1 (Z.min 9 n)) with 9 by lia. reflexivity.
  - rewrite Z.compare_lt_iff in C.
    replace (Z.max 1 (Z.min 9 n)) with 9 by lia. reflexivity.
  - rewrite Z.compare_gt_iff in C.
    unfold num_max, num_cmp, Aiseg2.one.
    replace (0 <=? e) with true by (symmetry; apply Z.leb_le; lia).
    rewrite Z.sub_0_r, <- Hv.
    destruct (1 ?= n) eqn:C1.
    + apply Z.compare_eq in C1.
      replace (Z.max 1 (Z.min 9 n)) with 1 by lia. reflexivity.
    + rewrite Z.compare_lt_iff in C1.
      replace (Z.max 1 (Z.min 9 n)) with n by lia. now rewrite Hn.
    + rewrite Z.compare_gt_iff in C1.
      replace (Z.max 1 (Z.min 9 n)) with 1 by lia. reflexivity.
Qed.

Lemma num_to_str_level l :
  1 <= l <= 9 -> num_to_str (num_of_Z l) = [N.add 48 (Z.to_N l)].
Proof.
  intros Hl.
  assert (l = 1 \/ l = 2 \/ l = 3 \/ l = 4 \/ l = 5 \/ l = 6 \/ l = 7 \/ l = 8 \/ l = 9)
    as Hc by lia.
  repeat (destruct Hc as [-> | Hc]; [reflexivity|]). subst. reflexivity.
Qed.

(** C7. For every integer level [n] given to [setFHLevel], the level is
    clamped into [1,9] and the [templevel] sent to the appliance is the
    text 0x3 followed by the digit of the clamped level, 0x31 to 0x39: the
    levels 0, 1, 5, 9 and 10 give the codes of the levels 1, 1, 5, 9 and
    9.  A level out of range is no error: the operation is the operation
    on the clamped level. *)
Theorem C7_setFHLevel_clamps_and_encodes `{Host} (n : Z) (nodeId eoj state token : JsVal) :
  let lvl := clamp19 n in
  1 <= lvl <= 9 /\
  Aiseg2.templevel (VNum (num_of_Z n)) = Ok (lit "0x3" ++ [N.add 48 (Z.to_N lvl)]) /\
  Aiseg2.setFHLevel nodeId eoj state (VNum (num_of_Z n)) token =
    Aiseg2.control token (fun tok =>
      Aiseg2.devicePost (lit "/action/devices/device/32b/change")
        (VObj [(lit "nodeId", nodeId); (lit "eoj", eoj); (lit "type", VStr (lit "0x34"));
               (lit "state", state);
               (lit "templevel", VStr (lit "0x3" ++ [N.add 48 (Z.to_N lvl)]));
               (lit "token", tok)])) /\
  Aiseg2.setFHLevel nodeId eoj state (VNum (num_of_Z n)) token =
    Aiseg2.setFHLevel nodeId eoj state (VNum (num_of_Z lvl)) token /\
  List.map (fun k => Aiseg2.templevel (VNum (num_of_Z k))) [0; 1; 5; 9; 10] =
    [Ok (lit "0x31"); Ok (lit "0x31"); Ok (lit "0x35"); Ok (lit "0x39"); Ok (lit "0x39")].
Proof.
  intros lvl.
  assert (1 <= lvl <= 9) as Hl by (unfold lvl, clamp19; lia).
  assert (forall k, Aiseg2.templevel (VNum (num_of_Z k)) =
                    Ok (lit "0x3" ++ [N.add 48 (Z.to_N (clamp19 k))])) as Ht.
  { intros k. unfold Aiseg2.templevel. rewrite clampLevel_integer. cbn [obind].
    rewrite num_to_str_level by (unfold clamp19; lia). reflexivity. }
  split; [exact Hl|]. split; [apply Ht|].
  split; [unfold Aiseg2.setFHLevel; now rewrite Ht|].
  split; [|reflexivity].
  unfold Aiseg2.setFHLevel. rewrite !Ht.
  replace (clamp19 lvl) with lvl by (unfold lvl, clamp19; lia). reflexivity.
Qed.

(** ** Executions *)

Lemma exec_bind {A B} (p : prog A) (f : A -> prog B) tr r :
  exec (bind p f) tr r <->
  exists a tr1 tr2, exec p tr1 a /\ exec (f a) tr2 r /\ tr = tr1 ++ tr2.
Proof.
  revert tr; induction p as [a|rq k IH|k IH|k IH|m k IH|op k IH]; intros tr; simpl.
  - split.
    + intros Hx. exists a, [], tr. auto.
    + intros (a' & tr1 & tr2 & [-> ->] & Hx & ->). exact Hx.
  - split.
    + intros (o & tr' & -> & Hx). apply IH in Hx as (a & tr1 & tr2 & H1 & H2 & ->).
      exists a, (EvSend rq :: EvRecv rq o :: tr1), tr2. eauto 10.
    + intros (a & tr1 & tr2 & (o & tr' & -> & H1) & H2 & ->).
      exists o, (tr' ++ tr2). split; [reflexivity|]. apply IH. eauto 10.
  - split.
    + intros (o & tr' & -> & Hx). apply IH in Hx as (a & tr1 & tr2 & H1 & H2 & ->).
      exists a, (EvNow o :: tr1), tr2. eauto 10.
    + intros (a & tr1 & tr2 & (o & tr' & -> & H1) & H2 & ->).
      exists o, (tr' ++ tr2). split; [reflexivity|]. apply IH. eauto 10.
  - split.
    + intros (o & tr' & -> & Hx). apply IH in Hx as (a & tr1 & tr2 & H1 & H2 & ->).
      exists a, (EvRandom o :: tr1), tr2. eauto 10.
    + intros (a & tr1 & tr2 & (o & tr' & -> & H1) & H2 & ->).
      exists o, (tr' ++ tr2). split; [reflexivity|]. apply IH. eauto 10.
  - split.
    + intros (o & tr' & -> & Hx). apply IH in Hx as (a & tr1 & tr2 & H1 & H2 & ->).
      exists a, (EvWrite m o :: tr1), tr2. eauto 10.
    + intros (a & tr1 & tr2 & (o & tr' & -> & H1) & H2 & ->).
      exists o, (tr' ++ tr2). split; [reflexivity|]. apply IH. eauto 10.
  - split.
    + intros (o & tr' & -> & Hx). apply IH in Hx as (a & tr1 & tr2 & H1 & H2 & ->).
      exists a, (EvCall op o :: tr1), tr2. eauto 10.
    + intros (a & tr1 & tr2 & (o & tr' & -> & H1) & H2 & ->).
      exists o, (tr' ++ tr2). split; [reflexivity|]. apply IH. eauto 10.
Qed.

(** Every program runs to a result in every environment. *)
Lemma run_exec {R} (w : oracle) (p : prog R) h :
  exec p (run w h p).1 (run w h p).2.
Proof.
  revert h; induction p as [a|rq k IH|k IH|k IH|m k IH|op k IH]; intros h; simpl.
  - auto.
  - destruct (run w _ (k _)) as [tr r] eqn:E. simpl.
    eexists _, _. split; [reflexivity|].
    specialize (IH (on_fetch w h rq) (h ++ [EvSend rq; EvRecv rq (on_fetch w h rq)])).
    now rewrite E in IH.
  - destruct (run w _ (k _)) as [tr r] eqn:E. simpl.
    eexists _, _. split; [reflexivity|].
    specialize (IH (on_now w h) (h ++ [EvNow (on_now w h)])). now rewrite E in IH.
  - destruct (run w _ (k _)) as [tr r] eqn:E. simpl.
    eexists _, _. split; [reflexivity|].
    specialize (IH (on_random w h) (h ++ [EvRandom (on_random w h)])).
    now rewrite E in IH.
  - destruct (run w _ (k _)) as [tr r] eqn:E. simpl.
    eexists _, _. split; [reflexivity|].
    specialize (IH (on_write w h m) (h ++ [EvWrite m (on_write w h m)])).
    now rewrite E in IH.
  - destruct (run w _ (k _)) as [tr r] eqn:E. simpl.
    eexists _, _. split; [reflexivity|].
    specialize (IH (on_call w h op) (h ++ [EvCall op (on_call w h op)])).
    now rewrite E in IH.
Qed.

(** ** Digest transport *)

Section Digest.
Context `{Host}.

Lemma digest_response_reference realm nonce qop method path cnonce :
  Aiseg2.digest_response realm nonce qop method path cnonce =
  reference_digest (lit "aiseg") (lit "0123456789") realm nonce qop method path cnonce.
Proof.
  unfold Aiseg2.digest_response, reference_digest, Aiseg2.colon, Aiseg2.nc.
  destruct (bool_decide _); simpl; rewrite <- ?app_assoc; reflexivity.
Qed.

(** The header the code builds is the header of the description,
    followed by the optional [qop] and [opaque] fields. *)
Lemma authorization_reference method path h cnonce :
  exists more,
    Aiseg2.authorization method path h cnonce =
    digest_fields (challenge_realm h) (challenge_nonce h) path
      (reference_digest (lit "aiseg") (lit "0123456789")
         (challenge_realm h) (challenge_nonce h) (challenge_qop h)
         method path cnonce) ++ more.
Proof.
  unfold Aiseg2.authorization, challenge_realm, challenge_nonce, challenge_qop.
  set (r := Aiseg2.parseWWWAuth h).
  rewrite digest_response_reference. cbv zeta.
  unfold digest_fields, Aiseg2.quoted.
  destruct (r !! lit "qop") as [[|c q]|], (r !! lit "opaque") as [[|c' o]|];
    eexists; rewrite <- ?app_assoc;
    repeat (apply (f_equal2 app); [reflexivity|]); reflexivity.
Qed.

Lemma retry_exchange rq method path r1 tr res :
  status r1 = 401 ->
  exec (Aiseg2.retry rq method path r1) tr res ->
  digest_exchange rq method path (EvSend rq :: EvRecv rq (Ok r1) :: tr) res.
Proof.
  intros H401 (cnonce & tr1 & -> & o2 & tr2 & -> & -> & ->).
  destruct (authorization_reference method path (challenge_header r1) cnonce)
    as [more Hauth].
  exists r1, cnonce, more. split; [exact H401|].
  cbv zeta. rewrite <- Hauth. unfold authenticated, challenge_header.
  assert (match www_authenticate r1 with
          | Some ((_ :: _) as h) => h
          | _ => []
          end = default [] (www_authenticate r1)) as ->.
  { now destruct (www_authenticate r1) as [[|]|]. }
  reflexivity.
Qed.

End Digest.

(** C1. Every execution of [digestFetch] and of [devicePost] is either
    one request whose answer is not a 401 and is the result, or a 401
    challenge followed by exactly one retry; the retry carries
    [uri] equal to the request path (query string included) and the
    response digest of the description, computed from the realm (AiSEG
    when absent) and the nonce (empty when absent) of the challenge:
    [md5(HA1:nonce:00000001:cnonce:auth:HA2)] when [qop] is [auth],
    [md5(HA1:nonce:HA2)] otherwise, with [HA1 = md5(username:realm:password)]
    and [HA2 = md5(method:path)].  The answer to the retry is the result,
    a second 401 included. *)
Theorem C1_digest_challenge_response `{Host} :
  (forall path method body tr res,
     exec (Aiseg2.digestFetch path method body) tr res ->
     let rq := digestFetch_request path method body in
     plain_exchange rq tr res \/ digest_exchange rq method path tr res) /\
  (forall path params tr res,
     exec (Aiseg2.devicePost path params) tr res ->
     let rq := devicePost_request path params in
     plain_exchange rq tr res \/ digest_exchange rq (lit "POST") path tr res).
Proof.
  split.
  - intros path method body tr res (o & tr' & -> & Hx) rq.
    destruct o as [r1|e]; simpl in Hx.
    + destruct (status r1 =? 401) eqn:E; simpl in Hx.
      * right. apply Z.eqb_eq in E. now apply retry_exchange.
      * left. destruct Hx as [-> ->]. split; [reflexivity|].
        now apply Z.eqb_neq in E.
    + left. destruct Hx as [-> ->]. now split.
  - intros path params tr res (o & tr' & -> & Hx) rq.
    destruct o as [r1|e]; simpl in Hx.
    + destruct (status r1 =? 401) eqn:E; simpl in Hx.
      * right. apply Z.eqb_eq in E. now apply retry_exchange.
      * left. destruct Hx as [-> ->]. split; [reflexivity|].
        now apply Z.eqb_neq in E.
    + left. destruct Hx as [-> ->]. now split.
Qed.

(** ** Promise.all: requests in flight *)

Definition waiting {X} (t : task X) : Z :=
  match t with
  | Waiting _ _ => 1
  | Done _ => 0
  end.

Definition waiting_count {X} (pool : list (task X)) : Z :=
  foldr (fun t n => waiting t + n) 0 pool.

Lemma balance_app tr1 tr2 : balance (tr1 ++ tr2) = balance tr1 + balance tr2.
Proof.
  induction tr1 as [|e tr1 IH]; simpl; [lia|]. destruct e; lia.
Qed.

Lemma untag_app (a b : ttrace) : untag (a ++ b) = untag a ++ untag b.
Proof. unfold untag. apply List.map_app. Qed.

Lemma untag_tag i tr : untag (tag i tr) = tr.
Proof.
  unfold untag, tag. rewrite List.map_map. simpl. apply List.map_id.
Qed.

Lemma waiting_count_bounds {X} (pool : list (task X)) :
  0 <= waiting_count pool <= Z.of_nat (length pool).
Proof.
  induction pool as [|t pool IH]; simpl; [lia|]. destruct t; simpl; lia.
Qed.

Lemma waiting_count_done {X} (xs : list X) : waiting_count (Done <$> xs) = 0.
Proof.
  induction xs as [|x xs IH]; [reflexivity|].
  rewrite fmap_cons. simpl. lia.
Qed.

Lemma waiting_count_insert {X} (pool : list (task X)) i t t' :
  pool !! i = Some t ->
  waiting_count (<[i := t']> pool) = waiting_count pool - waiting t + waiting t'.
Proof.
  revert i; induction pool as [|u pool IH]; intros [|i]; simpl; try easy.
  - intros [= ->]. lia.
  - intros Hi. rewrite (IH _ Hi). lia.
Qed.

Lemma waiting_count_lookup {X} (pool : list (task X)) i t :
  pool !! i = Some t -> waiting t <= waiting_count pool.
Proof.
  revert i; induction pool as [|u pool IH]; intros [|i]; simpl; try easy.
  - intros [= ->]. pose proof (waiting_count_bounds pool). lia.
  - intros Hi. specialize (IH _ Hi). destruct u; simpl; lia.
Qed.

(** A segment without suspension sends at most one request, at its end. *)
Lemma sync_exec_balance {X} (p : prog X) seg t :
  sync_exec p seg t ->
  balance seg = waiting t /\
  forall pre suf, seg = pre ++ suf -> 0 <= balance pre <= 1.
Proof.
  revert seg; induction p as [a|rq k IH|k IH|k IH|m k IH|op k IH]; intros seg; simpl.
  - intros [-> ->]. split; [reflexivity|].
    intros pre suf Hp. symmetry in Hp. apply app_eq_nil in Hp as [-> _]. simpl. lia.
  - intros [-> ->]. split; [reflexivity|].
    intros [|e pre] suf Hp; simpl; [lia|].
    injection Hp as <- Hp. symmetry in Hp. apply app_eq_nil in Hp as [-> _].
    simpl. lia.
  - intros (z & tr' & -> & Hx). destruct (IH _ _ Hx) as [Hb Hp]. split; [exact Hb|].
    intros [|e pre] suf Hs; simpl; [lia|]. injection Hs as <- Hs. eauto.
  - intros (z & tr' & -> & Hx). destruct (IH _ _ Hx) as [Hb Hp]. split; [exact Hb|].
    intros [|e pre] suf Hs; simpl; [lia|]. injection Hs as <- Hs. eauto.
  - intros (z & tr' & -> & Hx). destruct (IH _ _ Hx) as [Hb Hp]. split; [exact Hb|].
    intros [|e pre] suf Hs; simpl; [lia|]. injection Hs as <- Hs. eauto.
  - intros (z & tr' & -> & Hx). destruct (IH _ _ Hx) as [Hb Hp]. split; [exact Hb|].
    intros [|e pre] suf Hs; simpl; [lia|]. injection Hs as <- Hs. eauto.
Qed.

(** While the pool runs, the requests in flight are those of its waiting
    tasks: never more than it has tasks, and none when it is done. *)
Lemma pool_run_balance {X} (pool : list (task X)) tr xs :
  pool_run pool tr xs ->
  length xs = length pool /\
  waiting_count pool + balance (untag tr) = 0 /\
  forall pre suf, untag tr = pre ++ suf ->
    0 <= waiting_count pool + balance pre <= Z.of_nat (length pool).
Proof.
  induction 1 as [xs|pool i rq k o seg t' tr xs Hi Hseg Hrun (Hlen & Hend & IH)].
  - rewrite length_fmap, waiting_count_done.
    split; [reflexivity|]. split; [reflexivity|].
    intros pre suf Hp. symmetry in Hp. apply app_eq_nil in Hp as [-> _]. simpl. lia.
  - rewrite length_insert in *.
    rewrite (waiting_count_insert _ _ _ _ Hi) in *. simpl waiting in *.
    destruct (sync_exec_balance _ _ _ Hseg) as [Hb Hpre].
    pose proof (waiting_count_bounds pool) as Hwc.
    pose proof (waiting_count_lookup _ _ _ Hi) as Hw1. simpl in Hw1.
    split; [exact Hlen|]. split.
    + simpl. rewrite untag_app, untag_tag, balance_app. lia.
    + intros [|e pre] suf Hp; simpl in *; [lia|].
      rewrite untag_app, untag_tag in Hp. injection Hp as <- Hp.
      apply app_eq_inv in Hp as [(c & Hc & _)|(c & -> & Hc)].
      * specialize (Hpre _ _ Hc). lia.
      * rewrite balance_app. specialize (IH _ _ Hc). lia.
Qed.

Lemma start_all_balance {X} i (ts : list (prog X)) tr pool :
  start_all i ts tr pool ->
  length pool = length ts /\
  balance (untag tr) = waiting_count pool /\
  forall pre suf, untag tr = pre ++ suf ->
    0 <= balance pre <= Z.of_nat (length ts).
Proof.
  revert i tr pool; induction ts as [|p ts IH]; intros i tr pool; simpl.
  - intros [-> ->]. split; [reflexivity|]. split; [reflexivity|].
    intros pre suf Hp. symmetry in Hp. apply app_eq_nil in Hp as [-> _]. simpl. lia.
  - intros (seg & t & tr' & pool' & Hseg & Hrest & -> & ->).
    destruct (IH _ _ _ Hrest) as (Hlen & Hb & Hpre).
    destruct (sync_exec_balance _ _ _ Hseg) as [Hsb Hspre].
    rewrite untag_app, untag_tag, balance_app. simpl.
    split; [lia|]. split; [lia|].
    intros pre suf Hp.
    apply app_eq_inv in Hp as [(c & Hc & _)|(c & -> & Hc)].
    + specialize (Hspre _ _ Hc). lia.
    + rewrite balance_app. specialize (Hpre _ _ Hc).
      assert (0 <= waiting t <= 1) by (destruct t; simpl; lia). lia.
Qed.

(** During [Promise.all] over [n] tasks at most [n] requests are in
    flight, and none when it returns. *)
Lemma all_exec_balance {X} (ts : list (prog X)) tr xs :
  all_exec ts tr xs ->
  length xs = length ts /\
  balance (untag tr) = 0 /\
  forall pre suf, untag tr = pre ++ suf ->
    0 <= balance pre <= Z.of_nat (length ts).
Proof.
  intros (tr0 & pool & tr1 & Hs & Hr & ->).
  destruct (start_all_balance _ _ _ _ Hs) as (Hl0 & Hb0 & Hp0).
  destruct (pool_run_balance _ _ _ Hr) as (Hl1 & Hb1 & Hp1).
  rewrite untag_app, balance_app.
  split; [lia|]. split; [lia|].
  intros pre suf Hp.
  apply app_eq_inv in Hp as [(c & Hc & _)|(c & -> & Hc)].
  - eauto.
  - rewrite balance_app. specialize (Hp1 _ _ Hc). lia.
Qed.

(** ** Promise.all: what each task does *)

(** What a task still does from the state [t]: its events and result. *)
Definition task_exec {X} (t : task X) (tr : trace) (x : X) : Prop :=
  match t with
  | Done x' => tr = [] /\ x = x'
  | Waiting rq k => exists o tr', tr = EvRecv rq o :: tr' /\ exec (k o) tr' x
  end.

Lemma sync_then {X} (p : prog X) seg t tr x :
  sync_exec p seg t -> task_exec t tr x -> exec p (seg ++ tr) x.
Proof.
  revert seg; induction p as [a|rq k IH|k IH|k IH|m k IH|op k IH]; intros seg; simpl.
  - intros [-> ->] [-> ->]. auto.
  - intros [-> ->] (o & tr' & -> & Hx). simpl. eauto.
  - intros (z & tr' & -> & Hs) Ht. simpl. eauto.
  - intros (z & tr' & -> & Hs) Ht. simpl. eauto.
  - intros (z & tr' & -> & Hs) Ht. simpl. eauto.
  - intros (z & tr' & -> & Hs) Ht. simpl. eauto.
Qed.

Lemma project_app i a b : project i (a ++ b) = project i a ++ project i b.
Proof. unfold project. now rewrite List.filter_app, untag_app. Qed.

Lemma project_tag_same i tr : project i (tag i tr) = tr.
Proof.
  unfold project, tag. induction tr as [|e tr IH]; simpl; [reflexivity|].
  rewrite Nat.eqb_refl. simpl. now f_equal.
Qed.

Lemma project_tag_other i j tr : i <> j -> project i (tag j tr) = [].
Proof.
  intros Hne. unfold project, tag. induction tr as [|e tr IH]; simpl; [reflexivity|].
  destruct (Nat.eqb_spec j i); [congruence|]. exact IH.
Qed.

Lemma pool_run_project {X} (pool : list (task X)) tr xs :
  pool_run pool tr xs ->
  forall i t, pool !! i = Some t ->
    exists x, xs !! i = Some x /\ task_exec t (project i tr) x.
Proof.
  induction 1 as [xs|pool j rq k o seg t' tr xs Hj Hseg Hrun IH]; intros i t Hi.
  - rewrite list_lookup_fmap in Hi.
    destruct (xs !! i) as [x|] eqn:E; simpl in Hi; [|discriminate].
    injection Hi as <-. exists x. simpl. auto.
  - change ((j, EvRecv rq o) :: tag j seg ++ tr)
      with (tag j [EvRecv rq o] ++ tag j seg ++ tr).
    rewrite !project_app.
    destruct (decide (i = j)) as [->|Hne].
    + rewrite Hj in Hi. injection Hi as <-.
      destruct (IH j t') as (x & Hx & Ht).
      { apply list_lookup_insert_eq. now apply lookup_lt_Some in Hj. }
      exists x. split; [exact Hx|].
      rewrite !project_tag_same. simpl.
      exists o, (seg ++ project j tr). split; [reflexivity|].
      now apply (sync_then _ _ t').
    + rewrite !project_tag_other by assumption. simpl.
      apply IH. rewrite list_lookup_insert_ne by congruence. exact Hi.
Qed.

Lemma start_all_project {X} i0 (ts : list (prog X)) tr pool :
  start_all i0 ts tr pool ->
  (forall j p, ts !! j = Some p ->
     exists t, pool !! j = Some t /\ sync_exec p (project (i0 + j) tr) t) /\
  (forall i, (i < i0)%nat -> project i tr = []).
Proof.
  revert i0 tr pool; induction ts as [|p ts IH]; intros i0 tr pool; simpl.
  - intros [-> ->]. split; [intros j p; now rewrite lookup_nil|reflexivity].
  - intros (seg & t & tr' & pool' & Hseg & Hrest & -> & ->).
    destruct (IH _ _ _ Hrest) as [Hin Hout]. split.
    + intros [|j] q Hq; simpl in Hq.
      * injection Hq as <-. exists t. split; [reflexivity|].
        rewrite Nat.add_0_r, project_app, project_tag_same, Hout by lia.
        now rewrite app_nil_r.
      * destruct (Hin j q Hq) as (u & Hu & Hs). exists u. split; [exact Hu|].
        rewrite project_app, project_tag_other by lia. simpl.
        now replace (i0 + S j)%nat with (S i0 + j)%nat by lia.
    + intros i Hlt. rewrite project_app, project_tag_other by lia.
      apply Hout. lia.
Qed.

(** Each result of [Promise.all] is the result of an execution of its
    task, whose events are the events of that task in the pool. *)
Lemma all_exec_project {X} (ts : list (prog X)) tr xs :
  all_exec ts tr xs ->
  forall i p, ts !! i = Some p ->
    exists x, xs !! i = Some x /\ exec p (project i tr) x.
Proof.
  intros (tr0 & pool & tr1 & Hs & Hr & ->) i p Hp.
  destruct (start_all_project _ _ _ _ Hs) as [Hin _].
  destruct (Hin i p Hp) as (t & Ht & Hseg). simpl in Hseg.
  destruct (pool_run_project _ _ _ Hr i t Ht) as (x & Hx & Hte).
  exists x. split; [exact Hx|]. rewrite project_app. now apply (sync_then _ _ t).
Qed.

(** ** Promise.all: an execution exists in every environment *)

Lemma sync_run_exec {X} (w : oracle) (p : prog X) h :
  sync_exec p (sync_run w h p).1 (sync_run w h p).2.
Proof.
  revert h; induction p as [a|rq k IH|k IH|k IH|m k IH|op k IH]; intros h; simpl; auto.
  - specialize (IH (on_now w h) (h ++ [EvNow (on_now w h)])).
    destruct (sync_run w _ (k _)) as [tr r]. simpl in *. eauto.
  - specialize (IH (on_random w h) (h ++ [EvRandom (on_random w h)])).
    destruct (sync_run w _ (k _)) as [tr r]. simpl in *. eauto.
  - specialize (IH (on_write w h m) (h ++ [EvWrite m (on_write w h m)])).
    destruct (sync_run w _ (k _)) as [tr r]. simpl in *. eauto.
  - specialize (IH (on_call w h op) (h ++ [EvCall op (on_call w h op)])).
    destruct (sync_run w _ (k _)) as [tr r]. simpl in *. eauto.
Qed.

Lemma start_run_all {X} (w : oracle) (ts : list (prog X)) h i :
  start_all i ts (start_run w h i ts).1 (start_run w h i ts).2.
Proof.
  revert h i; induction ts as [|p ts IH]; intros h i; simpl; [auto|].
  pose proof (sync_run_exec w p h) as Hs.
  destruct (sync_run w h p) as [seg t]. simpl in Hs.
  specialize (IH (h ++ seg) (S i)).
  destruct (start_run w (h ++ seg) (S i) ts) as [tr pool]. simpl in *.
  eauto 10.
Qed.

Lemma tag_app i a b : tag i (a ++ b) = tag i a ++ tag i b.
Proof. unfold tag. apply List.map_app. Qed.

(** A waiting task can be run to its end before the rest of the pool
    moves. *)
Lemma pool_finish {X} (p : prog X) :
  forall (pool : list (task X)) i rq k o pre tr x rest xs,
    pool !! i = Some (Waiting rq k) ->
    (forall seg t, sync_exec p seg t -> sync_exec (k o) (pre ++ seg) t) ->
    exec p tr x ->
    pool_run (<[i := Done x]> pool) rest xs ->
    pool_run pool ((i, EvRecv rq o) :: tag i (pre ++ tr) ++ rest) xs.
Proof.
  induction p as [a|rq' k' IH|k' IH|k' IH|m k' IH|op k' IH];
    intros pool i rq k o pre tr x rest xs Hi Hsync Hx Hrest; simpl in Hx.
  - destruct Hx as [-> ->].
    apply (pool_step pool i rq k o (pre ++ []) (Done a)); auto.
    apply Hsync. simpl. auto.
  - destruct Hx as (o' & tr' & -> & Hx).
    replace (tag i (pre ++ EvSend rq' :: EvRecv rq' o' :: tr') ++ rest)
      with (tag i (pre ++ [EvSend rq']) ++
            ((i, EvRecv rq' o') :: tag i ([] ++ tr') ++ rest)).
    2:{ rewrite !tag_app. simpl. rewrite <- !app_assoc. reflexivity. }
    apply (pool_step pool i rq k o (pre ++ [EvSend rq']) (Waiting rq' k')); auto.
    + apply Hsync. simpl. auto.
    + apply (IH o' _ i rq' k' o' [] tr' x rest xs); auto.
      * apply list_lookup_insert_eq. now apply lookup_lt_Some in Hi.
      * now rewrite list_insert_insert_eq.
  - destruct Hx as (z & tr' & -> & Hx).
    replace (pre ++ EvNow z :: tr') with ((pre ++ [EvNow z]) ++ tr')
      by now rewrite <- app_assoc.
    apply (IH z pool i rq k o (pre ++ [EvNow z]) tr' x rest xs); auto.
    intros seg t Hs. rewrite <- app_assoc. apply Hsync. simpl. eauto.
  - destruct Hx as (z & tr' & -> & Hx).
    replace (pre ++ EvRandom z :: tr') with ((pre ++ [EvRandom z]) ++ tr')
      by now rewrite <- app_assoc.
    apply (IH z pool i rq k o (pre ++ [EvRandom z]) tr' x rest xs); auto.
    intros seg t Hs. rewrite <- app_assoc. apply Hsync. simpl. eauto.
  - destruct Hx as (z & tr' & -> & Hx).
    replace (pre ++ EvWrite m z :: tr') with ((pre ++ [EvWrite m z]) ++ tr')
      by now rewrite <- app_assoc.
    apply (IH z pool i rq k o (pre ++ [EvWrite m z]) tr' x rest xs); auto.
    intros seg t Hs. rewrite <- app_assoc. apply Hsync. simpl. eauto.
  - destruct Hx as (z & tr' & -> & Hx).
    replace (pre ++ EvCall op z :: tr') with ((pre ++ [EvCall op z]) ++ tr')
      by now rewrite <- app_assoc.
    apply (IH z pool i rq k o (pre ++ [EvCall op z]) tr' x rest xs); auto.
    intros seg t Hs. rewrite <- app_assoc. apply Hsync. simpl. eauto.
Qed.

Lemma finish_run_pool {X} (w : oracle) (rest : list (task X)) :
  forall (done : list X) h,
    pool_run ((Done <$> done) ++ rest)
             (finish_run w h (length done) rest).1
             (done ++ (finish_run w h (length done) rest).2).
Proof.
  induction rest as [|t rest IH]; intros done h; simpl.
  - rewrite !app_nil_r. constructor.
  - destruct t as [rq k|x].
    + pose proof (run_exec w (k (on_fetch w h rq)) (h ++ [EvRecv rq (on_fetch w h rq)]))
        as Hx.
      destruct (run w _ (k _)) as [tr1 x]. simpl in Hx.
      specialize (IH (done ++ [x]) (h ++ EvRecv rq (on_fetch w h rq) :: tr1)).
      rewrite length_app, Nat.add_1_r in IH.
      destruct (finish_run w _ (S (length done)) rest) as [tr xs]. simpl in *.
      rewrite fmap_app, <- !app_assoc in IH. simpl in IH.
      apply (pool_finish (k (on_fetch w h rq)) _ _ rq k (on_fetch w h rq) [] tr1 x);
        auto.
      * rewrite lookup_app_r by now rewrite length_fmap.
        now rewrite length_fmap, Nat.sub_diag.
      * replace (length done) with (length (Done <$> done) + 0)%nat
          by (rewrite length_fmap; lia).
        rewrite insert_app_r. exact IH.
    + specialize (IH (done ++ [x]) h).
      rewrite length_app, Nat.add_1_r in IH.
      destruct (finish_run w h (S (length done)) rest) as [tr xs]. simpl in *.
      rewrite fmap_app, <- !app_assoc in IH. exact IH.
Qed.

Lemma all_run_exec {X} (w : oracle) (ts : list (prog X)) h :
  all_exec ts (all_run w h ts).1 (all_run w h ts).2.
Proof.
  unfold all_run.
  pose proof (start_run_all w ts h 0) as Hs.
  destruct (start_run w h 0 ts) as [tr0 pool]. simpl in Hs.
  pose proof (finish_run_pool w pool [] (h ++ untag tr0)) as Hr.
  destruct (finish_run w _ _ pool) as [tr1 xs]. simpl in *.
  exists tr0, pool, tr1. auto.
Qed.

(** Every asynchronous program runs to a result in every environment. *)
Lemma arun_exec {R} (w : oracle) (p : aprog R) h :
  aexec p (arun w h p).1 (arun w h p).2.
Proof.
  revert h; induction p as [r|X q k IH|X ts k IH]; intros h; simpl; [auto| |].
  - pose proof (run_exec w q h) as Hq.
    destruct (run w h q) as [tr1 x]. simpl in Hq.
    specialize (IH x (h ++ tr1)).
    destruct (arun w (h ++ tr1) (k x)) as [tr2 r]. simpl in *. eauto 10.
  - pose proof (all_run_exec w ts h) as Hq.
    destruct (all_run w h ts) as [tr1 xs]. simpl in Hq.
    specialize (IH xs (h ++ untag tr1)).
    destruct (arun w (h ++ untag tr1) (k xs)) as [tr2 r]. simpl in *. eauto 10.
Qed.

(** ** Bulk fetch of the circuits *)

Section Circuits.
Context `{Host}.

Lemma store_length i vs (results : list JsVal) :
  length (Aiseg2.store i vs results) = length results.
Proof.
  unfold Aiseg2.store. generalize (imap pair vs). intros l.
  revert results; induction l as [|jv l IH]; intros results; simpl; [reflexivity|].
  now rewrite IH, length_insert.
Qed.

Lemma store_fold_outside i (l : list (nat * JsVal)) (results : list JsVal) k :
  (forall jv, jv ∈ l -> (i + jv.1)%nat <> k) ->
  foldl (fun acc jv => <[(i + jv.1)%nat := jv.2]> acc) results l !! k = results !! k.
Proof.
  revert results; induction l as [|jv l IH]; intros results Hout; simpl; [reflexivity|].
  rewrite IH by (intros jv' Hin; apply Hout; now right).
  apply list_lookup_insert_ne. apply Hout. now left.
Qed.

(** After [forEach], [results[i + j]] is [batchResults[j]]. *)
Lemma store_lookup_inside i vs (results : list JsVal) j v :
  vs !! j = Some v -> (i + j < length results)%nat ->
  Aiseg2.store i vs results !! (i + j)%nat = Some v.
Proof.
  unfold Aiseg2.store. revert results j.
  induction vs as [|x vs IH] using rev_ind; intros results j Hj Hlt.
  - now rewrite lookup_nil in Hj.
  - rewrite imap_app, foldl_app. simpl. rewrite Nat.add_0_r.
    destruct (decide (j = length vs)) as [->|Hne].
    + rewrite lookup_app_r, Nat.sub_diag in Hj by lia. injection Hj as <-.
      apply list_lookup_insert_eq.
      fold (Aiseg2.store i vs results). now rewrite store_length.
    + assert (j < length vs)%nat as Hjl.
      { apply lookup_lt_Some in Hj. rewrite length_app in Hj. simpl in Hj. lia. }
      rewrite lookup_app_l in Hj by assumption.
      rewrite list_lookup_insert_ne by lia. now apply IH.
Qed.

Lemma store_lookup_outside i vs (results : list JsVal) k :
  (k < i \/ i + length vs <= k)%nat ->
  Aiseg2.store i vs results !! k = results !! k.
Proof.
  intros Hk. unfold Aiseg2.store. apply store_fold_outside.
  intros [j v] Hin. apply list_elem_of_lookup in Hin as [n Hn].
  rewrite list_lookup_imap in Hn.
  destruct (vs !! n) as [x|] eqn:E; simpl in Hn; [|discriminate].
  injection Hn as <- <-. apply lookup_lt_Some in E. simpl. lia.
Qed.

(** The starts of the batches: the multiples of 10 below [n], in
    increasing order. *)
Lemma batch_starts_spec n s :
  s ∈ Aiseg2.batch_starts n <-> (s < n)%nat /\ (s mod 10 = 0)%nat.
Proof.
  unfold Aiseg2.batch_starts, Aiseg2.CONCURRENCY.
  rewrite list_elem_of_In, List.filter_In, List.in_seq, Nat.eqb_eq. lia.
Qed.

Lemma batch_starts_NoDup n : NoDup (Aiseg2.batch_starts n).
Proof.
  unfold Aiseg2.batch_starts. apply NoDup_ListNoDup, List.NoDup_filter, List.seq_NoDup.
Qed.

(** The loop runs the batches one after the other and stores the results
    of each. *)
Lemma batches_exec circuits starts results tr rs :
  aexec (Aiseg2.batches starts circuits results) tr rs ->
  exists runs : list (trace * list JsVal),
    Forall2 (fun s run => batch_run circuits s run.1 run.2) starts runs /\
    tr = concat (runs.*1) /\
    rs = foldl (fun acc sr => Aiseg2.store sr.1 sr.2.2 acc) results (zip starts runs).
Proof.
  revert results tr; induction starts as [|s starts IH]; intros results tr; simpl.
  - intros [-> ->]. exists []. auto.
  - intros (xs & tr1 & tr2 & Hall & Hrest & ->).
    apply IH in Hrest as (runs & Hruns & -> & ->).
    exists ((untag tr1, xs) :: runs). split; [|split; reflexivity].
    constructor; [|exact Hruns]. exists tr1. auto.
Qed.

Lemma multiple_of_10 s : (s mod 10 = 0)%nat -> exists q, s = (10 * q)%nat.
Proof.
  intros Hs. exists (s / 10)%nat.
  pose proof (Nat.div_mod_eq s 10). lia.
Qed.

Lemma fold_stores_other starts (runs : list (trace * list JsVal)) results k :
  Forall2 (fun s run => (k < s \/ s + length run.2 <= k)%nat) starts runs ->
  foldl (fun acc sr => Aiseg2.store sr.1 sr.2.2 acc) results (zip starts runs) !! k =
  results !! k.
Proof.
  intros Hf; revert results; induction Hf as [|s run starts runs Hs Hf IH];
    intros results; simpl; [reflexivity|].
  rewrite IH. now apply store_lookup_outside.
Qed.

Lemma fold_stores_length starts (runs : list (trace * list JsVal)) results :
  length (foldl (fun acc sr => Aiseg2.store sr.1 sr.2.2 acc) results (zip starts runs)) =
  length results.
Proof.
  generalize (zip starts runs). intros l.
  revert results; induction l as [|sr l IH]; intros results; simpl; [reflexivity|].
  now rewrite IH, store_length.
Qed.

(** The result at an index is the one its batch stored. *)
Lemma fold_stores_lookup starts (runs : list (trace * list JsVal)) results b s run j v :
  NoDup starts ->
  (forall s, s ∈ starts -> (s mod 10 = 0)%nat) ->
  Forall2 (fun s run => (length run.2 <= 10)%nat) starts runs ->
  starts !! b = Some s -> runs !! b = Some run ->
  run.2 !! j = Some v -> (s + j < length results)%nat ->
  foldl (fun acc sr => Aiseg2.store sr.1 sr.2.2 acc) results (zip starts runs)
    !! (s + j)%nat = Some v.
Proof.
  intros Hnd Hmul Hf; revert results b.
  induction Hf as [|s0 run0 starts runs Hlen Hf IH]; intros results b Hs Hr Hj Hlt.
  - now rewrite lookup_nil in Hs.
  - apply NoDup_cons in Hnd as [Hnotin Hnd].
    destruct b as [|b]; simpl in Hs, Hr.
    + injection Hs as ->. injection Hr as ->. simpl.
      rewrite fold_stores_other; [now apply store_lookup_inside|].
      apply lookup_lt_Some in Hj.
      destruct (multiple_of_10 s) as [q ->]; [apply Hmul; now left|].
      clear IH. induction Hf as [|s' run' starts runs Hlen' Hf IH'];
        constructor.
      * destruct (multiple_of_10 s') as [q' ->]; [apply Hmul; right; now left|].
        assert (10 * q' <> 10 * q)%nat by (intros E; apply Hnotin; rewrite <- E; now left).
        lia.
      * apply IH'.
        -- intros Hin. apply Hnotin. now right.
        -- now apply NoDup_cons in Hnd as [_ ?].
        -- intros x [->|Hx]%elem_of_cons; apply Hmul; [now left|right; now right].
    + simpl. apply (IH Hnd) with (b := b); auto.
      * intros x Hx. apply Hmul. now right.
      * now rewrite store_length.
Qed.

Lemma project_sublist i tr : project i tr `sublist_of` untag tr.
Proof.
  unfold project, untag. induction tr as [|e tr IH]; simpl; [constructor|].
  destruct (Nat.eqb e.1 i); simpl; now constructor.
Qed.

Lemma sublist_concat_lookup {A} (l : list (list A)) b x :
  l !! b = Some x -> x `sublist_of` concat l.
Proof.
  revert b; induction l as [|y l IH]; intros [|b]; simpl; try easy.
  - intros [= ->]. now apply sublist_inserts_r.
  - intros Hb. apply sublist_inserts_l. eauto.
Qed.

Lemma in_flight_concat n (segs : list trace) :
  0 <= n ->
  Forall (fun seg => balance seg = 0 /\ in_flight_at_most n seg) segs ->
  in_flight_at_most n (concat segs).
Proof.
  intros Hn Hf. induction Hf as [|seg segs [Hb Hseg] Hf IH]; intros pre suf Hp; simpl in Hp.
  - symmetry in Hp. apply app_eq_nil in Hp as [-> _]. simpl. lia.
  - apply app_eq_inv in Hp as [(c & Hc & _)|(c & -> & Hc)].
    + eauto.
    + rewrite balance_app, Hb. apply (IH _ _ Hc).
Qed.

Lemma batch_run_facts circuits s seg xs :
  batch_run circuits s seg xs ->
  (length xs <= 10)%nat /\ balance seg = 0 /\ in_flight_at_most 10 seg.
Proof.
  intros (ttr & Hall & ->).
  destruct (all_exec_balance _ _ _ Hall) as (Hlen & Hb & Hpre).
  rewrite length_map, length_take in Hlen.
  split; [lia|]. split; [exact Hb|].
  intros pre suf Hp. specialize (Hpre _ _ Hp).
  rewrite length_map, length_take in Hpre. lia.
Qed.

(** The task of a circuit ends with the value of its fetch, or [null]. *)
Lemma kwh_task_exec c tr x :
  exec (Aiseg2.kwh_task c) tr x ->
  exists o, exec (Aiseg2.getCircuitKwh (Aiseg2.c_id c)) tr o /\ x = or_null o.
Proof.
  unfold Aiseg2.kwh_task, catch. intros Hx.
  apply exec_bind in Hx as (o & tr1 & tr2 & H1 & H2 & ->).
  exists o. destruct o as [v|e]; simpl in H2; destruct H2 as [-> ->];
    now rewrite app_nil_r.
Qed.

End Circuits.

(** C5. For every list of [N] circuits, every execution of
    [getAllCircuitKwh] returns [N] results in the order of the input, the
    result of a circuit being the value of its own fetch or [null] when
    that fetch fails; its events are those of successive batches of at
    most 10 tasks, each batch ending with no request in flight before the
    next one starts, so that at no instant more than 10 requests are in
    flight. *)
Theorem C5_bulk_fetch_batches `{Host} (circuits : list Aiseg2.Circuit) tr rs :
  aexec (Aiseg2.getAllCircuitKwh circuits) tr rs ->
  length rs = length circuits /\
  (forall i c, circuits !! i = Some c ->
     exists tri o,
       exec (Aiseg2.getCircuitKwh (Aiseg2.c_id c)) tri o /\
       tri `sublist_of` tr /\
       rs !! i = Some (or_null o)) /\
  (exists runs : list (trace * list JsVal),
     Forall2 (fun s run => batch_run circuits s run.1 run.2)
             (Aiseg2.batch_starts (length circuits)) runs /\
     tr = concat (runs.*1) /\
     Forall (fun run => balance run.1 = 0 /\ (length run.2 <= 10)%nat) runs) /\
  in_flight_at_most 10 tr.
Proof.
  intros Hx. unfold Aiseg2.getAllCircuitKwh in Hx.
  apply (batches_exec circuits (Aiseg2.batch_starts (length circuits))
           (replicate (length circuits) VNull)) in Hx as (runs & Hruns & -> & ->).
  assert (Forall (fun run => (length run.2 <= 10)%nat /\ balance run.1 = 0 /\
                             in_flight_at_most 10 run.1) runs) as Hfacts.
  { clear -Hruns. induction Hruns as [|s run starts runs Hr _ IH]; constructor; auto.
    now apply batch_run_facts in Hr. }
  split; [now rewrite fold_stores_length, length_replicate|].
  split; [|split].
  - intros i c Hc.
    pose proof (lookup_lt_Some _ _ _ Hc) as Hi.
    set (s := (10 * (i / 10))%nat). set (j := (i mod 10)%nat).
    assert (i = s + j)%nat as Hij by (unfold s, j; apply Nat.div_mod_eq).
    assert (j < 10)%nat as Hj by (unfold j; apply Nat.mod_upper_bound; lia).
    assert (s ∈ Aiseg2.batch_starts (length circuits)) as Hs.
    { apply batch_starts_spec. split; [lia|].
      unfold s. rewrite Nat.mul_comm. apply Nat.Div0.mod_mul. }
    apply list_elem_of_lookup in Hs as [b Hb].
    destruct (Forall2_lookup_l _ _ _ _ _ Hruns Hb) as (run & Hrun & ttr & Hall & Hseg).
    assert (List.map Aiseg2.kwh_task (take 10 (drop s circuits)) !! j =
            Some (Aiseg2.kwh_task c)) as Htask.
    { change (List.map Aiseg2.kwh_task) with (fmap (M := list) Aiseg2.kwh_task).
      rewrite list_lookup_fmap, lookup_take_lt, lookup_drop by lia.
      now rewrite <- Hij, Hc. }
    destruct (all_exec_project _ _ _ Hall j _ Htask) as (x & Hx & Hex).
    apply kwh_task_exec in Hex as (o & Ho & ->).
    exists (project j ttr), o. split; [exact Ho|]. split.
    + etrans; [apply project_sublist|]. rewrite <- Hseg.
      apply (sublist_concat_lookup _ b). now rewrite list_lookup_fmap, Hrun.
    + rewrite Hij. apply (fold_stores_lookup _ _ _ b s run); auto.
      * apply batch_starts_NoDup.
      * intros s' Hs'. now apply batch_starts_spec in Hs'.
      * clear -Hruns. induction Hruns as [|? ? ? ? Hr _ IH]; constructor; auto.
        now apply batch_run_facts in Hr.
      * rewrite length_replicate. lia.
  - exists runs. split; [exact Hruns|]. split; [reflexivity|].
    eapply Forall_impl; [exact Hfacts|]. simpl. tauto.
  - apply in_flight_concat; [lia|].
    apply Forall_fmap. eapply Forall_impl; [exact Hfacts|]. simpl. tauto.
Qed.

Lemma C5_bulk_fetch_batches_witness :
  let r := arun (demo_flaky (kwh_page "0.25")) []
             (@Aiseg2.getAllCircuitKwh demo_host demo_circuits) in
  length r.2 = 25%nat /\ in_flight_at_most 10 r.1.
Proof.
  intros r.
  destruct (@C5_bulk_fetch_batches demo_host demo_circuits r.1 r.2) as (Hl & _ & _ & Hb).
  - apply arun_exec.
  - split; [exact Hl | exact Hb].
Defined.

Lemma C1_digest_challenge_response_witness :
  let r := run (demo_appliance (kwh_page "0.25")) []
             (@Aiseg2.digestFetch demo_host (lit "/page/graph/584?data=eyJ9") (lit "GET") None) in
  let rq := digestFetch_request (lit "/page/graph/584?data=eyJ9") (lit "GET") None in
  plain_exchange rq r.1 r.2 \/
  @digest_exchange demo_host rq (lit "GET") (lit "/page/graph/584?data=eyJ9") r.1 r.2.
Proof.
  intros r rq.
  apply (proj1 (@C1_digest_challenge_response demo_host)). apply run_exec.
Defined.

(** ** Realtime snapshot *)

Lemma get_prop_field d k v : get_prop d (lit k) = Ok v -> v = field d k.
Proof. destruct d; simpl; try discriminate; intros [= <-]; reflexivity. Qed.

Lemma float_or_zero_number v r :
  Aiseg2.float_or_zero v = Ok r ->
  exists g, parseFloat v = Ok g /\ r = VNum (if num_truthy g then g else Dec 0 0).
Proof.
  unfold Aiseg2.float_or_zero, js_or, Aiseg2.zero.
  destruct (parseFloat v) as [g|e]; simpl; [|discriminate].
  intros [= <-]. exists g. split; [reflexivity|]. now destruct (num_truthy g).
Qed.

Lemma or_zero_kw g : kw_of g (if num_truthy g then g else Dec 0 0).
Proof.
  unfold kw_of. destruct g as [|neg|m e]; simpl.
  - split; [discriminate|]. split; [reflexivity|]. intros Hn. now destruct Hn.
  - split; [discriminate|]. split; [|reflexivity].
    intros [Hn|[e Hn]]; discriminate Hn.
  - destruct (m =? 0) eqn:E; simpl.
    + apply Z.eqb_eq in E as ->. split; [discriminate|]. split; [reflexivity|].
      intros _ Hz. now destruct (Hz e).
    + apply Z.eqb_neq in E. split; [discriminate|]. split; [|reflexivity].
      intros [Hn|[e' Hn]]; [discriminate Hn|]. injection Hn as -> _. contradiction.
Qed.

Lemma snapshot_fields a b c e f g h i j k :
  let snap := VObj [(lit "gen_kw", a); (lit "use_kw", b); (lit "solar_w", c);
                    (lit "enefarm_w", e); (lit "selling", f); (lit "top", g);
                    (lit "ev_connected", h); (lit "battery_pct", i);
                    (lit "fc_connected", j); (lit "raw", k)] in
  field snap "gen_kw" = a /\ field snap "use_kw" = b /\
  field snap "solar_w" = c /\ field snap "enefarm_w" = e /\
  field snap "top" = g.
Proof. repeat split; reflexivity. Qed.

Definition consumer (d : JsVal) (title capacity best : string) : JsVal :=
  VObj [(lit "name", field d title); (lit "watts", field d capacity);
        (lit "visible", VBool (is_num (field d best) (Dec 1 0)))].

Lemma realtime_snapshot_eq d snap :
  Aiseg2.realtime_snapshot d = Ok snap ->
  exists gen_kw use_kw fc,
    nullish d = false /\
    Aiseg2.float_or_zero (field d "g_capacity") = Ok gen_kw /\
    Aiseg2.float_or_zero (field d "u_capacity") = Ok use_kw /\
    gt_zero (field d "connFc") = Ok fc /\
    snap = VObj [
      (lit "gen_kw", gen_kw);
      (lit "use_kw", use_kw);
      (lit "solar_w", js_nullish (field d "g_d_1_capacity") Aiseg2.zero);
      (lit "enefarm_w", js_nullish (field d "g_d_2_capacity") Aiseg2.zero);
      (lit "selling", VBool (is_num (field d "lo_buy_sell") Aiseg2.one));
      (lit "top", VArr (List.filter Aiseg2.visible
         [consumer d "u_d_1_title" "u_d_1_capacity" "best1";
          consumer d "u_d_2_title" "u_d_2_capacity" "best2";
          consumer d "u_d_3_title" "u_d_3_capacity" "best3"]));
      (lit "ev_connected", VBool (is_num (field d "connEv") Aiseg2.one));
      (lit "battery_pct", if truthy (field d "connSb") then field d "percent" else VNull);
      (lit "fc_connected", VBool fc);
      (lit "raw", d)].
Proof.
  unfold Aiseg2.realtime_snapshot.
  destruct (get_prop d (lit "g_capacity")) as [g_capacity|] eqn:Eg; [|discriminate].
  assert (nullish d = false) as Hd by (destruct d; try reflexivity; discriminate).
  apply get_prop_field in Eg. subst g_capacity. cbn [obind].
  destruct (Aiseg2.float_or_zero (field d "g_capacity")) as [gen_kw|]; [|discriminate].
  cbn [obind]. fold (field d "u_capacity").
  destruct (Aiseg2.float_or_zero (field d "u_capacity")) as [use_kw|]; [|discriminate].
  cbn [obind]. fold (field d "connFc").
  destruct (gt_zero (field d "connFc")) as [fc|]; [|discriminate].
  cbn [obind]. intros [= <-]. exists gen_kw, use_kw, fc. repeat split; auto.
Qed.

(** The claim C9 as it is worded fails: on [odd_payload] the snapshot has
    the string of the payload as [solar_w], and a first consumer without
    [watts]. *)
Lemma C9_counterexample : ~ realtime_fields_numeric.
Proof.
  intros Hc.
  destruct (Hc odd_payload _ eq_refl) as (_ & _ & [[n Hn] _] & _).
  vm_compute in Hn. discriminate Hn.
Qed.

(** C9, amended. For every payload for which the mapper returns a
    snapshot (it throws for [null], and when a kW field or [connFc] is an
    object that cannot be converted): the payload is not [null];
    [parseFloat] of the two kW source fields returns, and [gen_kw] and
    [use_kw] are exactly the number it returns when that is neither NaN
    nor zero and the number 0 otherwise (field absent, unparseable or
    zero), never NaN; [solar_w] and [enefarm_w] are 0 when the source field is absent
    or [null], and the source value as it is otherwise, number or not; a
    consumer under [top] is one of the three of the payload whose [best]
    flag is 1, with the [watts] of the payload as it is, [undefined] when
    absent. *)
Theorem C9_realtime_defaults (d snap : JsVal) :
  Aiseg2.realtime_snapshot d = Ok snap ->
  nullish d = false /\
  (exists g n, parseFloat (field d "g_capacity") = Ok g /\
     field snap "gen_kw" = VNum n /\ kw_of g n) /\
  (exists u n, parseFloat (field d "u_capacity") = Ok u /\
     field snap "use_kw" = VNum n /\ kw_of u n) /\
  field snap "solar_w" =
    (if nullish (field d "g_d_1_capacity") then VNum (Dec 0 0)
     else field d "g_d_1_capacity") /\
  field snap "enefarm_w" =
    (if nullish (field d "g_d_2_capacity") then VNum (Dec 0 0)
     else field d "g_d_2_capacity") /\
  (forall c, c ∈ top_of snap ->
     exists title capacity best,
       (title, capacity, best) ∈
         [("u_d_1_title", "u_d_1_capacity", "best1");
          ("u_d_2_title", "u_d_2_capacity", "best2");
          ("u_d_3_title", "u_d_3_capacity", "best3")]%string /\
       is_num (field d best) (Dec 1 0) = true /\
       field c "watts" = field d capacity /\
       field c "name" = field d title).
Proof.
  intros Hs.
  apply realtime_snapshot_eq in Hs as (gen_kw & use_kw & fc & Hd & Hg & Hu & _ & ->).
  apply float_or_zero_number in Hg as (g & Hg & ->).
  apply float_or_zero_number in Hu as (u & Hu & ->).
  match goal with
  | |- context [VObj [(_, ?a); (_, ?b); (_, ?c); (_, ?e); (_, ?f); (_, ?g);
                      (_, ?h); (_, ?i); (_, ?j); (_, ?k)]] =>
      destruct (snapshot_fields a b c e f g h i j k) as (-> & -> & -> & -> & Htop)
  end.
  split; [exact Hd|].
  split; [exists g, (if num_truthy g then g else Dec 0 0);
          auto using or_zero_kw|].
  split; [exists u, (if num_truthy u then u else Dec 0 0);
          auto using or_zero_kw|].
  split; [now destruct (field d "g_d_1_capacity")|].
  split; [now destruct (field d "g_d_2_capacity")|].
  intros c Hc. unfold top_of in Hc. rewrite Htop in Hc.
  apply list_elem_of_In, List.filter_In in Hc as [Hin Hv].
  destruct Hin as [<-|[<-|[<-|[]]]].
  - exists "u_d_1_title"%string, "u_d_1_capacity"%string, "best1"%string.
    split; [set_solver|]. repeat split. exact Hv.
  - exists "u_d_2_title"%string, "u_d_2_capacity"%string, "best2"%string.
    split; [set_solver|]. repeat split. exact Hv.
  - exists "u_d_3_title"%string, "u_d_3_capacity"%string, "best3"%string.
    split; [set_solver|]. repeat split. exact Hv.
Qed.

Lemma C9_realtime_defaults_witness :
  exists snap, Aiseg2.realtime_snapshot odd_payload = Ok snap /\
    field snap "gen_kw" = VNum (Dec 0 0) /\
    field snap "solar_w" = VStr (lit "abc").
Proof.
  eexists. split; [reflexivity|].
  destruct (C9_realtime_defaults odd_payload _ eq_refl)
    as (_ & (g & n & Hg & Hn & _ & H0 & _) & _ & Hs & _).
  split.
  - rewrite Hn. f_equal. apply H0. left.
    vm_compute in Hg. now injection Hg as <-.
  - exact Hs.
Defined.

(** ** Daily totals *)

Section Totals.
Context `{Host}.

Lemma scrape_exec path tr v :
  exec (Aiseg2.scrape path) tr v ->
  exists o, exec (Aiseg2.digestFetch path Aiseg2.GET None) tr o /\ v = scraped o.
Proof.
  unfold Aiseg2.scrape, catch, bindo. intros Hx.
  apply exec_bind in Hx as (o1 & tr1 & tr2 & H1 & H2 & ->).
  apply exec_bind in H1 as (o & tr3 & tr4 & H3 & H4 & ->).
  exists o. destruct o as [r|e]; simpl in H4.
  - unfold scraped, text in *.
    destruct (body r) as [html|e]; simpl in H4; destruct H4 as [-> ->];
      simpl in H2; destruct H2 as [-> ->]; now rewrite !app_nil_r.
  - destruct H4 as [-> ->]. simpl in H2. destruct H2 as [-> ->].
    now rewrite !app_nil_r.
Qed.

(** The totals always have the four keys, and the value of a category is
    what its own scrape gives: [null] when the request or the reading of
    the body fails or the page has no kWh span, the parsed span
    otherwise. *)
Lemma getTotals_categories tr res :
  aexec Aiseg2.getTotals tr res ->
  exists o0 o1 o2 o3 t0 t1 t2 t3,
    res = Ok (VObj [(lit "solar", scraped o0); (lit "consumption", scraped o1);
                    (lit "purchase", scraped o2); (lit "sold", scraped o3)]) /\
    exec (Aiseg2.digestFetch (lit "/page/graph/51111") Aiseg2.GET None) t0 o0 /\
    exec (Aiseg2.digestFetch (lit "/page/graph/52111") Aiseg2.GET None) t1 o1 /\
    exec (Aiseg2.digestFetch (lit "/page/graph/53111") Aiseg2.GET None) t2 o2 /\
    exec (Aiseg2.digestFetch (lit "/page/graph/54111") Aiseg2.GET None) t3 o3 /\
    Forall (fun t => t `sublist_of` tr) [t0; t1; t2; t3].
Proof.
  intros (xs & ttr & tr2 & Hall & [-> ->] & ->). rewrite app_nil_r.
  destruct (all_exec_balance _ _ _ Hall) as (Hlen & _).
  destruct (all_exec_project _ _ _ Hall 0 _ eq_refl) as (x0 & Hx0 & He0).
  destruct (all_exec_project _ _ _ Hall 1 _ eq_refl) as (x1 & Hx1 & He1).
  destruct (all_exec_project _ _ _ Hall 2 _ eq_refl) as (x2 & Hx2 & He2).
  destruct (all_exec_project _ _ _ Hall 3 _ eq_refl) as (x3 & Hx3 & He3).
  apply scrape_exec in He0 as (o0 & He0 & ->).
  apply scrape_exec in He1 as (o1 & He1 & ->).
  apply scrape_exec in He2 as (o2 & He2 & ->).
  apply scrape_exec in He3 as (o3 & He3 & ->).
  exists o0, o1, o2, o3, (project 0 ttr), (project 1 ttr), (project 2 ttr), (project 3 ttr).
  split.
  - unfold Aiseg2.totals_of. simpl. now rewrite Hx0, Hx1, Hx2, Hx3.
  - repeat split; auto. repeat constructor; apply project_sublist.
Qed.

End Totals.

(** With at most one comma, the span is read with its commas stripped. *)
Lemma remove_first_strips v :
  (length (List.filter (fun c => N.eqb c 44) v) <= 1)%nat ->
  remove_first 44 v = strip_commas v.
Proof.
  unfold strip_commas. induction v as [|c v IH]; simpl; [reflexivity|].
  destruct (N.eqb c 44) eqn:E; simpl.
  - intros Hle. clear IH. induction v as [|c' v IH]; simpl in *; [reflexivity|].
    destruct (N.eqb c' 44); simpl in *; [lia|].
    f_equal. apply IH. lia.
  - intros Hle. f_equal. now apply IH.
Qed.

(** C3, at the failing input. The span 1,234.56 is read as 1234.56; the
    span 1,234,567.5 is read as 1234: only its first comma is removed
    and [parseFloat] stops at the second, where the description has
    1234567.5.  The totals of an appliance showing that span in its four
    pages are 1234 four times. *)
Theorem C3_second_comma_ends_number :
  Aiseg2.parseKwh (kwh_page "1,234.56") = VNum (Dec 123456 (-2)) /\
  Aiseg2.parseKwh (kwh_page "1,234,567.5") = VNum (Dec 1234 0) /\
  parseFloat_str (strip_commas (lit "1,234,567.5")) = Dec 12345675 (-1) /\
  (arun (demo_appliance (kwh_page "1,234,567.5")) [] (@Aiseg2.getTotals demo_host)).2 =
    Ok (VObj [(lit "solar", VNum (Dec 1234 0)); (lit "consumption", VNum (Dec 1234 0));
              (lit "purchase", VNum (Dec 1234 0)); (lit "sold", VNum (Dec 1234 0))]).
Proof. repeat split; vm_compute; reflexivity. Qed.

(** ** Circuit list *)

Lemma first_circuits_split ss :
  (exists pre s post cs,
     ss = pre ++ s :: post /\
     Forall (fun s' => Aiseg2.circuits_of_script s' = None) pre /\
     Aiseg2.circuits_of_script s = Some cs /\
     Aiseg2.first_circuits ss = cs) \/
  (Forall (fun s' => Aiseg2.circuits_of_script s' = None) ss /\
   Aiseg2.first_circuits ss = []).
Proof.
  induction ss as [|s ss IH]; simpl.
  - right. auto.
  - destruct (Aiseg2.circuits_of_script s) as [cs|] eqn:E.
    + left. exists [], s, ss, cs. auto.
    + destruct IH as [(pre & s' & post & cs & -> & Hpre & Hs & Hcs)|[Hall Hcs]].
      * left. exists (s :: pre), s', post, cs. auto.
      * right. auto.
Qed.

(** A script is used when it holds the marker, has an argument between
    its first opening and its last closing parenthesis, the argument
    parses and the circuits can be read from the value. *)
Lemma circuits_of_script_Some s cs :
  Aiseg2.circuits_of_script s = Some cs <->
  includes Aiseg2.marker s = true /\
  exists arg data,
    Aiseg2.call_argument s = Some arg /\ JSON_parse arg = Some data /\
    Aiseg2.circuits_of_data data = Ok cs.
Proof.
  unfold Aiseg2.circuits_of_script.
  destruct (includes Aiseg2.marker s); simpl.
  - destruct (Aiseg2.call_argument s) as [arg|].
    + destruct (JSON_parse arg) as [data|] eqn:Ep.
      * destruct (Aiseg2.circuits_of_data data) as [cs'|e] eqn:Ed.
        -- split.
           ++ intros [= ->]. split; [reflexivity|]. exists arg, data. auto.
           ++ intros (_ & arg' & data' & [= <-] & Hp & Hd).
              rewrite Ep in Hp. injection Hp as <-. rewrite Ed in Hd. now injection Hd as ->.
        -- split; [discriminate|].
           intros (_ & arg' & data' & [= <-] & Hp & Hd).
           rewrite Ep in Hp. injection Hp as <-. rewrite Ed in Hd. discriminate.
      * split; [discriminate|].
        intros (_ & arg' & data' & [= <-] & Hp & _). rewrite Ep in Hp. discriminate.
    + split; [discriminate|]. intros (_ & arg' & data' & Ha & _). discriminate.
  - split; [discriminate|]. intros [Hf _]. discriminate.
Qed.

(** On a script whose cut is its balanced argument, the loop passes over
    the script exactly when the description does. *)
Lemma circuits_of_script_None s :
  balanced_cut s -> Aiseg2.circuits_of_script s = None <-> passed_over s.
Proof.
  intros Hb. unfold Aiseg2.circuits_of_script, passed_over.
  destruct (includes Aiseg2.marker s) eqn:Em; simpl; [|tauto].
  rewrite (Hb Em).
  destruct (balanced_argument s) as [arg|]; simpl; [|tauto].
  destruct (JSON_parse (trim arg)) as [data|] eqn:Ep.
  - destruct (Aiseg2.circuits_of_data data) as [cs|e] eqn:Ed.
    + split; [discriminate|].
      intros [?|[?|(arg' & [= <-] & [Hp|(data' & e & Hp & Hd)])]];
        try discriminate; rewrite Ep in Hp; try discriminate.
      injection Hp as <-. rewrite Ed in Hd. discriminate.
    + split; [|reflexivity]. intros _. right. right.
      exists arg. split; [reflexivity|]. right. eauto.
  - split; [|reflexivity]. intros _. right. right. exists arg. auto.
Qed.

Lemma get_prop_not_null d k :
  nullish d = false -> get_prop d k = Ok (get_prop_opt d k).
Proof. destruct d; try discriminate; reflexivity. Qed.

Lemma get_prop_null d k : nullish d = true -> get_prop d k = Err TypeError.
Proof. destruct d; try discriminate; reflexivity. Qed.

Lemma ofilter_enabled_Ok cs r :
  ofilter Aiseg2.enabled cs = Ok r <->
  Forall (fun c => nullish c = false) cs /\ r = List.filter button_is_1 cs.
Proof.
  revert r; induction cs as [|c cs IH]; intros r; cbn [ofilter List.filter].
  - split; [intros [= <-]; auto | intros [_ ->]; reflexivity].
  - unfold Aiseg2.enabled at 1. destruct (nullish c) eqn:En.
    + rewrite get_prop_null by exact En. cbn [obind].
      split; [discriminate|]. intros [Hall _]. inversion Hall; congruence.
    + rewrite get_prop_not_null by exact En. cbn [obind].
      fold (button_is_1 c).
      destruct (ofilter Aiseg2.enabled cs) as [r'|e]; cbn [obind].
      * destruct (IH r') as [IH1 _]. destruct (IH1 eq_refl) as [Hall ->].
        split.
        -- intros [= <-]. auto.
        -- intros [_ ->]. reflexivity.
      * split; [discriminate|]. intros [Hall _]. inversion Hall; subst.
        destruct (IH (List.filter button_is_1 cs)) as [_ IH2].
        now specialize (IH2 (conj H2 eq_refl)).
Qed.

Lemma omap_Ok {A B} (f : A -> outcome B) l r :
  omap f l = Ok r <-> Forall2 (fun a b => f a = Ok b) l r.
Proof.
  revert r; induction l as [|a l IH]; intros r; cbn [omap].
  - split; [intros [= <-]; constructor | intros Hr; inversion Hr; reflexivity].
  - destruct (f a) as [b|e] eqn:Ea; cbn [obind].
    + destruct (omap f l) as [bs|e] eqn:El; cbn [obind].
      * split.
        -- intros [= <-]. constructor; [exact Ea | now apply IH].
        -- intros Hr. inversion Hr; subst.
           assert (Ok b = Ok y) as [= <-] by congruence.
           match goal with
           | Hl : Forall2 _ l _ |- _ => apply IH in Hl; injection Hl as <-
           end.
           reflexivity.
      * split; [discriminate|]. intros Hr. inversion Hr; subst.
        match goal with
        | Hl : Forall2 _ l _ |- _ => apply IH in Hl; discriminate Hl
        end.
    + split; [discriminate|]. intros Hr. inversion Hr; subst. congruence.
Qed.

Lemma circuit_entry_Ok c e : Aiseg2.circuit_entry c = Ok e <-> entry_of c e.
Proof.
  unfold Aiseg2.circuit_entry, entry_of, field.
  destruct (ToString (get_prop_opt c (lit "strId"))) as [id|err]; cbn [obind].
  - split.
    + intros [= <-]. exists id. auto.
    + intros (id' & [= <-] & ->). reflexivity.
  - split; [discriminate|]. intros (id' & Hid & _). discriminate.
Qed.

Lemma circuits_of_data_Ok data r :
  Aiseg2.circuits_of_data data = Ok r <->
  nullish data = false /\
  exists cs,
    js_or (get_prop_opt data Aiseg2.marker) (VArr []) = VArr cs /\
    Forall (fun c => nullish c = false) cs /\
    Forall2 entry_of (List.filter button_is_1 cs) r.
Proof.
  unfold Aiseg2.circuits_of_data.
  destruct (nullish data) eqn:En.
  - rewrite get_prop_null by exact En. cbn [obind].
    split; [discriminate|]. intros [? _]. discriminate.
  - rewrite get_prop_not_null by exact En. cbn [obind].
    assert (forall cs,
      obind (ofilter Aiseg2.enabled cs) (fun cs' => omap Aiseg2.circuit_entry cs') = Ok r <->
      Forall (fun c => nullish c = false) cs /\
      Forall2 entry_of (List.filter button_is_1 cs) r) as Hcs.
    { intros cs. destruct (ofilter Aiseg2.enabled cs) as [cs'|e] eqn:Ef; cbn [obind].
      - apply ofilter_enabled_Ok in Ef as [Hall ->].
        rewrite omap_Ok. split.
        + intros Hr. split; [exact Hall|].
          eapply Forall2_impl; [exact Hr|]. intros c e. apply circuit_entry_Ok.
        + intros [_ Hr].
          eapply Forall2_impl; [exact Hr|]. intros c e. apply circuit_entry_Ok.
      - split; [discriminate|]. intros [Hall _].
        assert (ofilter Aiseg2.enabled cs = Ok (List.filter button_is_1 cs)) as Hf
          by (apply ofilter_enabled_Ok; auto).
        congruence. }
    destruct (js_or (get_prop_opt data Aiseg2.marker) (VArr [])) as [| |b|n|s|l|o|nv] eqn:Ej;
      try (split; [discriminate | intros (_ & cs & Hc & _); discriminate]).
    rewrite Hcs. split.
    + intros [Hall Hr]. split; [reflexivity|]. exists l. auto.
    + intros (_ & cs & [= <-] & Hall & Hr). auto.
Qed.

(** The claim C6 as it is worded fails: the two pages have the same first
    script whose balanced argument parses, to the value [null], and
    differ in their circuits. *)
Lemma C6_counterexample : ~ circuits_from_first_parsed.
Proof.
  intros (F & _ & HF).
  pose proof (HF null_script) as Ha.
  pose proof (HF (null_script ++ kitchen_script)) as Hb.
  vm_compute in Ha. vm_compute in Hb. rewrite <- Ha in Hb. discriminate Hb.
Qed.

(** The text cut from a script ends at its last closing parenthesis,
    which need not be the one that balances the first: of a script with
    a second call after the list the balanced argument parses, the text
    cut does not, and the script is passed over. *)
Lemma call_argument_to_last_close :
  parsed_argument two_calls_script = Some (VObj [(Aiseg2.marker, VArr [])]) /\
  Aiseg2.call_argument two_calls_script ≫= JSON_parse = None /\
  Aiseg2.circuits_of_script two_calls_script = None.
Proof. repeat split; vm_compute; reflexivity. Qed.

(** C6, amended. On a page where the text cut out of each script that
    holds the marker is its balanced-parenthesis argument: the scripts
    are tried in document order; a script is passed over when it does not
    hold the marker, when it has no balanced argument, when the argument
    (trimmed) does not parse as JSON, or when reading the circuits from
    the parsed value throws; the result comes from the first script not
    passed over, and is the empty list when every script is passed over.
    Reading the circuits from a parsed value returns exactly when the
    value is not [null], its list is an array or falsy (then taken as
    empty), no entry of the list is [null], and the identifier of every
    entry whose button type is the string 1 converts to a string; the
    result is the entries made of those circuits, in their order. *)
Theorem C6_first_usable_script :
  (forall html,
     let ss := Aiseg2.scripts 0 html in
     Forall balanced_cut ss ->
     (exists pre s post arg data cs,
        ss = pre ++ s :: post /\
        Forall passed_over pre /\
        includes Aiseg2.marker s = true /\
        balanced_argument s = Some arg /\
        JSON_parse (trim arg) = Some data /\
        Aiseg2.circuits_of_data data = Ok cs /\
        Aiseg2.circuits_of_html html = cs) \/
     (Forall passed_over ss /\
      Aiseg2.circuits_of_html html = [])) /\
  (forall data r,
     Aiseg2.circuits_of_data data = Ok r <->
     nullish data = false /\
     exists cs,
       js_or (field data "arrayCircuitNameList") (VArr []) = VArr cs /\
       Forall (fun c => nullish c = false) cs /\
       Forall2 entry_of (List.filter button_is_1 cs) r).
Proof.
  split.
  - intros html ss Hbal. unfold Aiseg2.circuits_of_html. fold ss.
    assert (forall l, Forall balanced_cut l ->
                      Forall (fun s' => Aiseg2.circuits_of_script s' = None) l ->
                      Forall passed_over l) as Hover.
    { intros l Hl Hn. induction Hl as [|s l Hs Hl IH]; [constructor|].
      inversion Hn; subst. constructor; [now apply circuits_of_script_None|auto]. }
    destruct (first_circuits_split ss)
      as [(pre & s & post & cs & E & Hpre & Hs & Hcs)|[Hall Hcs]].
    + left. rewrite E in Hbal.
      apply Forall_app in Hbal as [Hbpre Hbs].
      apply Forall_cons in Hbs as [Hbs _].
      apply circuits_of_script_Some in Hs as (Hm & arg & data & Ha & Hp & Hd).
      rewrite (Hbs Hm) in Ha.
      destruct (balanced_argument s) as [b|] eqn:Eb; [|discriminate].
      injection Ha as <-.
      exists pre, s, post, b, data, cs. auto 10.
    + right. auto.
  - intros data r. apply circuits_of_data_Ok.
Qed.

Lemma C6_first_usable_script_witness :
  Aiseg2.scripts 0 (null_script ++ kitchen_script) =
    [lit "arrayCircuitNameList(null);"; kitchen_call] /\
  Forall balanced_cut (Aiseg2.scripts 0 (null_script ++ kitchen_script)) /\
  passed_over (lit "arrayCircuitNameList(null);") /\
  Aiseg2.circuits_of_html (null_script ++ kitchen_script) = [kitchen].
Proof.
  assert (Aiseg2.scripts 0 (null_script ++ kitchen_script) =
            [lit "arrayCircuitNameList(null);"; kitchen_call]) as Hss
    by (vm_compute; reflexivity).
  assert (Forall balanced_cut (Aiseg2.scripts 0 (null_script ++ kitchen_script))) as Hb.
  { rewrite Hss. repeat constructor; intros _; vm_compute; reflexivity. }
  split; [exact Hss|]. split; [exact Hb|].
  destruct (proj1 C6_first_usable_script (null_script ++ kitchen_script) Hb)
    as [(pre & s & post & arg & data & cs & E & Hpre & Hm & Ha & Hp & Hd & Hcs)|[_ Hcs]].
  - rewrite Hss in E.
    destruct pre as [|s0 [|s1 pre]].
    + exfalso. injection E as <- _.
      vm_compute in Ha. injection Ha as <-.
      vm_compute in Hp. injection Hp as <-. discriminate Hd.
    + injection E as <- <- <-. apply Forall_cons in Hpre as [Hpre _].
      split; [exact Hpre|]. vm_compute. reflexivity.
    + exfalso. injection E as _ _ E. destruct pre; discriminate E.
  - vm_compute in Hcs. discriminate Hcs.
Defined.

(** ** Cached reads *)

Lemma categories_cases c :
  c ∈ categories -> c = cat_realtime \/ c = cat_totals \/ c = cat_devices.
Proof.
  unfold categories. rewrite !elem_of_cons, elem_of_nil. tauto.
Qed.

Lemma read_exec (c : Category) st tr reply st' :
  c ∈ categories ->
  exec (cat_read c st) tr (reply, st') ->
  exists now, read_result c st now tr reply st'.
Proof.
  intros Hc.
  destruct (categories_cases c Hc) as [-> | [-> | ->]].
  - simpl. unfold Server.get_api_realtime, Server.cachedRead. simpl.
    intros (now & tr1 & -> & Hx). exists now.
    destruct (Server.TTL_realtime <? now - Server.realtimeAt (Server.cache st)) eqn:E.
    + apply Z.ltb_lt in E. simpl in Hx. destruct Hx as ([data|e] & tr2 & -> & Hx).
      * simpl in Hx. destruct Hx as (t & tr3 & -> & -> & [= -> ->]).
        now apply (read_refreshed cat_realtime st now (Ok data) data t).
      * simpl in Hx. destruct Hx as (-> & [= -> ->]).
        now apply (read_failed cat_realtime st now (Err e) e).
    + apply Z.ltb_ge in E. simpl in Hx. destruct Hx as (-> & [= -> ->]).
      now apply (read_cached cat_realtime).
  - simpl. unfold Server.get_api_totals, Server.cachedRead. simpl.
    intros (now & tr1 & -> & Hx). exists now.
    destruct (Server.TTL_totals <? now - Server.totalsAt (Server.cache st)) eqn:E.
    + apply Z.ltb_lt in E. simpl in Hx. destruct Hx as ([data|e] & tr2 & -> & Hx).
      * simpl in Hx. destruct Hx as (t & tr3 & -> & -> & [= -> ->]).
        now apply (read_refreshed cat_totals st now (Ok data) data t).
      * simpl in Hx. destruct Hx as (-> & [= -> ->]).
        now apply (read_failed cat_totals st now (Err e) e).
    + apply Z.ltb_ge in E. simpl in Hx. destruct Hx as (-> & [= -> ->]).
      now apply (read_cached cat_totals).
  - simpl. unfold Server.get_api_devices, Server.cachedRead, Server.fetchDevices. simpl.
    intros (now & tr1 & -> & Hx). exists now.
    destruct (Server.TTL_devices <? now - Server.devicesAt (Server.cache st)) eqn:E.
    + apply Z.ltb_lt in E. simpl in Hx. destruct Hx as (o & tr2 & -> & Hx).
      destruct (obind o (Server.applyNicknames (Server.nicknames st))) as [data|e] eqn:Eo.
      * simpl in Hx. destruct Hx as (t & tr3 & -> & -> & [= -> ->]).
        now apply (read_refreshed cat_devices st now o data t).
      * simpl in Hx. destruct Hx as (-> & [= -> ->]).
        now apply (read_failed cat_devices st now o e).
    + apply Z.ltb_ge in E. simpl in Hx. destruct Hx as (-> & [= -> ->]).
      now apply (read_cached cat_devices).
Qed.

(** The new payload and timestamp are those of the refresh. *)
Lemma cat_update_reads (c : Category) data t cache :
  c ∈ categories ->
  cat_payload c (cat_update c data t cache) = data /\
  cat_at c (cat_update c data t cache) = t.
Proof.
  intros Hc.
  destruct (categories_cases c Hc) as [-> | [-> | ->]]; auto.
Qed.

Lemma read_result_calls c st now tr reply st' :
  read_result c st now tr reply st' ->
  hd_error tr = Some (EvNow now) /\
  (now - cat_at c (Server.cache st) <= cat_ttl c -> client_calls tr = []) /\
  (cat_ttl c < now - cat_at c (Server.cache st) -> client_calls tr = [cat_op c]).
Proof.
  destruct 1; simpl; repeat split; auto; lia.
Qed.

(** C4. A REST read of a cached category (realtime, totals, devices)
    reads the clock first.  Within the TTL of the category it answers
    with the cached payload, leaves the cache as it is and calls nothing.
    Past the TTL it calls the operation of the client exactly once, and
    when that refresh succeeds the payload is the fetched one (annotated,
    for the devices), the timestamp is the clock read when the fetch
    resolved, and the answer is the new payload. *)
Theorem C4_cached_read_ttl (c : Category) st tr reply st' :
  c ∈ categories ->
  exec (cat_read c st) tr (reply, st') ->
  exists now,
    hd_error tr = Some (EvNow now) /\
    (now - cat_at c (Server.cache st) <= cat_ttl c ->
       reply = Server.mkReply 200 (Server.Json (cat_payload c (Server.cache st))) /\
       st' = st /\ client_calls tr = []) /\
    (cat_ttl c < now - cat_at c (Server.cache st) ->
       client_calls tr = [cat_op c] /\
       forall o data,
         EvCall (cat_op c) o ∈ tr -> refreshed c st o = Ok data ->
         exists t,
           tr = [EvNow now; EvCall (cat_op c) o; EvNow t] /\
           cat_payload c (Server.cache st') = data /\
           cat_at c (Server.cache st') = t /\
           reply = Server.mkReply 200 (Server.Json data) /\
           st' = Server.set_cache (cat_update c data t (Server.cache st)) st).
Proof.
  intros Hc Hx. destruct (read_exec c st tr reply st' Hc Hx) as [now Hr].
  exists now. destruct (read_result_calls _ _ _ _ _ _ Hr) as (Hhd & Hin & Hout).
  split; [exact Hhd|]. split.
  - intros Hle. destruct Hr; try lia. auto.
  - intros Hlt. split; [auto|]. intros o' data' Hin' Ho'.
    destruct Hr as [Hle|o data t _ Ho|o e _ Ho]; [lia| |].
    + assert (o' = o) as ->.
      { rewrite !elem_of_cons, elem_of_nil in Hin'.
        destruct Hin' as [?|[[= ->]|[?|[]]]]; try discriminate. reflexivity. }
      rewrite Ho in Ho'. injection Ho' as <-.
      exists t. destruct (cat_update_reads c data t (Server.cache st) Hc) as [Hp Ht].
      simpl. auto.
    + assert (o' = o) as ->.
      { rewrite !elem_of_cons, elem_of_nil in Hin'.
        destruct Hin' as [?|[[= ->]|[]]]; try discriminate. reflexivity. }
      rewrite Ho in Ho'. discriminate.
Qed.

(** C8. When the refresh of a read past the TTL fails (the client
    throws, or the annotation of the device status does), that read is
    answered with 502 and the error, and the cache, payload and
    timestamp, is left exactly as it was; a later read past the TTL calls
    the client again. *)
Theorem C8_failed_refresh_keeps_cache (c : Category) st tr reply st' :
  c ∈ categories ->
  exec (cat_read c st) tr (reply, st') ->
  forall o e,
    EvCall (cat_op c) o ∈ tr -> refreshed c st o = Err e ->
    reply = Server.mkReply 502 (Server.ErrorOf e) /\
    st' = st /\
    forall tr2 reply2 st2 now2,
      exec (cat_read c st') tr2 (reply2, st2) ->
      hd_error tr2 = Some (EvNow now2) ->
      cat_ttl c < now2 - cat_at c (Server.cache st) ->
      client_calls tr2 = [cat_op c].
Proof.
  intros Hc Hx o' e' Hin' Ho'.
  destruct (read_exec c st tr reply st' Hc Hx) as [now Hr].
  assert (reply = Server.mkReply 502 (Server.ErrorOf e') /\ st' = st) as [-> ->].
  { destruct Hr as [Hle|o data t _ Ho|o e _ Ho].
    - rewrite !elem_of_cons, elem_of_nil in Hin'.
      destruct Hin' as [?|[]]; discriminate.
    - assert (o' = o) as ->.
      { rewrite !elem_of_cons, elem_of_nil in Hin'.
        destruct Hin' as [?|[[= ->]|[?|[]]]]; try discriminate. reflexivity. }
      rewrite Ho in Ho'. discriminate.
    - assert (o' = o) as ->.
      { rewrite !elem_of_cons, elem_of_nil in Hin'.
        destruct Hin' as [?|[[= ->]|[]]]; try discriminate. reflexivity. }
      rewrite Ho in Ho'. injection Ho' as <-. auto. }
  split; [reflexivity|]. split; [reflexivity|].
  intros tr2 reply2 st2 now2 Hx2 Hhd Hlt.
  destruct (read_exec c st tr2 reply2 st2 Hc Hx2) as [now' Hr2].
  destruct (read_result_calls _ _ _ _ _ _ Hr2) as (Hhd' & _ & Hout).
  rewrite Hhd' in Hhd. injection Hhd as ->. auto.
Qed.

Lemma C4_cached_read_ttl_witness :
  let r := run (demo_client (Ok (VObj [(lit "gen_kw", VNum (Dec 3 0))]))) []
               (cat_read cat_realtime demo_state) in
  Server.realtime (Server.cache r.2.2) = VObj [(lit "gen_kw", VNum (Dec 3 0))] /\
  Server.realtimeAt (Server.cache r.2.2) = 1000002 /\
  client_calls r.1 = [GetRealtime].
Proof.
  intros r.
  destruct (C4_cached_read_ttl cat_realtime demo_state r.1 r.2.1 r.2.2)
    as (now & Hhd & _ & Hpast).
  - unfold categories. rewrite elem_of_cons. now left.
  - rewrite <- surjective_pairing. apply run_exec.
  - injection Hhd as <-.
    destruct Hpast as [Hcalls Hok]; [vm_compute; reflexivity|].
    destruct (Hok (Ok (VObj [(lit "gen_kw", VNum (Dec 3 0))]))
                  (VObj [(lit "gen_kw", VNum (Dec 3 0))]))
      as (t & Htr & Hp & Ht & _).
    + assert (r.1 = [EvNow 1000000;
                     EvCall GetRealtime (Ok (VObj [(lit "gen_kw", VNum (Dec 3 0))]));
                     EvNow 1000002]) as -> by (vm_compute; reflexivity).
      simpl. rewrite !elem_of_cons. right. now left.
    + reflexivity.
    + injection Htr as <-. auto.
Defined.

Lemma C8_failed_refresh_keeps_cache_witness :
  let r := run (demo_client (Err (HttpError 500))) []
               (cat_read cat_realtime demo_state) in
  r.2.1 = Server.mkReply 502 (Server.ErrorOf (HttpError 500)) /\ r.2.2 = demo_state.
Proof.
  intros r.
  destruct (C8_failed_refresh_keeps_cache cat_realtime demo_state r.1 r.2.1 r.2.2)
    with (o := @Err JsVal (HttpError 500)) (e := HttpError 500) as (Hr & Hs & _).
  - unfold categories. rewrite elem_of_cons. now left.
  - rewrite <- surjective_pairing. apply run_exec.
  - assert (r.1 = [EvNow 1000000; EvCall GetRealtime (Err (HttpError 500))]) as ->
      by (vm_compute; reflexivity).
    simpl. rewrite !elem_of_cons. right. now left.
  - reflexivity.
  - auto.
Defined.

(** ** Nicknames *)

Lemma obj_get_set_eq k v o : obj_get k (obj_set k v o) = v.
Proof.
  induction o as [|[k' v'] o IH]; simpl.
  - now rewrite str_eqb_refl.
  - destruct (str_eqb k k') eqn:E; simpl.
    + now rewrite str_eqb_refl.
    + now rewrite E.
Qed.

Lemma obj_get_set_ne k k' v o :
  str_eqb k k' = false -> obj_get k (obj_set k' v o) = obj_get k o.
Proof.
  intros Hne. induction o as [|[k2 v2] o IH]; simpl.
  - now rewrite Hne.
  - destruct (str_eqb k' k2) eqn:E; simpl.
    + apply str_eqb_eq in E as <-. now rewrite Hne.
    + now rewrite IH.
Qed.

Lemma omap_lookup {A B} (f : A -> outcome B) l l' :
  omap f l = Ok l' ->
  length l' = length l /\
  forall i a, l !! i = Some a -> exists b, l' !! i = Some b /\ f a = Ok b.
Proof.
  revert l'; induction l as [|a l IH]; intros l'; simpl.
  - intros [= <-]. split; [reflexivity|]. intros i a. now rewrite lookup_nil.
  - destruct (f a) as [b|e] eqn:Ea; simpl; [|discriminate].
    destruct (omap f l) as [bs|e] eqn:El; simpl; [|discriminate].
    intros [= <-]. destruct (IH bs eq_refl) as [Hlen Hl]. split; [simpl; lia|].
    intros [|i] a'; simpl.
    + intros [= <-]. eauto.
    + apply Hl.
Qed.

Lemma key_of_applyName nn d d' :
  Server.applyName nn d = Ok d' <->
  nullish d = false /\
  exists key, key_of d = Ok key /\
    d' = (if truthy (Server.nickname_of nn key)
          then VObj (obj_set (lit "nickname") (Server.nickname_of nn key) (spread d))
          else d).
Proof.
  unfold Server.applyName, key_of, field.
  destruct (nullish d) eqn:En.
  - rewrite get_prop_null by exact En. cbn [obind].
    split; [discriminate|]. intros [? _]. discriminate.
  - rewrite get_prop_not_null by exact En. cbn [obind].
    destruct (Server.nickname_key _ _) as [key|e]; cbn [obind].
    + split.
      * intros [= <-]. split; [reflexivity|]. exists key. auto.
      * intros (_ & key' & [= <-] & ->). reflexivity.
    + split; [discriminate|]. intros (_ & key' & Hk & _). discriminate.
Qed.



Lemma applyNames_array nn l r :
  Server.applyNames nn l = Ok r ->
  forall ds, l = VArr ds ->
    exists ds', r = VArr ds' /\ length ds' = length ds /\
      forall i d, ds !! i = Some d ->
        exists d', ds' !! i = Some d' /\ Server.applyName nn d = Ok d'.
Proof.
  intros Ha ds ->. unfold Server.applyNames, js_or in Ha. simpl in Ha.
  destruct (omap (Server.applyName nn) ds) as [ds'|e] eqn:E; simpl in Ha; [|discriminate].
  injection Ha as <-. exists ds'. split; [reflexivity|]. now apply omap_lookup.
Qed.

(** The two lists of the annotated device status. *)
Lemma applyNicknames_groups nn data data' :
  Server.applyNicknames nn data = Ok data' -> truthy data = true ->
  exists acs fhs,
    Server.applyNames nn (field data "acs") = Ok acs /\
    Server.applyNames nn (field data "fhs") = Ok fhs /\
    field data' "acs" = acs /\ field data' "fhs" = fhs.
Proof.
  unfold Server.applyNicknames, field. intros Ha Ht. rewrite Ht in Ha. simpl in Ha.
  destruct (Server.applyNames nn (get_prop_opt data (lit "acs"))) as [acs|e]; [|discriminate].
  destruct (Server.applyNames nn (get_prop_opt data (lit "fhs"))) as [fhs|e]; [|discriminate].
  simpl in Ha. injection Ha as <-. exists acs, fhs. repeat split; simpl.
  - rewrite obj_get_set_ne by reflexivity. apply obj_get_set_eq.
  - apply obj_get_set_eq.
Qed.







(** ** Control endpoint *)

Lemma dispatch_unknown req n e st v token :
  unknown_action req ->
  Server.dispatch (field req "action") n e st v token = None.
Proof.
  intros Hu. unfold Server.dispatch.
  assert (forall a, a ∈ supported_actions -> is_str (field req "action") a = false) as Hf.
  { intros a Ha. specialize (Hu a Ha). unfold is_str.
    destruct (field req "action"); try reflexivity.
    destruct (str_eqb s a) eqn:E; [|reflexivity].
    apply str_eqb_eq in E. congruence. }
  rewrite !Hf; [reflexivity|..]; unfold supported_actions;
    rewrite !elem_of_cons; tauto.
Qed.

(** The claim C2 as it is worded fails: with nothing cached, the request
    for the token page leaves for the appliance before the 400. *)
Lemma C2_counterexample : ~ @unknown_action_rejected_first demo_host.
Proof.
  intros Hc.
  pose (r := arun (demo_appliance token_page) []
               (@Server.link demo_host no_devices _
                  (Server.post_api_devices_control reboot_request fresh_state)
                  fresh_client)).
  destruct (Hc no_devices reboot_request fresh_state fresh_client r.1 r.2.1.1 r.2.1.2 r.2.2)
    as [_ Hsend].
  - intros a Ha. unfold supported_actions in Ha. rewrite !elem_of_cons, elem_of_nil in Ha.
    destruct Ha as [->|[->|[->|[->|[->|[->|[->|[->|[]]]]]]]]]; discriminate.
  - rewrite <- !surjective_pairing. apply arun_exec.
  - assert (exists rq tr', r.1 = EvSend rq :: tr') as (rq & tr' & Hr)
      by (eexists _, _; vm_compute; reflexivity).
    apply (Hsend rq). rewrite Hr. now left.
Qed.

(** C2, amended. For every request whose action is not one of the eight,
    the handler resolves the session token first.  When the cached device
    status holds a token, nothing is called, also below the server, and
    the answer is 400.  Otherwise [getToken] of the client is called once,
    and the answer is 400 when it returns and 502 with its error when it
    throws.  No control operation is called, no refresh is scheduled and
    the state of the server is left as it is. *)
Theorem C2_unknown_action_after_token :
  (forall req st tr reply st',
     unknown_action req ->
     exec (Server.post_api_devices_control req st) tr (reply, st') ->
     st' = st /\
     ((truthy (field (Server.devices (Server.cache st)) "token") = true /\
       tr = [] /\
       reply = Server.mkReply 400 (Server.ErrorText (lit "unknown action"))) \/
      (truthy (field (Server.devices (Server.cache st)) "token") = false /\
       exists o, tr = [EvCall GetToken o] /\
         reply = match o with
                 | Ok _ => Server.mkReply 400 (Server.ErrorText (lit "unknown action"))
                 | Err e => Server.mkReply 502 (Server.ErrorOf e)
                 end))) /\
  (forall (H : Host) getDevices req st cs tr r,
     unknown_action req ->
     truthy (field (Server.devices (Server.cache st)) "token") = true ->
     aexec (Server.link getDevices (Server.post_api_devices_control req st) cs) tr r ->
     tr = [] /\
     r = ((Server.mkReply 400 (Server.ErrorText (lit "unknown action")), st), cs)).
Proof.
  split.
  - intros req st tr reply st' Hu Hx.
    unfold Server.post_api_devices_control, Server.controlToken in Hx.
    fold (field (Server.devices (Server.cache st)) "token") in Hx.
    destruct (truthy (field (Server.devices (Server.cache st)) "token")) eqn:Et.
    + simpl in Hx. fold (field req "action") in Hx.
      rewrite dispatch_unknown in Hx by assumption.
      destruct Hx as (-> & [= -> ->]). split; [reflexivity|]. left. auto.
    + simpl in Hx. destruct Hx as ([token|e] & tr' & -> & Hx); simpl in Hx.
      * fold (field req "action") in Hx. rewrite dispatch_unknown in Hx by assumption.
        destruct Hx as (-> & [= -> ->]). split; [reflexivity|]. right.
        split; [reflexivity|]. now exists (Ok token).
      * destruct Hx as (-> & [= -> ->]). split; [reflexivity|]. right.
        split; [reflexivity|]. now exists (Err e).
  - intros H getDevices req st cs tr r Hu Ht Hx.
    unfold Server.post_api_devices_control, Server.controlToken in Hx.
    fold (field (Server.devices (Server.cache st)) "token") in Hx.
    rewrite Ht in Hx. simpl in Hx. fold (field req "action") in Hx.
    rewrite dispatch_unknown in Hx by assumption. simpl in Hx.
    destruct Hx as [-> ->]. auto.
Qed.

Lemma C2_unknown_action_after_token_witness :
  let r := run (demo_client (Ok (VStr (lit "32140")))) []
               (Server.post_api_devices_control reboot_request fresh_state) in
  r.2.2 = fresh_state /\ Server.code r.2.1 = 400.
Proof.
  intros r.
  destruct (proj1 C2_unknown_action_after_token reboot_request fresh_state r.1 r.2.1 r.2.2)
    as (Hst & [(Ht & _)|(_ & o & Htr & Hr)]).
  - intros a Ha. unfold supported_actions in Ha. rewrite !elem_of_cons, elem_of_nil in Ha.
    destruct Ha as [->|[->|[->|[->|[->|[->|[->|[->|[]]]]]]]]]; discriminate.
  - rewrite <- surjective_pairing. apply run_exec.
  - discriminate Ht.
  - split; [exact Hst|]. rewrite Hr.
    assert (r.1 = [EvCall GetToken (Ok (VStr (lit "32140")))]) as Hr1
      by (vm_compute; reflexivity).
    rewrite Hr1 in Htr. now injection Htr as <-.
Defined.

(** * Further properties *)

(** ** The session token *)

Lemma span_Forall f s : Forall (fun c => f c = true) (span f s).1.
Proof.
  induction s as [|c s IH]; simpl; [constructor|].
  destruct (f c) eqn:E; [|constructor].
  destruct (span f s) as [a b]. simpl in *. now constructor.
Qed.

Lemma digits1_Some s d rest :
  Aiseg2.digits1 s = Some (d, rest) ->
  d <> [] /\ Forall (fun c => is_digit c = true) d.
Proof.
  unfold Aiseg2.digits1. pose proof (span_Forall is_digit s) as Hd.
  destruct (span is_digit s) as [[|c d'] r]; [discriminate|].
  intros [= <- <-]. split; [discriminate | exact Hd].
Qed.

Lemma token_match_here_digits s tok :
  Aiseg2.token_match_here s = Some tok ->
  tok <> [] /\ Forall (fun c => is_digit c = true) tok.
Proof.
  unfold Aiseg2.token_match_here.
  destruct (starts_with _ s); [|discriminate].
  intros Hx.
  repeat match type of Hx with
         | (_ ≫= _) = Some _ =>
             apply bind_Some in Hx as (? & ? & Hx)
         | (let '(_, _) := ?p in _) = Some _ => destruct p
         end.
  match goal with
  | Hd : Aiseg2.digits1 _ = Some (?a, _) |- _ =>
      match type of Hx with
      | Some a = Some tok => injection Hx as <-; exact (digits1_Some _ _ _ Hd)
      end
  end.
Qed.

Lemma token_match_digits html tok :
  Aiseg2.token_match html = Some tok ->
  tok <> [] /\ Forall (fun c => is_digit c = true) tok.
Proof.
  induction html as [|c html IH]; simpl.
  - discriminate.
  - destruct (Aiseg2.token_match_here (c :: html)) eqn:E; [|exact IH].
    intros [= <-]. exact (token_match_here_digits _ _ E).
Qed.

Lemma token_of_digits html :
  token_of html <> [] /\ Forall (fun c => is_digit c = true) (token_of html).
Proof.
  unfold token_of. destruct (Aiseg2.token_match html) as [tok|] eqn:E; simpl.
  - exact (token_match_digits _ _ E).
  - split; [discriminate|]. repeat constructor.
Qed.

Section Token.
Context `{Host}.

Lemma refreshToken_exec st tr o st' :
  exec (Aiseg2.refreshToken st) tr (o, st') ->
  exists tr1 res,
    exec (Aiseg2.digestFetch (lit "/page/devices/device/32") Aiseg2.GET None) tr1 res /\
    match obind res text with
    | Err e => tr = tr1 /\ o = Err e /\ st' = st
    | Ok html =>
        exists t, tr = tr1 ++ [EvNow t] /\ o = Ok (token_of html) /\
                  st' = Aiseg2.mkClientState (Some (token_of html)) t
    end.
Proof.
  unfold Aiseg2.refreshToken, bindo. intros Hx.
  apply exec_bind in Hx as (o1 & tr1 & tr2 & H1 & H2 & ->).
  apply exec_bind in H1 as (res & tr3 & tr4 & H3 & H4 & ->).
  exists tr3, res. split; [exact H3|].
  destruct res as [r|e]; simpl in *.
  - destruct H4 as [-> ->]. rewrite app_nil_r.
    destruct (text r) as [html|e]; simpl in H2.
    + destruct H2 as (t & tr' & -> & -> & [= -> ->]). now exists t.
    + destruct H2 as [-> [= -> ->]]. now rewrite app_nil_r.
  - destruct H4 as [-> ->]. simpl in H2. destruct H2 as [-> [= -> ->]].
    now rewrite !app_nil_r.
Qed.

End Token.

(** The two ways of [getToken]: from memory, or from the device page. *)
Lemma getToken_exec `{Host} st tr o st' :
  exec (Aiseg2.getToken st) tr (o, st') ->
  (exists tok now,
     Aiseg2._token st = Some tok /\ tok <> [] /\ now - Aiseg2._tokenAt st < 3600000 /\
     tr = [EvNow now] /\ o = Ok tok /\ st' = st) \/
  (exists clock tr1 res,
     token_stale st clock /\
     exec (Aiseg2.digestFetch (lit "/page/devices/device/32") Aiseg2.GET None) tr1 res /\
     match obind res text with
     | Err e => tr = clock ++ tr1 /\ o = Err e /\ st' = st
     | Ok html =>
         exists t, tr = clock ++ tr1 ++ [EvNow t] /\ o = Ok (token_of html) /\
                   st' = Aiseg2.mkClientState (Some (token_of html)) t
     end).
Proof.
  unfold Aiseg2.getToken. intros Hx.
  assert (forall clock, token_stale st clock ->
            forall tr', exec (Aiseg2.refreshToken st) tr' (o, st') -> tr = clock ++ tr' ->
            exists clock tr1 res,
              token_stale st clock /\
              exec (Aiseg2.digestFetch (lit "/page/devices/device/32") Aiseg2.GET None) tr1 res /\
              match obind res text with
              | Err e => tr = clock ++ tr1 /\ o = Err e /\ st' = st
              | Ok html =>
                  exists t, tr = clock ++ tr1 ++ [EvNow t] /\ o = Ok (token_of html) /\
                            st' = Aiseg2.mkClientState (Some (token_of html)) t
              end) as Hrefresh.
  { intros clock Hc tr' Hr ->. apply refreshToken_exec in Hr as (tr1 & res & H1 & H2).
    exists clock, tr1, res. split; [exact Hc|]. split; [exact H1|].
    destruct (obind res text) as [html|e].
    - destruct H2 as (t & -> & -> & ->). now exists t.
    - destruct H2 as (-> & -> & ->). auto. }
  destruct (Aiseg2._token st) as [[|c tok]|] eqn:Et; simpl in Hx.
  - right. eapply (Hrefresh []); [left; auto | exact Hx | reflexivity].
  - destruct Hx as (now & tr' & -> & Hx).
    destruct (now - Aiseg2._tokenAt st <? 3600000) eqn:E.
    + left. destruct Hx as [-> [= -> ->]]. exists (c :: tok), now.
      apply Z.ltb_lt in E. repeat split; auto.
    + right. apply Z.ltb_ge in E.
      eapply (Hrefresh [EvNow now]); [right; eauto | exact Hx | reflexivity].
  - right. eapply (Hrefresh []); [left; auto | exact Hx | reflexivity].
Qed.

(** X1. [getToken] answers from memory, reading only the clock and
    leaving the module variables as they are, when it holds a non-empty
    token that is less than an hour old.  Otherwise it makes one exchange
    for the device page: when the exchange or the reading of the body
    fails the error is thrown and the module variables are unchanged;
    otherwise the token is the one read off the page (the default when the
    page shows none, whatever the status of the answer), and it is stored
    with the time read after the exchange. *)
Theorem getToken_memory_or_page `{Host} st tr o st' :
  exec (Aiseg2.getToken st) tr (o, st') ->
  (exists tok now,
     Aiseg2._token st = Some tok /\ tok <> [] /\ now - Aiseg2._tokenAt st < 3600000 /\
     tr = [EvNow now] /\ o = Ok tok /\ st' = st) \/
  (exists clock tr1 res,
     token_stale st clock /\
     exec (Aiseg2.digestFetch (lit "/page/devices/device/32") Aiseg2.GET None) tr1 res /\
     match obind res text with
     | Err e => tr = clock ++ tr1 /\ o = Err e /\ st' = st
     | Ok html =>
         exists t, tr = clock ++ tr1 ++ [EvNow t] /\ o = Ok (token_of html) /\
                   st' = Aiseg2.mkClientState (Some (token_of html)) t
     end).
Proof. apply getToken_exec. Qed.

Lemma getToken_memory_or_page_witness :
  let r := run (demo_appliance token_page) [] (@Aiseg2.getToken demo_host fresh_client) in
  r.2.1 = Ok (lit "32140") /\ Aiseg2._token r.2.2 = Some (lit "32140").
Proof.
  intros r.
  destruct (@getToken_memory_or_page demo_host fresh_client r.1 r.2.1 r.2.2) as
    [(tok & now & Ht & _)|(clock & tr1 & res & _ & H1 & H2)].
  - rewrite <- surjective_pairing. apply run_exec.
  - discriminate Ht.
  - split; vm_compute; reflexivity.
Defined.

(** X2. A token that [getToken] returns is never the empty string, and it
    is held afterwards: the next call reads the clock and, within the
    hour that follows the time stored, returns the same token with no
    request and no change of the module variables. *)
Theorem getToken_serves_the_hour `{Host} st tr tok st' :
  exec (Aiseg2.getToken st) tr (Ok tok, st') ->
  tok <> [] /\ Aiseg2._token st' = Some tok /\
  forall tr2 r2,
    exec (Aiseg2.getToken st') tr2 r2 ->
    exists now rest,
      tr2 = EvNow now :: rest /\
      (now - Aiseg2._tokenAt st' < 3600000 -> rest = [] /\ r2 = (Ok tok, st')).
Proof.
  intros Hx.
  assert (tok <> [] /\ Aiseg2._token st' = Some tok) as [Hne Htok].
  { apply getToken_exec in Hx as
      [(tok' & now & Ht & Hne & _ & _ & [= <-] & ->)|(clock & tr1 & res & _ & _ & H2)].
    - auto.
    - destruct (obind res text) as [html|e].
      + destruct H2 as (t & _ & [= ->] & ->). split; [apply token_of_digits | reflexivity].
      + destruct H2 as (_ & [=] & _). }
  split; [exact Hne|]. split; [exact Htok|].
  intros tr2 r2. unfold Aiseg2.getToken. rewrite Htok.
  destruct tok as [|c tok]; [contradiction|]. simpl.
  intros (now & rest & -> & Hr). exists now, rest. split; [reflexivity|].
  intros Hlt. apply Z.ltb_lt in Hlt. rewrite Hlt in Hr. destruct Hr as [-> ->]. auto.
Qed.

Lemma getToken_serves_the_hour_witness :
  let r := run (demo_appliance token_page) [] (@Aiseg2.getToken demo_host fresh_client) in
  lit "32140" <> [] /\ Aiseg2._token r.2.2 = Some (lit "32140").
Proof.
  intros r.
  destruct (@getToken_serves_the_hour demo_host fresh_client r.1 (lit "32140") r.2.2)
    as (Hne & Ht & _).
  - assert (r.2.1 = Ok (lit "32140")) as <- by (vm_compute; reflexivity).
    rewrite <- !surjective_pairing. apply run_exec.
  - split; [exact Hne | exact Ht].
Defined.

(** ** Control operations and the realtime read *)

Section Exchanges.
Context `{Host}.

Lemma digestFetch_exchange path method body tr res :
  exec (Aiseg2.digestFetch path method body) tr res ->
  exchange (digestFetch_request path method body) method path tr res.
Proof.
  intros (o & tr' & -> & Hx). unfold exchange.
  destruct o as [r1|e]; simpl in Hx.
  - destruct (status r1 =? 401) eqn:E; simpl in Hx.
    + right. apply Z.eqb_eq in E. now apply retry_exchange.
    + left. destruct Hx as [-> ->]. split; [reflexivity|].
      now apply Z.eqb_neq in E.
  - left. destruct Hx as [-> ->]. now split.
Qed.

Lemma devicePost_exchange path params tr res :
  exec (Aiseg2.devicePost path params) tr res ->
  exchange (devicePost_request path params) (lit "POST") path tr res.
Proof.
  intros (o & tr' & -> & Hx). unfold exchange.
  destruct o as [r1|e]; simpl in Hx.
  - destruct (status r1 =? 401) eqn:E; simpl in Hx.
    + right. apply Z.eqb_eq in E. now apply retry_exchange.
    + left. destruct Hx as [-> ->]. split; [reflexivity|].
      now apply Z.eqb_neq in E.
  - left. destruct Hx as [-> ->]. now split.
Qed.

Lemma acknowledgment_eq o :
  match o with
  | Err e => Err e
  | Ok resp => Aiseg2.acknowledgment resp
  end = acknowledged o.
Proof.
  destruct o as [r|e]; [|reflexivity]. unfold Aiseg2.acknowledgment, acknowledged, ok.
  destruct (_ && _); [|reflexivity].
  unfold json, body_json. now destruct (body r).
Qed.

(** The helper shared by the six operations: the token, then what
    [send] does, then the acknowledgment. *)
Lemma control_exec token send st tr r st' :
  exec (Aiseg2.control token send st) tr (r, st') ->
  exists tr0 t,
    (if truthy token then tr0 = [] /\ t = Ok token /\ st' = st
     else exists o, exec (Aiseg2.getToken st) tr0 (o, st') /\
                    t = obind o (fun s => Ok (VStr s))) /\
    match t with
    | Err e => tr = tr0 /\ r = Err e
    | Ok tok =>
        exists tr1 o,
          exec (send tok) tr1 o /\ tr = tr0 ++ tr1 /\ r = acknowledged o
    end.
Proof.
  unfold Aiseg2.control, Aiseg2.resolveToken, bindo. intros Hx.
  apply exec_bind in Hx as ([t st1] & tr0 & tr1 & H0 & H1 & ->).
  assert (st' = st1 /\
          match t with
          | Err e => tr1 = [] /\ r = Err e
          | Ok tok => exists o, exec (send tok) tr1 o /\ r = acknowledged o
          end) as [-> Hr].
  { destruct t as [tok|e].
    - apply exec_bind in H1 as (a & tr2 & tr3 & H2 & [-> [= -> ->]] & ->).
      split; [reflexivity|].
      apply exec_bind in H2 as (o & tr4 & tr5 & H4 & H5 & ->).
      exists o. rewrite <- acknowledgment_eq.
      destruct o as [resp|e]; simpl in H5; destruct H5 as [-> ->];
        rewrite !app_nil_r; auto.
    - destruct H1 as [-> [= -> ->]]. auto. }
  exists tr0, t. split.
  - destruct (truthy token).
    + destruct H0 as [-> [= -> ->]]. auto.
    + apply exec_bind in H0 as ([o st2] & tr2 & tr3 & H2 & [-> [= -> ->]] & ->).
      rewrite app_nil_r. eauto.
  - destruct t as [tok|e].
    + destruct Hr as (o & Ho & ->). eauto.
    + destruct Hr as [-> ->]. now rewrite app_nil_r.
Qed.

Lemma control_run_of token send request st tr r st' :
  (forall tok tr1 o,
     exec (send tok) tr1 o ->
     match request tok with
     | Err e => tr1 = [] /\ o = Err e
     | Ok (rq, method, path) => exchange rq method path tr1 o
     end) ->
  exec (Aiseg2.control token send st) tr (r, st') ->
  control_run token request st tr r st'.
Proof.
  intros Hsend Hx. apply control_exec in Hx as (tr0 & t & Ht & Hr).
  exists tr0, t. split; [exact Ht|].
  destruct t as [tok|e]; [|exact Hr].
  destruct Hr as (tr1 & o & Ho & -> & ->).
  apply Hsend in Ho. destruct (request tok) as [[[rq method] path]|e].
  - eauto.
  - destruct Ho as [-> ->]. now rewrite app_nil_r.
Qed.

(** A conversion that may throw, then a [devicePost]. *)
Lemma converted_post {A} (c : outcome A) (path : A -> str) (params : A -> JsVal) tr o :
  exec (bindo (lift c) (fun a => Aiseg2.devicePost (path a) (params a))) tr o ->
  match c with
  | Err e => tr = [] /\ o = Err e
  | Ok a => exchange (devicePost_request (path a) (params a)) (lit "POST") (path a) tr o
  end.
Proof.
  unfold bindo, lift. destruct c as [a|e]; simpl.
  - apply devicePost_exchange.
  - auto.
Qed.

End Exchanges.

(** X3. Each of the six control operations, called with a truthy token,
    makes no token request and leaves the module variables as they are;
    called without one it first runs [getToken], and when that throws,
    the error is thrown and no control request is sent.  Then the
    arguments are converted: [setACSettings] converts the value to a
    string, [setFHLevel] the level to its code, [controlBath] the token
    to a string, and when the conversion throws, the operation throws and
    sends nothing.  Otherwise the operation makes one exchange: a [POST]
    of the parameters, with the token, to its device page, or for
    [controlBath] a [GET] with the parameters in the query.  A failed
    exchange is thrown; an answer whose status is outside 200 to 299 is
    not thrown but reported as a value with [result] equal to [error] and
    the status; an answer inside that range gives its body read as
    JSON. *)
Theorem control_token_then_request `{Host} token st tr r st' :
  (forall nodeId eoj state,
     exec (Aiseg2.controlAC nodeId eoj state token st) tr (r, st') ->
     control_run token (fun tok =>
       Ok (device_request "321/change"
             [(lit "nodeId", nodeId); (lit "eoj", eoj); (lit "type", VStr (lit "0x33"));
              (lit "state", state); (lit "token", tok)])) st tr r st') /\
  (forall nodeId eoj state,
     exec (Aiseg2.controlFH nodeId eoj state token st) tr (r, st') ->
     control_run token (fun tok =>
       Ok (device_request "32b/change"
             [(lit "nodeId", nodeId); (lit "eoj", eoj); (lit "type", VStr (lit "0x34"));
              (lit "state", state); (lit "token", tok)])) st tr r st') /\
  (exec (Aiseg2.controlBath token st) tr (r, st') ->
   control_run token (fun tok =>
     obind (ToString tok) (fun t => Ok (bath_request t))) st tr r st') /\
  (exec (Aiseg2.controlGenerate token st) tr (r, st') ->
   control_run token (fun tok =>
     Ok (device_request "32/ctrl_lanEnefirm_generate"
           [(lit "token", tok); (lit "generatecmd", VStr (lit "0x42"))])) st tr r st') /\
  (forall nodeId eoj settingType value,
     exec (Aiseg2.setACSettings nodeId eoj settingType value token st) tr (r, st') ->
     control_run token (fun tok =>
       obind (ToString value) (fun v =>
         Ok (device_request "3211/change"
               [(lit "nodeId", nodeId); (lit "eoj", eoj); (lit "type", VStr (lit "0x33"));
                (lit "page", VStr (lit "1")); (lit "individual_page", VStr (lit "1"));
                (lit "setting_type", VStr (num_to_str (num_of_Z settingType)));
                (lit "value", VStr v); (lit "token", tok)]))) st tr r st') /\
  (forall nodeId eoj state level,
     exec (Aiseg2.setFHLevel nodeId eoj state level token st) tr (r, st') ->
     control_run token (fun tok =>
       obind (Aiseg2.templevel level) (fun code =>
         Ok (device_request "32b/change"
               [(lit "nodeId", nodeId); (lit "eoj", eoj); (lit "type", VStr (lit "0x34"));
                (lit "state", state); (lit "templevel", VStr code);
                (lit "token", tok)]))) st tr r st').
Proof.
  repeat split.
  - intros nodeId eoj state. apply control_run_of.
    intros tok tr1 o. apply devicePost_exchange.
  - intros nodeId eoj state. apply control_run_of.
    intros tok tr1 o. apply devicePost_exchange.
  - apply control_run_of. intros tok tr1 o. unfold bindo, lift.
    destruct (ToString tok) as [t|e]; cbn [bind obind].
    + intros Hx. apply digestFetch_exchange in Hx. exact Hx.
    + cbn [exec]. auto.
  - apply control_run_of. intros tok tr1 o. apply devicePost_exchange.
  - intros nodeId eoj settingType value. apply control_run_of.
    intros tok tr1 o Hx.
    apply (converted_post (ToString value)
             (fun _ => lit "/action/devices/device/3211/change")) in Hx.
    destruct (ToString value); exact Hx.
  - intros nodeId eoj state level. apply control_run_of.
    intros tok tr1 o Hx.
    apply (converted_post (Aiseg2.templevel level)
             (fun _ => lit "/action/devices/device/32b/change")) in Hx.
    destruct (Aiseg2.templevel level); exact Hx.
Qed.

Lemma control_token_then_request_witness :
  let r := run (demo_status 500 []) []
             (@Aiseg2.controlGenerate demo_host (VStr (lit "32140")) fresh_client) in
  r.2.1 = Ok (error_status (mkResponse 500 None (Ok []))) /\ r.2.2 = fresh_client.
Proof.
  intros r.
  assert (exec (@Aiseg2.controlGenerate demo_host (VStr (lit "32140")) fresh_client)
            r.1 (r.2.1, r.2.2)) as Hx
    by (rewrite <- surjective_pairing; apply run_exec).
  destruct (@control_token_then_request demo_host (VStr (lit "32140")) fresh_client
              r.1 r.2.1 r.2.2) as (_ & _ & _ & Hgen & _).
  destruct (Hgen Hx) as (tr0 & t & Ht & Hr).
  simpl in Ht. destruct Ht as (_ & _ & Hst). split; [|exact Hst].
  vm_compute. reflexivity.
Defined.

(** X4. [getRealtime] makes one exchange: a [POST] of an empty form body
    to the realtime path.  A failed exchange is thrown; a final answer
    whose status is outside 200 to 299 (the answer to the authenticated
    retry included) is thrown as an HTTP error with that status; a body
    that cannot be read or is not JSON is thrown, as a syntax error in
    the second case; a body that is [null] throws a type error;
    otherwise the result is what the mapper gives for the body read as
    JSON.  Every outcome of the exchange has its execution. *)
Theorem getRealtime_outcome `{Host} tr :
  (forall res,
     exec Aiseg2.getRealtime tr res ->
     exists o,
       exchange (digestFetch_request realtime_path (lit "POST") (Some []))
                (lit "POST") realtime_path tr o /\
       res = realtime_result o) /\
  (forall o,
     exec (Aiseg2.digestFetch realtime_path (lit "POST") (Some [])) tr o ->
     exec Aiseg2.getRealtime tr (realtime_result o)).
Proof.
  assert (forall o,
    match o with
    | Err e => Err e
    | Ok r => if ok r then obind (json r) Aiseg2.realtime_snapshot
              else Err (HttpError (status r))
    end = realtime_result o) as Hres.
  { intros [r|e]; [|reflexivity]. unfold realtime_result, ok, json, body_json.
    destruct (_ && _); [|reflexivity].
    destruct (body r) as [s|e]; [|reflexivity]. cbn [obind].
    destruct (JSON_parse s) as [d|]; [|reflexivity]. cbn [obind].
    destruct (nullish d) eqn:En; [|reflexivity].
    unfold Aiseg2.realtime_snapshot. now rewrite get_prop_null. }
  split.
  - unfold Aiseg2.getRealtime, bindo, lift. intros res Hx.
    apply exec_bind in Hx as (o & tr1 & tr2 & H1 & H2 & ->).
    exists o. rewrite <- Hres.
    destruct o as [r|e]; simpl in H2.
    + destruct (ok r); simpl in H2.
      * destruct (json r) as [d|e]; simpl in H2; destruct H2 as [-> ->];
          rewrite app_nil_r; split; auto using digestFetch_exchange.
      * destruct H2 as [-> ->]. rewrite app_nil_r.
        split; auto using digestFetch_exchange.
    + destruct H2 as [-> ->]. rewrite app_nil_r.
      split; auto using digestFetch_exchange.
  - unfold Aiseg2.getRealtime, bindo, lift. intros o Ho. rewrite <- Hres.
    apply exec_bind. exists o, tr, [].
    split; [exact Ho|]. split; [|now rewrite app_nil_r].
    destruct o as [r|e]; simpl; [|auto].
    destruct (ok r); simpl; [|auto].
    destruct (json r) as [d|e]; simpl; auto.
Qed.

(** ** Challenge headers *)

Lemma span_prefix f a r :
  Forall (fun c => f c = true) a ->
  match r with
  | [] => True
  | c :: _ => f c = false
  end ->
  span f (a ++ r) = (a, r).
Proof.
  intros Ha Hr. induction Ha as [|c a Hc _ IH]; simpl.
  - destruct r as [|c r]; simpl; [reflexivity|]. now rewrite Hr.
  - now rewrite Hc, IH.
Qed.

Lemma auth_param_app (k v rest : str) :
  auth_param (k, v) ++ rest = k ++ 61%N :: 34%N :: v ++ 34%N :: rest.
Proof.
  unfold auth_param, Aiseg2.quoted. cbn [fst snd].
  change (lit "=") with [61%N]. change dquote with 34%N.
  rewrite <- !app_assoc. reflexivity.
Qed.

Lemma auth_match_param (k v rest : str) :
  well_formed (k, v) ->
  Aiseg2.auth_match_here (k ++ 61%N :: 34%N :: v ++ 34%N :: rest) =
  Some (k, v, (length k + length v + 3)%nat).
Proof.
  intros (Hk & Hkw & Hv & Hvq). cbn [fst snd] in *.
  unfold Aiseg2.auth_match_here.
  rewrite (span_prefix is_word k) by (auto; reflexivity).
  destruct k as [|c k]; [contradiction|].
  rewrite (span_prefix Aiseg2.not_quote v) by (auto; reflexivity).
  destruct v as [|d v]; [contradiction|]. reflexivity.
Qed.

Lemma auth_scan_skip a r :
  Aiseg2.auth_scan (length a) (a ++ r) = Aiseg2.auth_scan 0 r.
Proof. induction a as [|c a IH]; simpl; [reflexivity | exact IH]. Qed.

Lemma auth_scan_cons c s :
  Aiseg2.auth_scan 0 (c :: s) =
  match Aiseg2.auth_match_here (c :: s) with
  | Some (k, v, len) => (k, v) :: Aiseg2.auth_scan (len - 1) s
  | None => Aiseg2.auth_scan 0 s
  end.
Proof. reflexivity. Qed.

Lemma auth_scan_param (k v rest : str) :
  well_formed (k, v) ->
  Aiseg2.auth_scan 0 (auth_param (k, v) ++ rest) = (k, v) :: Aiseg2.auth_scan 0 rest.
Proof.
  intros Hw. rewrite auth_param_app.
  pose proof (auth_match_param k v rest Hw) as Hm.
  destruct Hw as (Hk & _). cbn [fst] in Hk.
  destruct k as [|c k]; [contradiction|].
  rewrite <- app_comm_cons in *. rewrite auth_scan_cons, Hm. f_equal.
  assert (forall n, n = length (k ++ 61%N :: 34%N :: v ++ [34%N]) ->
            Aiseg2.auth_scan n ((k ++ 61%N :: 34%N :: v ++ [34%N]) ++ rest) =
            Aiseg2.auth_scan 0 rest) as Hskip
    by (intros ? ->; apply auth_scan_skip).
  replace (k ++ 61%N :: 34%N :: v ++ 34%N :: rest)
    with ((k ++ 61%N :: 34%N :: v ++ [34%N]) ++ rest).
  - apply Hskip. rewrite length_app. cbn [length]. rewrite length_app. cbn [length]. lia.
  - rewrite <- app_assoc. cbn [app]. rewrite <- app_assoc. reflexivity.
Qed.

Lemma auth_scan_params l :
  Forall well_formed l -> Aiseg2.auth_scan 0 (auth_params l) = l.
Proof.
  induction 1 as [|[k v] l Hkv Hl IH]; [reflexivity|].
  destruct l as [|kv' l'].
  - change (auth_params [(k, v)]) with (auth_param (k, v)).
    rewrite <- (app_nil_r (auth_param (k, v))). now rewrite auth_scan_param.
  - change (auth_params ((k, v) :: kv' :: l'))
      with (auth_param (k, v) ++ lit ", " ++ auth_params (kv' :: l')).
    rewrite auth_scan_param by exact Hkv. f_equal.
    change (Aiseg2.auth_scan 0 (lit ", " ++ auth_params (kv' :: l')))
      with (Aiseg2.auth_scan 0 (auth_params (kv' :: l'))).
    exact IH.
Qed.

Lemma foldl_insert_rev (l : list (str * str)) (m : gmap str str) :
  foldl (fun r kv => <[kv.1 := kv.2]> r) m l =
  foldr (fun kv r => <[kv.1 := kv.2]> r) m (rev l).
Proof.
  revert m; induction l as [|kv l IH]; intros m; simpl; [reflexivity|].
  rewrite IH, foldr_app. reflexivity.
Qed.

Lemma foldl_assign (l : list (str * str)) (m : gmap str str) :
  foldl Aiseg2.assign m l =
  foldl (fun r kv => <[kv.1 := kv.2]> r) m (List.filter stored l).
Proof.
  revert m; induction l as [|kv l IH]; intros m; simpl; [reflexivity|].
  unfold Aiseg2.assign at 2, stored at 1.
  destruct (str_eqb kv.1 (lit "__proto__")); simpl; apply IH.
Qed.

Lemma NoDup_stored (l : list (str * str)) :
  NoDup l.*1 -> NoDup (List.filter stored l).*1.
Proof.
  induction l as [|kv l IH]; simpl; [auto|].
  rewrite NoDup_cons. intros [Hn Hl].
  destruct (stored kv); [|auto]. simpl. apply NoDup_cons. split; [|auto].
  intros Hin. apply Hn.
  apply list_elem_of_fmap in Hin as (kv' & -> & Hin).
  apply list_elem_of_fmap. exists kv'. split; [reflexivity|].
  apply list_elem_of_In in Hin. apply List.filter_In in Hin as [Hin _].
  now apply list_elem_of_In.
Qed.

(** X5. [parseWWWAuth] reads back a challenge header: for parameters
    whose names are non-empty runs of word characters and whose values are
    non-empty and hold no quotation mark, the matches of the header
    written with them are these parameters in their order, and when no
    name occurs twice the object returned holds exactly those of them
    that are not named [__proto__]: the assignment of a string to that
    name stores nothing. *)
Theorem parseWWWAuth_reads_challenge (l : list (str * str)) :
  Forall well_formed l ->
  Aiseg2.auth_scan 0 (challenge_of l) = l /\
  (NoDup l.*1 ->
   Aiseg2.parseWWWAuth (challenge_of l) = list_to_map (List.filter stored l)).
Proof.
  intros Hl.
  assert (Aiseg2.auth_scan 0 (challenge_of l) = l) as Hscan.
  { unfold challenge_of.
    change (Aiseg2.auth_scan 0 (lit "Digest " ++ auth_params l))
      with (Aiseg2.auth_scan 0 (auth_params l)).
    now apply auth_scan_params. }
  split; [exact Hscan|].
  intros Hnd. unfold Aiseg2.parseWWWAuth.
  rewrite Hscan, foldl_assign, foldl_insert_rev.
  change (foldr (fun kv r => <[kv.1 := kv.2]> r) ∅ (rev (List.filter stored l)))
    with (list_to_map (M := gmap str str) (rev (List.filter stored l))).
  symmetry. apply list_to_map_proper; [now apply NoDup_stored | apply Permutation_rev].
Qed.

Lemma parseWWWAuth_reads_challenge_witness :
  Aiseg2.parseWWWAuth demo_challenge !! lit "nonce" = Some (lit "5f3a").
Proof.
  destruct (parseWWWAuth_reads_challenge
              [(lit "realm", lit "AiSEG2"); (lit "nonce", lit "5f3a");
               (lit "qop", lit "auth")]) as [_ Hm].
  - repeat (constructor;
            [unfold well_formed; cbn [fst snd];
             repeat split; try discriminate; repeat constructor|]).
    constructor.
  - change demo_challenge
      with (challenge_of [(lit "realm", lit "AiSEG2"); (lit "nonce", lit "5f3a");
                          (lit "qop", lit "auth")]).
    rewrite Hm; [reflexivity|].
    apply (bool_decide_unpack _). vm_compute. reflexivity.
Defined.

(** ** Pages *)

Lemma starts_with_app p s : starts_with p s = true -> s = p ++ drop (length p) s.
Proof.
  revert s; induction p as [|x p IH]; intros s; simpl; [reflexivity|].
  destruct s as [|y s]; [discriminate|].
  intros Hx. apply andb_true_iff in Hx as [Hxy Hp].
  apply N.eqb_eq in Hxy as ->. simpl. f_equal. now apply IH.
Qed.

Lemma span_stops f s c rest : (span f s).2 = c :: rest -> f c = false.
Proof.
  induction s as [|x s IH]; simpl; [discriminate|].
  destruct (f x) eqn:E.
  - destruct (span f s) as [a b]. exact IH.
  - simpl. now intros [= <- _].
Qed.

Lemma kwh_match_here_Some s v :
  Aiseg2.kwh_match_here s = Some v ->
  kwh_span_at s [] v /\ v <> [] /\ Forall (fun c => Aiseg2.is_kwh_char c = true) v.
Proof.
  unfold Aiseg2.kwh_match_here.
  destruct (starts_with (lit "<span") s) eqn:Es; [|discriminate].
  apply starts_with_app in Es.
  pose proof (span_app Aiseg2.not_gt (drop 5 s)) as Ha.
  pose proof (span_Forall Aiseg2.not_gt (drop 5 s)) as Hf.
  pose proof (span_stops Aiseg2.not_gt (drop 5 s)) as Hg.
  destruct (span Aiseg2.not_gt (drop 5 s)) as [attrs after]. cbn [fst snd] in *.
  destruct after as [|c inner]; [discriminate|].
  specialize (Hg c inner eq_refl).
  destruct (includes Aiseg2.id_val_kwh (drop 1 attrs)) eqn:Ei; [|discriminate].
  pose proof (span_app Aiseg2.is_kwh_char inner) as Hv.
  pose proof (span_Forall Aiseg2.is_kwh_char inner) as Hk.
  destruct (span Aiseg2.is_kwh_char inner) as [w tail]. cbn [fst snd] in *.
  destruct w as [|d w]; [discriminate|].
  destruct (starts_with (lit "</span>") tail) eqn:Et; [|discriminate].
  apply starts_with_app in Et. intros [= <-].
  split; [|split; [discriminate | exact Hk]].
  exists attrs, (drop 7 tail). split; [|split; [exact Hf | exact Ei]].
  assert (c = 62%N) as ->.
  { unfold Aiseg2.not_gt in Hg. apply negb_false_iff in Hg. now apply N.eqb_eq in Hg. }
  etrans; [exact Es|]. change (length (lit "<span")) with 5%nat.
  rewrite <- Ha, <- Hv. rewrite Et at 1. reflexivity.
Qed.

Lemma kwh_match_Some html v :
  Aiseg2.kwh_match html = Some v ->
  exists pre s,
    html = pre ++ s /\ Aiseg2.kwh_match_here s = Some v /\
    forall i, (i < length pre)%nat -> Aiseg2.kwh_match_here (drop i html) = None.
Proof.
  induction html as [|c html IH]; simpl.
  - discriminate.
  - destruct (Aiseg2.kwh_match_here (c :: html)) eqn:E.
    + intros [= <-]. exists [], (c :: html). split; [reflexivity|]. split; [exact E|].
      simpl. lia.
    + intros Hx. destruct (IH Hx) as (pre & s & -> & Hs & Hpre).
      exists (c :: pre), s. split; [reflexivity|]. split; [exact Hs|].
      intros [|i] Hi; [exact E|]. simpl in *. apply Hpre. lia.
Qed.

(** X6. [parseKwh] gives [null] or a number, and a number only for a
    page that shows a kWh span: the tag [span] with the attribute
    [id] equal to [val_kwh] after at least one other character, closed by
    the first [>], then a non-empty run [v] of digits, points and commas,
    then the closing tag.  The span is the leftmost one, and the number is
    what [parseFloat] reads in [v] without its first comma. *)
Theorem parseKwh_reads_leftmost_span html :
  (Aiseg2.parseKwh html = VNull /\ Aiseg2.kwh_match html = None) \/
  (exists pre v,
     kwh_span_at html pre v /\
     v <> [] /\ Forall (fun c => Aiseg2.is_kwh_char c = true) v /\
     (forall i, (i < length pre)%nat -> Aiseg2.kwh_match_here (drop i html) = None) /\
     Aiseg2.parseKwh html = VNum (parseFloat_str (remove_first 44 v))).
Proof.
  unfold Aiseg2.parseKwh. destruct (Aiseg2.kwh_match html) as [v|] eqn:E; [|auto].
  right. apply kwh_match_Some in E as (pre & s & -> & Hs & Hpre).
  apply kwh_match_here_Some in Hs as ((attrs & rest & -> & Hf & Hi) & Hne & Hk).
  exists pre, v. split; [|auto]. exists attrs, rest. auto.
Qed.

(** ** The circuit list *)

Lemma entry_of_shape c e : entry_of c e -> circuit_shape e.
Proof.
  intros (id & _ & ->). unfold circuit_shape. eexists _, _. split; [reflexivity|].
  unfold js_or. destruct (truthy (field c "strCircuit")) eqn:E; [exact E|].
  reflexivity.
Qed.

Lemma circuits_of_data_shape data cs :
  Aiseg2.circuits_of_data data = Ok cs -> Forall circuit_shape cs.
Proof.
  intros Hd. apply circuits_of_data_Ok in Hd as (_ & l & _ & _ & Hr).
  induction Hr; constructor; eauto using entry_of_shape.
Qed.

Lemma circuits_of_html_shape html : Forall circuit_shape (Aiseg2.circuits_of_html html).
Proof.
  unfold Aiseg2.circuits_of_html.
  induction (Aiseg2.scripts 0 html) as [|s ss IH]; simpl; [constructor|].
  destruct (Aiseg2.circuits_of_script s) as [cs|] eqn:E; [|exact IH].
  apply circuits_of_script_Some in E as (_ & arg & data & _ & _ & Hd).
  exact (circuits_of_data_shape _ _ Hd).
Qed.

(** What [getCircuits] returns for the outcome of its exchange. *)
Lemma getCircuits_exec `{Host} tr res :
  exec Aiseg2.getCircuits tr res ->
  exists o,
    exec (Aiseg2.digestFetch (lit "/page/setting/installation/734") Aiseg2.GET None) tr o /\
    match obind o text with
    | Err e => res = Err e
    | Ok html =>
        res = Ok (VArr (Aiseg2.circuits_of_html html)) /\
        Forall circuit_shape (Aiseg2.circuits_of_html html)
    end.
Proof.
  unfold Aiseg2.getCircuits, bindo, lift. intros Hx.
  apply exec_bind in Hx as (o & tr1 & tr2 & H1 & H2 & ->).
  exists o. destruct o as [r|e]; simpl in *.
  - destruct (text r) as [html|e]; simpl in *; destruct H2 as [-> ->];
      rewrite !app_nil_r; (split; [exact H1|]); [|reflexivity].
    split; [reflexivity | apply circuits_of_html_shape].
  - destruct H2 as [-> ->]. rewrite app_nil_r. auto.
Qed.

(** X7. [getCircuits] is one exchange for the installation page.  It
    throws only when the exchange or the reading of the body fails: the
    status of the answer is not looked at, and whatever the page holds the
    result is an array, in which every entry has a string [id] and a
    truthy [name]. *)
Theorem getCircuits_entries `{Host} tr res :
  exec Aiseg2.getCircuits tr res ->
  exists o,
    exec (Aiseg2.digestFetch (lit "/page/setting/installation/734") Aiseg2.GET None) tr o /\
    match obind o text with
    | Err e => res = Err e
    | Ok html =>
        res = Ok (VArr (Aiseg2.circuits_of_html html)) /\
        Forall circuit_shape (Aiseg2.circuits_of_html html)
    end.
Proof. apply getCircuits_exec. Qed.

Lemma getCircuits_entries_witness :
  let r := run (demo_status 500 kitchen_script) [] (@Aiseg2.getCircuits demo_host) in
  r.2 = Ok (VArr [kitchen]) /\ circuit_shape kitchen.
Proof.
  intros r.
  destruct (@getCircuits_entries demo_host r.1 r.2 (run_exec _ _ _)) as (o & _ & Ho).
  assert (r.2 = Ok (VArr [kitchen])) as Hr by (vm_compute; reflexivity).
  split; [exact Hr|].
  rewrite Hr in Ho. destruct (obind o text) as [html|e]; [|discriminate].
  destruct Ho as [[= <-] Hs]. now inversion Hs.
Defined.

(** ** Daily totals *)

Lemma scraped_null_or_number o : null_or_number (scraped o).
Proof.
  unfold scraped, null_or_number. destruct o as [r|e]; [|auto].
  destruct (text r) as [html|e]; [|auto].
  unfold Aiseg2.parseKwh. destruct (Aiseg2.kwh_match html); eauto.
Qed.

(** X8. [getTotals] never rejects: its result always has the four keys
    [solar], [consumption], [purchase] and [sold] in this order, each
    [null] or a number, the value of a category being what its own page
    gives ([null] when its exchange or the reading of its body fails or
    the page shows no kWh span, whatever becomes of the other three).  The
    four exchanges run together: at most four requests are in flight at
    any instant and none is when it returns. *)
Theorem getTotals_never_rejects `{Host} tr res :
  aexec Aiseg2.getTotals tr res ->
  (exists o0 o1 o2 o3 t0 t1 t2 t3,
     res = Ok (VObj [(lit "solar", scraped o0); (lit "consumption", scraped o1);
                     (lit "purchase", scraped o2); (lit "sold", scraped o3)]) /\
     Forall null_or_number [scraped o0; scraped o1; scraped o2; scraped o3] /\
     exec (Aiseg2.digestFetch (lit "/page/graph/51111") Aiseg2.GET None) t0 o0 /\
     exec (Aiseg2.digestFetch (lit "/page/graph/52111") Aiseg2.GET None) t1 o1 /\
     exec (Aiseg2.digestFetch (lit "/page/graph/53111") Aiseg2.GET None) t2 o2 /\
     exec (Aiseg2.digestFetch (lit "/page/graph/54111") Aiseg2.GET None) t3 o3 /\
     Forall (fun t => t `sublist_of` tr) [t0; t1; t2; t3]) /\
  balance tr = 0 /\ in_flight_at_most 4 tr.
Proof.
  intros Hx. split.
  - apply getTotals_categories in Hx
      as (o0 & o1 & o2 & o3 & t0 & t1 & t2 & t3 & -> & H0 & H1 & H2 & H3 & Hs).
    exists o0, o1, o2, o3, t0, t1, t2, t3. split; [reflexivity|].
    split; [repeat (constructor; [apply scraped_null_or_number|]); constructor|]. auto.
  - destruct Hx as (xs & ttr & tr2 & Hall & [-> ->] & ->). rewrite app_nil_r.
    destruct (all_exec_balance _ _ _ Hall) as (_ & Hb & Hpre).
    split; [exact Hb|]. intros pre suf Hp. exact (Hpre _ _ Hp).
Qed.

Lemma getTotals_never_rejects_witness :
  let r := arun (demo_flaky (kwh_page "12.5")) [] (@Aiseg2.getTotals demo_host) in
  balance r.1 = 0 /\ in_flight_at_most 4 r.1.
Proof.
  intros r.
  exact (proj2 (@getTotals_never_rejects demo_host r.1 r.2 (arun_exec _ _ _))).
Defined.

(** ** Nicknames: annotating twice *)

Lemma obj_has_set k v o : obj_has k (obj_set k v o) = true.
Proof.
  induction o as [|[k' v'] o IH]; simpl.
  - now rewrite str_eqb_refl.
  - destruct (str_eqb k k') eqn:E; simpl; [now rewrite str_eqb_refl|].
    now rewrite E, IH.
Qed.

Lemma obj_has_set_mono k k' v o : obj_has k o = true -> obj_has k (obj_set k' v o) = true.
Proof.
  induction o as [|[k2 v2] o IH]; simpl; [discriminate|].
  destruct (str_eqb k' k2) eqn:E; simpl.
  - apply str_eqb_eq in E as ->. auto.
  - destruct (str_eqb k k2); simpl; auto.
Qed.

(** Writing the value a property has leaves the object as it is. *)
Lemma obj_set_same k o : obj_has k o = true -> obj_set k (obj_get k o) o = o.
Proof.
  induction o as [|[k' v'] o IH]; simpl; [discriminate|].
  destruct (str_eqb k k') eqn:E; simpl.
  - apply str_eqb_eq in E as ->. reflexivity.
  - intros Hh. now rewrite IH.
Qed.

Lemma obj_set_set k v o : obj_set k v (obj_set k v o) = obj_set k v o.
Proof.
  rewrite <- (obj_get_set_eq k v o) at 1. apply obj_set_same, obj_has_set.
Qed.

Lemma uint_codes_head u c s : uint_codes u = c :: s -> is_digit c = true.
Proof. destruct u; simpl; try discriminate; now intros [= <- _]. Qed.

(** The indices of a string or an array are not names. *)
Lemma obj_get_indices {A} (k : str) (g : nat -> A -> JsVal) (l : list A) (h : nat -> nat) :
  match k with
  | c :: _ => is_digit c = false
  | [] => False
  end ->
  obj_get k (imap (fun i x => (nat_digits (Z.of_nat (h i)), g i x)) l) = VUndef.
Proof.
  intros Hk. revert g h. induction l as [|x l IH]; intros g h; simpl; [reflexivity|].
  assert (str_eqb k (nat_digits (Z.of_nat (h 0%nat))) = false) as ->.
  { unfold nat_digits. destruct (uint_codes _) as [|c s] eqn:E.
    - destruct k; [contradiction | reflexivity].
    - apply uint_codes_head in E. destruct k as [|c' k]; [contradiction|]. simpl.
      destruct (N.eqb c' c) eqn:Ec; [|reflexivity].
      apply N.eqb_eq in Ec as ->. congruence. }
  apply (IH (fun i => g (S i)) (fun i => h (S i))).
Qed.

Lemma field_spread (d : JsVal) (k : string) :
  match lit k with
  | c :: _ => is_digit c = false
  | [] => False
  end ->
  obj_get (lit k) (spread d) = field d k.
Proof.
  intros Hk. unfold field. destruct d as [| |b|n|s|l|o|nv]; simpl; try reflexivity.
  - exact (obj_get_indices (lit k) (fun _ c => VStr [c]) s (fun i => i) Hk).
  - exact (obj_get_indices (lit k) (fun _ x => x) l (fun i => i) Hk).
Qed.

Lemma applyName_twice nn d d' :
  Server.applyName nn d = Ok d' -> Server.applyName nn d' = Ok d'.
Proof.
  intros Ha. pose proof Ha as Hd.
  apply key_of_applyName in Hd as (Hn & key & Hk & ->).
  destruct (truthy (Server.nickname_of nn key)) eqn:Et; [|exact Ha].
  apply key_of_applyName. split; [reflexivity|]. exists key. split.
  - unfold key_of in *. unfold field at 1 2. cbn [get_prop_opt].
    rewrite !obj_get_set_ne by reflexivity.
    rewrite (field_spread d "nodeId") by reflexivity.
    rewrite (field_spread d "eoj") by reflexivity. exact Hk.
  - rewrite Et. cbn [spread]. now rewrite obj_set_set.
Qed.

Lemma omap_fixed {A} (f : A -> outcome A) l l' :
  (forall a b, f a = Ok b -> f b = Ok b) ->
  omap f l = Ok l' -> omap f l' = Ok l'.
Proof.
  intros Hf. revert l'; induction l as [|a l IH]; intros l'; simpl.
  - now intros [= <-].
  - destruct (f a) as [b|e] eqn:Ea; simpl; [|discriminate].
    destruct (omap f l) as [bs|e] eqn:El; simpl; [|discriminate].
    intros [= <-]. simpl. now rewrite (Hf _ _ Ea), (IH _ eq_refl).
Qed.

Lemma applyNames_twice nn l r :
  Server.applyNames nn l = Ok r -> Server.applyNames nn r = Ok r.
Proof.
  unfold Server.applyNames.
  destruct (js_or l (VArr [])) as [| |b|n|s|ds|o|nv]; try discriminate.
  destruct (omap (Server.applyName nn) ds) as [ds'|e] eqn:E; simpl; [|discriminate].
  intros [= <-]. unfold js_or. simpl.
  now rewrite (omap_fixed _ _ _ (applyName_twice nn) E).
Qed.

(** X9. Annotating an annotated device status with the same nicknames
    changes nothing: what [applyNicknames] returns is a fixed point of
    [applyNicknames], whatever the payload is. *)
Theorem applyNicknames_idempotent nn data data' :
  Server.applyNicknames nn data = Ok data' ->
  Server.applyNicknames nn data' = Ok data'.
Proof.
  unfold Server.applyNicknames.
  destruct (truthy data) eqn:Et; simpl.
  - destruct (Server.applyNames nn (get_prop_opt data (lit "acs"))) as [acs|e] eqn:Ea;
      simpl; [|discriminate].
    destruct (Server.applyNames nn (get_prop_opt data (lit "fhs"))) as [fhs|e] eqn:Ef;
      simpl; [|discriminate].
    intros [= <-]. cbn [truthy negb get_prop_opt spread].
    rewrite obj_get_set_ne by reflexivity. rewrite !obj_get_set_eq.
    rewrite (applyNames_twice _ _ _ Ea), (applyNames_twice _ _ _ Ef). simpl. do 2 f_equal.
    set (o := obj_set (lit "acs") acs (spread data)).
    assert (obj_set (lit "acs") acs (obj_set (lit "fhs") fhs o) = obj_set (lit "fhs") fhs o)
      as ->.
    { assert (obj_get (lit "acs") (obj_set (lit "fhs") fhs o) = acs) as Hg
        by (rewrite obj_get_set_ne by reflexivity; apply obj_get_set_eq).
      rewrite <- Hg at 1. apply obj_set_same, obj_has_set_mono, obj_has_set. }
    apply obj_set_set.
  - intros [= <-]. now rewrite Et.
Qed.

Lemma applyNicknames_idempotent_witness :
  let nn := Server.nicknames demo_devices_state in
  let data := Server.devices (Server.cache demo_devices_state) in
  Server.applyNicknames nn data = Ok data.
Proof.
  intros nn data.
  apply (applyNicknames_idempotent nn
           (VObj [(lit "token", VStr (lit "32140"));
                  (lit "acs", VArr [VObj [(lit "nodeId", VStr (lit "1073741827"));
                                          (lit "eoj", VStr (lit "0x013001"));
                                          (lit "name", VStr (lit "AC-A"))]]);
                  (lit "fhs", VArr [])])).
  vm_compute. reflexivity.
Defined.

(** ** Nicknames: the handler *)

Lemma nickname_label_Some name t :
  Server.nickname_label name = Ok (Some t) ->
  exists s, name = VStr s /\ t = trim s /\ t <> [].
Proof.
  unfold Server.nickname_label. destruct (truthy name); [|discriminate].
  destruct name as [| |b|n|s|l|o|nv]; try discriminate.
  destruct (trim s) as [|c t'] eqn:E; [discriminate|].
  intros [= <-]. exists s. rewrite E. repeat split. discriminate.
Qed.

Lemma nickname_label_Err name e :
  Server.nickname_label name = Err e ->
  e = TypeError /\ truthy name = true /\ forall s, name <> VStr s.
Proof.
  unfold Server.nickname_label. destruct (truthy name); [|discriminate].
  destruct name; try discriminate; intros [= <-]; repeat split; discriminate.
Qed.

(** What is read under [key] after [nicknames[key] = t]. *)
Lemma nickname_store_shown key t nn :
  (Server.nickname_store key (VStr t) nn = <[key := VStr t]> nn /\
   Server.nickname_of (Server.nickname_store key (VStr t) nn) key = VStr t /\
   (key <> lit "__proto__" \/ is_Some (nn !! key))) \/
  (key = lit "__proto__" /\ nn !! key = None /\
   Server.nickname_store key (VStr t) nn = nn /\
   Server.nickname_of (Server.nickname_store key (VStr t) nn) key =
     VNative ObjectPrototype).
Proof.
  unfold Server.nickname_store.
  destruct (str_eqb key (lit "__proto__")) eqn:Ek.
  - apply str_eqb_eq in Ek as ->. destruct (nn !! lit "__proto__") as [v|] eqn:En.
    + left. rewrite bool_decide_eq_true_2 by eauto. cbn [negb andb].
      split; [reflexivity|]. split; [|right; eauto].
      unfold Server.nickname_of. now rewrite lookup_insert_eq.
    + right. rewrite bool_decide_eq_false_2 by (intros [? ?]; discriminate).
      cbn [negb andb]. repeat split; auto.
      unfold Server.nickname_of. now rewrite En.
  - left. cbn [andb]. split; [reflexivity|]. split.
    + unfold Server.nickname_of. now rewrite lookup_insert_eq.
    + left. intros ->. now rewrite str_eqb_refl in Ek.
Qed.

Lemma nickname_store_other key v nn k :
  k <> key -> Server.nickname_store key v nn !! k = nn !! k.
Proof.
  intros Hk. unfold Server.nickname_store.
  destruct (_ && _); [reflexivity|]. now apply lookup_insert_ne.
Qed.

Lemma renamed_entries nn key l r ds :
  Server.applyNames nn l = Ok r -> l = VArr ds ->
  truthy (Server.nickname_of nn key) = true ->
  exists ds', r = VArr ds' /\ length ds' = length ds /\
    forall i d, ds !! i = Some d -> key_of d = Ok key ->
      exists d', ds' !! i = Some d' /\ field d' "nickname" = Server.nickname_of nn key.
Proof.
  intros Ha Hl Ht.
  destruct (applyNames_array _ _ _ Ha ds Hl) as (ds' & -> & Hlen & Hds).
  exists ds'. split; [reflexivity|]. split; [exact Hlen|].
  intros i d Hi Hk. destruct (Hds i d Hi) as (d' & Hi' & Hd').
  exists d'. split; [exact Hi'|].
  apply key_of_applyName in Hd' as (_ & key' & Hk' & ->).
  assert (key' = key) as -> by congruence.
  rewrite Ht. unfold field. simpl. apply obj_get_set_eq.
Qed.

(** X10. When [POST /api/nicknames] is given a name to store and answers
    200, the key of the request has converted, the name is the trimmed
    one and is not empty, and the map is written once, as it then is in
    memory.  The name is stored under the key, and is what is read under
    it, unless the key is [__proto__] and the map has no property of that
    name of its own: then nothing is stored and [Object.prototype] is
    read under the key.  The cached device status is annotated again: in
    its two lists every entry of the key of the request now carries what
    is read under the key, so that the next read of the cache shows it. *)
Theorem rename_shows_in_cache req st tr reply st' t :
  exec (Server.post_api_nicknames req st) tr (Ok reply, st') ->
  Server.code reply = 200 ->
  Server.nickname_label (field req "name") = Ok (Some t) ->
  let before := Server.devices (Server.cache st) in
  let after := Server.devices (Server.cache st') in
  reply = ok_true /\
  (exists s, field req "name" = VStr s /\ t = trim s /\ t <> []) /\
  tr = [EvWrite (Server.nicknames st') (Ok ())] /\
  exists key shown,
    request_key req = Ok key /\
    shown = Server.nickname_of (Server.nicknames st') key /\
    ((Server.nicknames st' = <[key := VStr t]> (Server.nicknames st) /\
      shown = VStr t /\
      (key <> lit "__proto__" \/ is_Some (Server.nicknames st !! key))) \/
     (key = lit "__proto__" /\ Server.nicknames st !! key = None /\
      Server.nicknames st' = Server.nicknames st /\
      shown = VNative ObjectPrototype)) /\
    (forall g ds, g = "acs"%string \/ g = "fhs"%string ->
       field before g = VArr ds ->
       exists ds', field after g = VArr ds' /\ length ds' = length ds /\
         forall i d, ds !! i = Some d -> key_of d = Ok key ->
           exists d', ds' !! i = Some d' /\ field d' "nickname" = shown).
Proof.
  intros Hx Hc Hl before after.
  pose proof (nickname_label_Some _ _ Hl) as Hs.
  assert (t <> []) as Hne by (destruct Hs as (? & _ & _ & ?); assumption).
  unfold Server.post_api_nicknames in Hx. unfold field in Hl.
  destruct (negb (truthy (get_prop_opt req (lit "nodeId"))) ||
            negb (truthy (get_prop_opt req (lit "eoj")))) eqn:Eid.
  { destruct Hx as [_ [= -> _]]. discriminate Hc. }
  fold (field req "nodeId") in Hx. fold (field req "eoj") in Hx.
  fold (request_key req) in Hx.
  destruct (request_key req) as [key|e]; cbn [obind] in Hx;
    [|destruct Hx as [_ Hx]; discriminate].
  rewrite Hl in Hx. cbn [obind] in Hx.
  destruct Hx as ([[]|e] & tr' & -> & Hx); simpl in Hx;
    [|destruct Hx as (_ & Hx); discriminate].
  set (nn := Server.nickname_store key (VStr t) (Server.nicknames st)) in *.
  assert (truthy (Server.nickname_of nn key) = true) as Htr.
  { destruct (nickname_store_shown key t (Server.nicknames st))
      as [(_ & Hs' & _)|(_ & _ & _ & Hs')]; fold nn in Hs'; rewrite Hs'.
    - destruct t; [contradiction | reflexivity].
    - reflexivity. }
  assert (forall ds g, get_prop_opt before g = VArr ds -> truthy before = true) as Htruthy.
  { intros ds g. destruct before; simpl; try discriminate; auto. }
  assert (Server.nicknames st' = nn /\ tr' = [] /\ reply = ok_true /\
          (truthy before = true ->
           Server.applyNicknames nn before = Ok after)) as (Hnn & -> & -> & Hon).
  { fold before in Hx. destruct (truthy before) eqn:Et.
    - destruct (Server.applyNicknames nn before) as [data|e] eqn:Ea;
        simpl in Hx; destruct Hx as (-> & Hx); [|discriminate].
      injection Hx as -> ->. unfold after. simpl. auto.
    - simpl in Hx. destruct Hx as (-> & Hx). injection Hx as -> ->.
      repeat split; auto. discriminate. }
  split; [reflexivity|]. split; [exact Hs|]. split; [now rewrite Hnn|].
  exists key, (Server.nickname_of nn key).
  split; [reflexivity|]. split; [now rewrite Hnn|]. split.
  - rewrite Hnn. exact (nickname_store_shown key t (Server.nicknames st)).
  - intros g ds Hg Hds. unfold field in Hds. pose proof (Htruthy _ _ Hds) as Et.
    apply applyNicknames_groups in Hon as (acs & fhs & Hacs & Hfhs & Ha & Hf);
      [|exact Et|exact Et].
    destruct Hg as [-> | ->].
    + rewrite Ha. exact (renamed_entries _ _ _ _ ds Hacs Hds Htr).
    + rewrite Hf. exact (renamed_entries _ _ _ _ ds Hfhs Hds Htr).
Qed.

Lemma rename_shows_in_cache_witness :
  let r := run (demo_client (Err TypeError)) []
               (Server.post_api_nicknames demo_rename demo_devices_state) in
  Server.nicknames r.2.2 !! lit "1073741827_0x013001" = Some (VStr (lit "Study")) /\
  exists d, field (Server.devices (Server.cache r.2.2)) "acs" = VArr [d] /\
            field d "nickname" = VStr (lit "Study").
Proof.
  intros r.
  destruct (rename_shows_in_cache demo_rename demo_devices_state r.1 ok_true r.2.2
              (lit "Study")) as (_ & _ & _ & key & shown & Hk & _ & Hst & Hacs);
    try reflexivity.
  - assert (r.2.1 = Ok ok_true) as <- by (vm_compute; reflexivity).
    rewrite <- surjective_pairing. apply run_exec.
  - injection Hk as <-.
    destruct Hst as [(Hnn & -> & _)|(Hp & _)]; [|discriminate Hp].
    split; [rewrite Hnn; apply lookup_insert_eq|].
    destruct (Hacs "acs"%string [demo_ac] (or_introl eq_refl) eq_refl)
      as (ds' & Hf & Hlen & Hds).
    destruct (Hds 0%nat demo_ac eq_refl eq_refl) as (d' & Hd' & Hn).
    destruct ds' as [|d0 [|d1 ds']]; simpl in Hlen; try discriminate.
    simpl in Hd'. injection Hd' as ->. exists d'. split; [exact Hf | exact Hn].
Defined.

(** X11. [POST /api/nicknames] writes the map at most once.  Without a
    write nothing has changed: the answer is 400 exactly when [nodeId] or
    [eoj] is missing or falsy; otherwise the conversion of [nodeId] or
    [eoj] to the key has thrown, or the key has converted and a name that
    is truthy but no string has thrown a type error.  After a write,
    successful or not, the key has converted, the map in memory is the
    map that was written and differs from the old one at most at the key;
    the cache is changed only with the answer 200, so a failed write
    leaves the new mapping in memory, away from the file and from the
    cache. *)
Theorem nicknames_write_once req st tr r st' :
  exec (Server.post_api_nicknames req st) tr (r, st') ->
  (tr = [] /\ st' = st /\
   ((r = Ok (Server.mkReply 400 (Server.ErrorText (lit "nodeId and eoj required"))) /\
     (truthy (field req "nodeId") = false \/ truthy (field req "eoj") = false)) \/
    (truthy (field req "nodeId") = true /\ truthy (field req "eoj") = true /\
     ((exists e, request_key req = Err e /\ r = Err e) \/
      (exists key, request_key req = Ok key /\ r = Err TypeError /\
         truthy (field req "name") = true /\
         forall s, field req "name" <> VStr s))))) \/
  (exists key nn w,
     request_key req = Ok key /\
     tr = [EvWrite nn w] /\
     truthy (field req "nodeId") = true /\ truthy (field req "eoj") = true /\
     Server.nicknames st' = nn /\
     Server.scheduled st' = Server.scheduled st /\
     (forall k, k <> key -> nn !! k = Server.nicknames st !! k) /\
     match w with
     | Err e => r = Err e /\ Server.cache st' = Server.cache st
     | Ok _ => r = Ok ok_true \/ (exists e, r = Err e /\ Server.cache st' = Server.cache st)
     end).
Proof.
  unfold Server.post_api_nicknames. fold (field req "nodeId") (field req "eoj").
  fold (field req "name") (request_key req). intros Hx.
  destruct (truthy (field req "nodeId")) eqn:En; simpl in Hx;
    [|destruct Hx as [-> [= -> ->]]; left; auto 10].
  destruct (truthy (field req "eoj")) eqn:Ee; simpl in Hx;
    [|destruct Hx as [-> [= -> ->]]; left; auto 10].
  destruct (request_key req) as [key|e]; cbn [obind] in Hx;
    [|destruct Hx as [-> [= -> ->]]; left; eauto 10].
  destruct (Server.nickname_label (field req "name")) as [label|e] eqn:El;
    cbn [obind] in Hx.
  - right. destruct Hx as (w & tr' & -> & Hx).
    set (nn := match label with
               | Some t => Server.nickname_store key (VStr t) (Server.nicknames st)
               | None => delete key (Server.nicknames st)
               end) in *.
    assert (forall k, k <> key -> nn !! k = Server.nicknames st !! k) as Hk.
    { intros k Hne. unfold nn. destruct label.
      - now apply nickname_store_other.
      - now apply lookup_delete_ne. }
    exists key, nn, w. destruct w as [[]|e]; simpl in Hx.
    + destruct (truthy (Server.devices (Server.cache st))).
      * destruct (Server.applyNicknames nn (Server.devices (Server.cache st))) as [data|e];
          simpl in Hx; destruct Hx as [-> [= -> ->]]; repeat split; eauto.
      * destruct Hx as [-> [= -> ->]]. repeat split; auto.
    + destruct Hx as [-> [= -> ->]]. repeat split; auto.
  - left. destruct Hx as [-> [= -> ->]]. split; [reflexivity|]. split; [reflexivity|].
    right. apply nickname_label_Err in El as (-> & Ht & Hs). eauto 10.
Qed.

Lemma nicknames_write_once_witness :
  let r := run (demo_client (Err TypeError)) []
               (Server.post_api_nicknames demo_rename demo_devices_state) in
  exists nn, r.1 = [EvWrite nn (Ok ())] /\ Server.nicknames r.2.2 = nn.
Proof.
  intros r.
  destruct (nicknames_write_once demo_rename demo_devices_state r.1 r.2.1 r.2.2)
    as [(Htr & _)|(key & nn & w & _ & Htr & _ & _ & Hnn & _)].
  - rewrite <- surjective_pairing. apply run_exec.
  - discriminate Htr.
  - exists nn. split; [|exact Hnn]. rewrite Htr.
    assert (exists m, r.1 = [EvWrite m (Ok ())]) as (m & Hm)
      by (eexists; vm_compute; reflexivity).
    rewrite Hm in Htr. now injection Htr as -> ->.
Defined.

(** ** Control endpoint: supported actions *)

Lemma dispatch_supported a n e s v token :
  a ∈ supported_actions ->
  exists op, Server.dispatch (VStr a) n e s v token = Some op /\ op_token op = Some token.
Proof.
  unfold supported_actions. rewrite !elem_of_cons, elem_of_nil.
  intros [->|[->|[->|[->|[->|[->|[->|[->|[]]]]]]]]]; eexists; split; reflexivity.
Qed.

(** X12. [POST /api/devices/control] never touches the cache or the
    nicknames, and schedules the one refresh after 2500 ms exactly with
    the answer 200.  For one of the eight actions it resolves the token
    (the token of the cached device status when truthy, with no call;
    otherwise one call of [getToken], whose error is answered with 502 and
    no operation), then calls exactly one control operation, with that
    token.  Whatever the operation returns is answered with 200, a value
    that reports an error of the appliance included; 502 is answered only
    when the operation throws, and then nothing is scheduled. *)
Theorem control_reply_and_refresh req st tr reply st' :
  exec (Server.post_api_devices_control req st) tr (reply, st') ->
  Server.cache st' = Server.cache st /\
  Server.nicknames st' = Server.nicknames st /\
  (Server.code reply = 200 -> st' = Server.schedule_refresh st) /\
  (Server.code reply <> 200 -> st' = st) /\
  (forall a,
     field req "action" = VStr a -> a ∈ supported_actions ->
     exists pre t,
       resolved_token st pre t /\
       match t with
       | Err e => tr = pre /\ reply = Server.mkReply 502 (Server.ErrorOf e)
       | Ok token =>
           exists op o,
             tr = pre ++ [EvCall op o] /\ op_token op = Some token /\
             reply = match o with
                     | Ok result => Server.mkReply 200 (Server.Json result)
                     | Err e => Server.mkReply 502 (Server.ErrorOf e)
                     end
       end).
Proof.
  unfold Server.post_api_devices_control, Server.controlToken. intros Hx.
  apply exec_bind in Hx as (t & pre & tr1 & Ht & Hx & ->).
  assert (resolved_token st pre t) as Hres.
  { unfold resolved_token, field.
    destruct (truthy (get_prop_opt (Server.devices (Server.cache st)) (lit "token"))).
    - destruct Ht as [-> ->]. auto.
    - destruct Ht as (o & tr' & -> & [-> ->]). reflexivity. }
  clear Ht. destruct t as [token|e].
  - fold (field req "action") in Hx.
    destruct (Server.dispatch (field req "action") _ _ _ _ token) as [op|] eqn:Ed.
    + destruct Hx as ([result|e] & tr' & -> & [-> [= -> ->]]).
      * repeat split; try reflexivity; [intros Hc; now contradiction Hc|].
        intros a Ha Hs. exists pre, (Ok token). split; [exact Hres|].
        exists op, (Ok result). split; [reflexivity|]. split; [|reflexivity].
        rewrite Ha in Ed.
        destruct (dispatch_supported a (get_prop_opt req (lit "nodeId"))
                    (get_prop_opt req (lit "eoj")) (get_prop_opt req (lit "state"))
                    (get_prop_opt req (lit "value")) token Hs) as (op' & Hd & Htok).
        rewrite Hd in Ed. now injection Ed as <-.
      * repeat split; try reflexivity; [discriminate|].
        intros a Ha Hs. exists pre, (Ok token). split; [exact Hres|].
        exists op, (Err e). split; [reflexivity|]. split; [|reflexivity].
        rewrite Ha in Ed.
        destruct (dispatch_supported a (get_prop_opt req (lit "nodeId"))
                    (get_prop_opt req (lit "eoj")) (get_prop_opt req (lit "state"))
                    (get_prop_opt req (lit "value")) token Hs) as (op' & Hd & Htok).
        rewrite Hd in Ed. now injection Ed as <-.
    + destruct Hx as [-> [= -> ->]].
      repeat split; try reflexivity; [discriminate|].
      intros a Ha Hs. rewrite Ha in Ed.
      destruct (dispatch_supported a (get_prop_opt req (lit "nodeId"))
                  (get_prop_opt req (lit "eoj")) (get_prop_opt req (lit "state"))
                  (get_prop_opt req (lit "value")) token Hs) as (op' & Hd & _).
      rewrite Hd in Ed. discriminate.
  - destruct Hx as [-> [= -> ->]].
    repeat split; try reflexivity; [discriminate|].
    intros a Ha Hs. exists pre, (Err e). split; [exact Hres|].
    now rewrite app_nil_r.
Qed.

Lemma control_reply_and_refresh_witness :
  let err := VObj [(lit "result", VStr (lit "error")); (lit "status", VNum (Dec 500 0))] in
  let r := run (demo_client (Ok err)) []
               (Server.post_api_devices_control demo_toggle demo_devices_state) in
  r.2.1 = Server.mkReply 200 (Server.Json err) /\
  Server.scheduled r.2.2 = [2500].
Proof.
  intros err r.
  destruct (control_reply_and_refresh demo_toggle demo_devices_state r.1 r.2.1 r.2.2)
    as (_ & _ & Hs & _ & _).
  - rewrite <- surjective_pairing. apply run_exec.
  - assert (r.2.1 = Server.mkReply 200 (Server.Json err)) as Hr by (vm_compute; reflexivity).
    split; [exact Hr|]. rewrite Hs; [reflexivity|]. now rewrite Hr.
Defined.

(** ** The circuit cache *)

Lemma aexec_abind {A B} (p : aprog A) (f : A -> aprog B) tr r :
  aexec (abind p f) tr r <->
  exists a tr1 tr2, aexec p tr1 a /\ aexec (f a) tr2 r /\ tr = tr1 ++ tr2.
Proof.
  revert tr; induction p as [a|X q k IH|X ts k IH]; intros tr; simpl.
  - split.
    + intros Hx. exists a, [], tr. auto.
    + intros (a' & tr1 & tr2 & [-> ->] & Hx & ->). exact Hx.
  - split.
    + intros (x & tr1 & tr2 & Hq & Hk & ->).
      apply IH in Hk as (a & tr3 & tr4 & H3 & H4 & ->).
      exists a, (tr1 ++ tr3), tr4. split; [|split; [exact H4 | now rewrite app_assoc]].
      exists x, tr1, tr3. auto.
    + intros (a & tr1 & tr2 & (x & tr3 & tr4 & Hq & Hk & ->) & Hf & ->).
      exists x, tr3, (tr4 ++ tr2). split; [exact Hq|]. split; [|now rewrite app_assoc].
      apply IH. exists a, tr4, tr2. auto.
  - split.
    + intros (xs & tr1 & tr2 & Hq & Hk & ->).
      apply IH in Hk as (a & tr3 & tr4 & H3 & H4 & ->).
      exists a, (untag tr1 ++ tr3), tr4. split; [|split; [exact H4 | now rewrite app_assoc]].
      exists xs, tr1, tr3. auto.
    + intros (a & tr1 & tr2 & (xs & tr3 & tr4 & Hq & Hk & ->) & Hf & ->).
      exists xs, tr3, (tr4 ++ tr2). split; [exact Hq|]. split; [|now rewrite app_assoc].
      apply IH. exists a, tr4, tr2. auto.
Qed.

Section CircuitCacheFacts.
Context `{Host}.

Lemma entries_stored cs :
  Forall circuit_shape cs ->
  exists l, CircuitCache.entries cs = Some l /\ length l = length cs.
Proof.
  intros Hs. unfold CircuitCache.entries.
  assert (is_Some (mapM CircuitCache.entry cs)) as [l Hl].
  { apply mapM_is_Some. eapply Forall_impl; [exact Hs|].
    intros c (id & name & -> & _). simpl. eauto. }
  exists l. split; [exact Hl|]. symmetry. exact (length_mapM _ _ _ Hl).
Qed.

Lemma getAllCircuitKwh_length l tr kwh :
  aexec (Aiseg2.getAllCircuitKwh l) tr kwh -> length kwh = length l.
Proof.
  unfold Aiseg2.getAllCircuitKwh. intros Hx.
  apply (batches_exec l (Aiseg2.batch_starts (length l)) (replicate (length l) VNull))
    in Hx as (runs & _ & _ & ->).
  now rewrite fold_stores_length, length_replicate.
Qed.

Lemma refreshKwh_exec cs st tr r :
  Forall circuit_shape cs ->
  aexec (CircuitCache.refreshKwh (VArr cs) st) tr r ->
  exists res st', r = Some (res, st') /\ kwh_events st cs tr res st'.
Proof.
  intros Hs (now & tr1 & tr2 & (t & tr0 & -> & [-> ->]) & Hx & ->).
  unfold Server.TTL_circuitKwh in Hx.
  destruct (300000 <? t - Server.circuitKwhAt (Server.cache st)) eqn:E.
  - apply Z.ltb_lt in E.
    destruct (entries_stored cs Hs) as (l & Hl & Hlen). rewrite Hl in Hx.
    apply aexec_abind in Hx as (kwh & trk & tr3 & Hk & (now' & tr4 & tr5 & Hn & [-> ->] & ->) & ->).
    destruct Hn as (t' & tr6 & -> & [-> ->]).
    eexists _, _. split; [reflexivity|]. exists t. right. split; [exact E|].
    exists l, trk, kwh, t'. split; [exact Hl|]. split; [exact Hk|].
    split; [rewrite <- Hlen; exact (getAllCircuitKwh_length _ _ _ Hk)|].
    split; [reflexivity|]. auto.
  - apply Z.ltb_ge in E. destruct Hx as [-> ->].
    eexists _, _. split; [reflexivity|]. exists t. left. auto.
Qed.

End CircuitCacheFacts.

(** X13. [fetchCircuits] loads the circuit list at most once.  With a
    list in the cache it makes no exchange for the installation page and
    keeps the list; its events are one reading of the clock or, past the
    TTL of 300 s, the bulk kWh fetch between two readings of the clock.
    With no list it runs [getCircuits] first: when that throws, the error
    is thrown and the cache is unchanged, so that the next call tries
    again; otherwise the list is stored as returned, also when it is
    empty.  What is stored is a list as [getCircuits] returns it. *)
Theorem fetchCircuits_loads_list_once `{Host} st tr r :
  aexec (CircuitCache.fetchCircuits st) tr r ->
  circuits_stored (Server.circuits (Server.cache st)) ->
  (forall cs,
     Server.circuits (Server.cache st) = VArr cs ->
     exists res st',
       r = Some (res, st') /\ kwh_events st cs tr res st' /\
       Server.circuits (Server.cache st') = VArr cs) /\
  (Server.circuits (Server.cache st) = VNull ->
   exists tr1 o,
     exec Aiseg2.getCircuits tr1 o /\
     match o with
     | Err e => tr = tr1 /\ r = Some (Err e, st)
     | Ok v =>
         exists cs tr2 res st',
           v = VArr cs /\ Forall circuit_shape cs /\ tr = tr1 ++ tr2 /\
           kwh_events (CircuitCache.set_circuits v st) cs tr2 res st' /\
           r = Some (res, st') /\ Server.circuits (Server.cache st') = VArr cs
     end).
Proof.
  intros Hx Hst.
  assert (forall st0 cs res st',
            kwh_events st0 cs tr res st' \/ (exists tr2, kwh_events st0 cs tr2 res st') ->
            Server.circuits (Server.cache st') = Server.circuits (Server.cache st0)) as Hkeep.
  { intros st0 cs res st'
      [(now & [(_ & _ & _ & ->)|(_ & l & trk & kwh & now' & _ & _ & _ & _ & _ & ->)])
      |(tr2 & now & [(_ & _ & _ & ->)|(_ & l & trk & kwh & now' & _ & _ & _ & _ & _ & ->)])];
      reflexivity. }
  unfold CircuitCache.fetchCircuits in Hx. split.
  - intros cs Hcs. rewrite Hcs in Hx. simpl in Hx.
    destruct Hst as [Hn|(cs' & Hcs' & Hs)]; [congruence|].
    assert (cs' = cs) as -> by congruence.
    apply refreshKwh_exec in Hx as (res & st' & -> & Hk); [|exact Hs].
    exists res, st'. split; [reflexivity|]. split; [exact Hk|].
    rewrite <- Hcs. apply (Hkeep st cs res st'). now left.
  - intros Hn. rewrite Hn in Hx. simpl in Hx.
    destruct Hx as (o & tr1 & tr2 & Hg & Hx & ->).
    exists tr1, o. split; [exact Hg|].
    destruct o as [v|e].
    + pose proof Hg as Hg'. apply getCircuits_exec in Hg' as (o' & _ & Ho').
      destruct (obind o' text) as [html|e]; [|discriminate].
      destruct Ho' as [[= ->] Hs].
      apply refreshKwh_exec in Hx as (res & st' & -> & Hk); [|exact Hs].
      exists (Aiseg2.circuits_of_html html), tr2, res, st'.
      repeat split; auto.
      rewrite (Hkeep (CircuitCache.set_circuits (VArr (Aiseg2.circuits_of_html html)) st)
                 (Aiseg2.circuits_of_html html) res st'); [reflexivity|].
      right. eauto.
    + destruct Hx as [-> ->]. now rewrite app_nil_r.
Qed.

Lemma fetchCircuits_loads_list_once_witness :
  let r := arun (demo_status 500 []) [] (@CircuitCache.fetchCircuits demo_host fresh_state) in
  exists res st', r.2 = Some (res, st') /\ Server.circuits (Server.cache st') = VArr [].
Proof.
  intros r.
  destruct (@fetchCircuits_loads_list_once demo_host fresh_state r.1 r.2 (arun_exec _ _ _))
    as [_ Hnull]; [now left|].
  destruct (Hnull eq_refl) as (tr1 & o & _ & Ho).
  assert (exists d s, r.2 = Some (Ok d, s) /\ Server.circuits (Server.cache s) = VArr [])
    as (d & s & Hr & Hs) by (eexists _, _; vm_compute; split; reflexivity).
  exists (Ok d), s. split; [exact Hr | exact Hs].
Defined.

(** X14. An empty circuit list is kept like any other: once
    [cache.circuits] is the empty array (which is truthy), [fetchCircuits]
    sends no request at all, neither for the installation page nor for a
    kWh page, and keeps the empty list.  It reads the clock: when the
    time read is within 300 s of the last kWh refresh, that is its only
    event, the answer is the cached kWh list and the cache is unchanged;
    when it is past that, the clock is read once more, the answer is the
    empty list, and the empty list is cached as the kWh list with the
    time read last. *)
Theorem empty_circuit_list_is_kept `{Host} st tr r :
  aexec (CircuitCache.fetchCircuits st) tr r ->
  Server.circuits (Server.cache st) = VArr [] ->
  no_request tr /\
  exists now data st',
    r = Some (Ok data, st') /\
    Server.circuits (Server.cache st') = VArr [] /\
    ((now - Server.circuitKwhAt (Server.cache st) <= 300000 /\
      tr = [EvNow now] /\
      data = Server.circuitKwh (Server.cache st) /\ st' = st) \/
     (300000 < now - Server.circuitKwhAt (Server.cache st) /\
      exists now',
        tr = [EvNow now; EvNow now'] /\
        data = VArr [] /\
        st' = CircuitCache.set_circuitKwh (VArr []) now' st)).
Proof.
  intros Hx He. unfold CircuitCache.fetchCircuits in Hx. rewrite He in Hx.
  cbn [truthy] in Hx.
  apply refreshKwh_exec in Hx as (res & st' & -> & now & Hk); [|constructor].
  destruct Hk as [(Hin & -> & -> & ->)
                 |(Hpast & l & trk & kwh & now' & Hl & Hg & _ & -> & -> & ->)].
  - split.
    + intros rq Hq. rewrite elem_of_cons, elem_of_nil in Hq.
      destruct Hq as [Hq|[]]. discriminate Hq.
    + exists now. eexists _, _. split; [reflexivity|]. split; [exact He|].
      left. auto.
  - injection Hl as <-. destruct Hg as [-> ->]. split.
    + intros rq Hq. simpl in Hq. rewrite !elem_of_cons, elem_of_nil in Hq.
      destruct Hq as [Hq|[Hq|[]]]; discriminate Hq.
    + exists now. eexists _, _. split; [reflexivity|]. split; [exact He|].
      right. split; [exact Hpast|]. exists now'. auto.
Qed.

Lemma empty_circuit_list_is_kept_witness :
  let r := arun (demo_status 200 kitchen_script) []
             (@CircuitCache.fetchCircuits demo_host demo_no_circuits) in
  no_request r.1 /\ r.1 = [EvNow 1000000; EvNow 1000001].
Proof.
  intros r.
  destruct (@empty_circuit_list_is_kept demo_host demo_no_circuits r.1 r.2
              (arun_exec _ _ _) eq_refl) as (Hno & _).
  split; [exact Hno|]. vm_compute. reflexivity.
Defined.

(** ** Live polling *)

Lemma startPolling_on st :
  polling_off st \/ polling_on st -> polling_on (Polling.startPolling st).
Proof.
  intros [(Hp & Ht & Hd & Htm)|Hon].
  - destruct st as [p t d tm n cl]. simpl in *. subst.
    exists n, (S n), (S (S n)). simpl. repeat split; lia.
  - pose proof Hon as (a & b & c & Hp & _).
    unfold Polling.startPolling. now rewrite Hp.
Qed.

Lemma stopPolling_off st :
  polling_off st \/ polling_on st -> polling_off (Polling.stopPolling st).
Proof.
  intros [Hoff|(a & b & c & Hp & Ht & Hd & Htm & Hlt & Hn)].
  - pose proof Hoff as (Hp & _). unfold Polling.stopPolling. now rewrite Hp.
  - destruct st as [p t d tm n cl]. simpl in *. subst.
    unfold Polling.stopPolling, Polling.clearInterval, polling_off. simpl.
    rewrite !bool_decide_eq_true_2 by reflexivity. simpl.
    repeat (rewrite bool_decide_eq_false_2 by (intros [= ?]; lia); simpl).
    rewrite ?bool_decide_eq_true_2 by reflexivity. simpl.
    repeat (rewrite bool_decide_eq_false_2 by (intros [= ?]; lia); simpl).
    rewrite ?bool_decide_eq_true_2 by reflexivity. simpl. auto.
Qed.

Lemma handle_keeps st ev :
  polling_off st \/ polling_on st ->
  polling_off (Polling.handle st ev) \/ polling_on (Polling.handle st ev).
Proof.
  intros Hst. destruct ev as [|size]; simpl.
  - right. now apply startPolling_on.
  - destruct (Nat.eqb size 0); [left; now apply stopPolling_off | exact Hst].
Qed.

Lemma after_snoc evs ev : state_after (evs ++ [ev]) = Polling.handle (state_after evs) ev.
Proof. unfold state_after. now rewrite foldl_app. Qed.

Lemma after_off_or_on evs : polling_off (state_after evs) \/ polling_on (state_after evs).
Proof.
  induction evs as [|ev evs IH] using rev_ind.
  - left. repeat split.
  - rewrite after_snoc. now apply handle_keeps.
Qed.

Lemma called_after st (on : bool) evs :
  (if on then polling_on st else polling_off st) ->
  Polling.called (foldl Polling.handle st evs) =
  Polling.called st ++ replicate (switched_on on evs) Polling.pollRealtime.
Proof.
  revert st on; induction evs as [|ev evs IH]; intros st on Hst; cbn [foldl switched_on].
  - simpl. now rewrite app_nil_r.
  - destruct ev as [|size]; cbn [Polling.handle].
    + rewrite (IH (Polling.startPolling st) true).
      * destruct on.
        -- destruct Hst as (a & b & c & Hp & _).
           unfold Polling.startPolling. now rewrite Hp.
        -- destruct Hst as (Hp & _). unfold Polling.startPolling. rewrite Hp. simpl.
           now rewrite <- app_assoc.
      * apply startPolling_on. destruct on; auto.
    + destruct (Nat.eqb size 0).
      * rewrite (IH (Polling.stopPolling st) false).
        -- unfold Polling.stopPolling. now destruct (Polling.pollHandle st).
        -- apply stopPolling_off. destruct on; auto.
      * now apply IH.
Qed.

(** X15. Whatever clients connect and close, the polling is either off
    (no handle held, no interval set) or on (the three handles hold the
    only three intervals: realtime every 5 s, totals every 60 s, devices
    every 10 s): no interval is set twice and none is left behind.  A
    connection switches it on and changes nothing when it is on; a close
    that leaves no client switches it off, any other close changes
    nothing.  The only poll called directly is the realtime poll, once
    each time the polling is switched on. *)
Theorem polling_follows_clients (evs : list Polling.Event) :
  (polling_off (state_after evs) \/ polling_on (state_after evs)) /\
  polling_on (state_after (evs ++ [Polling.connection])) /\
  (polling_on (state_after evs) -> state_after (evs ++ [Polling.connection]) = state_after evs) /\
  polling_off (state_after (evs ++ [Polling.close 0])) /\
  (forall size, size <> 0%nat -> state_after (evs ++ [Polling.close size]) = state_after evs) /\
  Polling.called (state_after evs) = replicate (switched_on false evs) Polling.pollRealtime.
Proof.
  pose proof (after_off_or_on evs) as Hst.
  split; [exact Hst|]. rewrite !after_snoc. split; [|split; [|split; [|split]]].
  - now apply startPolling_on.
  - intros (a & b & c & Hp & _). simpl. unfold Polling.startPolling. now rewrite Hp.
  - now apply stopPolling_off.
  - intros size Hs. rewrite after_snoc. simpl.
    destruct size; [contradiction | reflexivity].
  - unfold state_after. rewrite (called_after Polling.initial false); [reflexivity|].
    repeat split.
Qed.

(** ** Polls and broadcast *)

Lemma fetch_exec (p : Polling.Poll) st tr o st' :
  exec (match p with
        | Polling.pollRealtime => Server.fetchRealtime
        | Polling.pollTotals => Server.fetchTotals
        | Polling.pollDevices => Server.fetchDevices
        end st) tr (o, st') ->
  match o with
  | Ok data =>
      poll_payload p (Server.cache st') = data /\
      exists raw t,
        tr = [EvCall (poll_op p) (Ok raw); EvNow t] /\
        poll_at p (Server.cache st') = t /\
        poll_value p st raw = Ok data
  | Err e => st' = st /\ exists r, tr = [EvCall (poll_op p) r]
  end.
Proof.
  destruct p; simpl; intros (r & tr' & -> & Hx).
  - destruct r as [data|e]; simpl in Hx.
    + destruct Hx as (t & tr2 & -> & [-> [= -> ->]]). split; [reflexivity|]. eauto 10.
    + destruct Hx as [-> [= -> ->]]. eauto.
  - destruct r as [data|e]; simpl in Hx.
    + destruct Hx as (t & tr2 & -> & [-> [= -> ->]]). split; [reflexivity|]. eauto 10.
    + destruct Hx as [-> [= -> ->]]. eauto.
  - destruct (obind r (Server.applyNicknames (Server.nicknames st))) as [data|e] eqn:E.
    + destruct Hx as (t & tr2 & -> & [-> [= -> ->]]). split; [reflexivity|].
      destruct r as [raw|e]; [eauto 10 | discriminate].
    + destruct Hx as [-> [= -> ->]]. eauto.
Qed.

(** X16. A poll never throws.  When its fetch fails (the client throws,
    or the annotation of the device status does) no frame is sent and the
    state is unchanged.  When it succeeds, every open client and no other
    is sent one frame, the same for all: its type is the type of the poll,
    its data is the value the fetch has just put in the cache for the
    poll (what the client returned, annotated with the nicknames for the
    devices), and its time is read after the time the fetch has put in
    the cache with the value. *)
Theorem poll_broadcasts_what_is_cached (p : Polling.Poll) clients st tr sent st' :
  exec (Polling.poll_body p clients st) tr (sent, st') ->
  (sent = [] /\ st' = st /\ exists r, tr = [EvCall (poll_op p) r]) \/
  (exists raw t ts msg,
     tr = [EvCall (poll_op p) (Ok raw); EvNow t; EvNow ts] /\
     poll_value p st raw = Ok (poll_payload p (Server.cache st')) /\
     poll_at p (Server.cache st') = t /\
     Polling.frame_type msg = poll_type p /\
     Polling.frame_data msg = poll_payload p (Server.cache st') /\
     Polling.frame_ts msg = ts /\
     sent = List.map (fun i => (i, msg)) (Polling.open_clients clients)).
Proof.
  intros Hx.
  assert (exec (Polling.poll (poll_type p)
                  (match p with
                   | Polling.pollRealtime => Server.fetchRealtime
                   | Polling.pollTotals => Server.fetchTotals
                   | Polling.pollDevices => Server.fetchDevices
                   end) clients st) tr (sent, st')) as Hp
    by (destruct p; exact Hx).
  clear Hx. unfold Polling.poll in Hp.
  apply exec_bind in Hp as ([o st1] & tr1 & tr2 & Hf & Hb & ->).
  apply fetch_exec in Hf. simpl in Hb. destruct o as [data|e].
  - right. destruct Hf as (Hpay & raw & t & -> & Hat & Hval).
    destruct Hb as (ts & tr3 & -> & [-> [= -> ->]]).
    exists raw, t, ts, (Polling.mkFrame (poll_type p) data ts). simpl.
    rewrite Hpay. auto 10.
  - left. destruct Hf as (-> & r & ->). destruct Hb as [-> [= -> ->]]. eauto.
Qed.

Lemma poll_broadcasts_what_is_cached_witness :
  let r := run (demo_client (Ok (VObj [(lit "gen_kw", VNum (Dec 15 (-1)))]))) []
               (Polling.poll_body Polling.pollRealtime [1; 3; 1] demo_state) in
  List.map fst r.2.1 = [0%nat; 2%nat] /\
  Forall (fun s => Polling.frame_type s.2 = lit "realtime" /\
                   Polling.frame_data s.2 = Server.realtime (Server.cache r.2.2)) r.2.1.
Proof.
  intros r.
  destruct (poll_broadcasts_what_is_cached Polling.pollRealtime [1; 3; 1] demo_state
              r.1 r.2.1 r.2.2)
    as [(Hs & _)|(raw & t & ts & msg & _ & _ & _ & Hty & Hd & _ & Hs)].
  - rewrite <- surjective_pairing. apply run_exec.
  - exfalso. assert (length r.2.1 = 2%nat) as Hl by (vm_compute; reflexivity).
    rewrite Hs in Hl. discriminate.
  - rewrite Hs. split; [reflexivity|]. simpl in Hd, Hty.
    repeat constructor; assumption.
Defined.

(** ** Escaping *)

Lemma flat_map_flat_map {A B C} (f : A -> list B) (g : B -> list C) l :
  flat_map g (flat_map f l) = flat_map (fun x => flat_map g (f x)) l.
Proof.
  induction l as [|x l IH]; simpl; [reflexivity|].
  now rewrite flat_map_app, IH.
Qed.

Lemma escHtml_one_pass v :
  App.escHtml v = obind (ToString v) (fun s => Ok (flat_map entity s)).
Proof.
  unfold App.escHtml, App.replace_all.
  destruct (ToString v) as [s|e]; [|reflexivity]. cbn [obind]. f_equal.
  rewrite !flat_map_flat_map.
  apply flat_map_ext. intros c. unfold entity.
  destruct (N.eqb c 38) eqn:E38; [reflexivity|].
  cbn [flat_map app]. destruct (N.eqb c 60) eqn:E60; [reflexivity|].
  cbn [flat_map app]. destruct (N.eqb c 62) eqn:E62; reflexivity.
Qed.

Lemma unescape_skip a r : unescape (length a) (a ++ r) = unescape 0 r.
Proof. induction a as [|c a IH]; simpl; [reflexivity | exact IH]. Qed.

Lemma starts_with_other x p c r :
  N.eqb c x = false -> starts_with (x :: p) (c :: r) = false.
Proof. intros E. cbn [starts_with]. now rewrite N.eqb_sym, E. Qed.

Lemma unescape_cons c r :
  unescape 0 (c :: r) =
  if starts_with (lit "&amp;") (c :: r) then 38%N :: unescape 4 r
  else if starts_with (lit "&lt;") (c :: r) then 60%N :: unescape 3 r
  else if starts_with (lit "&gt;") (c :: r) then 62%N :: unescape 3 r
  else c :: unescape 0 r.
Proof. reflexivity. Qed.

Lemma unescape_entity c r : unescape 0 (entity c ++ r) = c :: unescape 0 r.
Proof.
  unfold entity.
  destruct (N.eqb c 38) eqn:E38; [apply N.eqb_eq in E38 as ->; reflexivity|].
  destruct (N.eqb c 60) eqn:E60; [apply N.eqb_eq in E60 as ->; reflexivity|].
  destruct (N.eqb c 62) eqn:E62; [apply N.eqb_eq in E62 as ->; reflexivity|].
  change ([c] ++ r) with (c :: r). rewrite unescape_cons.
  change (lit "&amp;") with (38%N :: lit "amp;").
  change (lit "&lt;") with (38%N :: lit "lt;").
  change (lit "&gt;") with (38%N :: lit "gt;").
  now rewrite !starts_with_other by exact E38.
Qed.

(** X17. [escHtml] throws exactly when the conversion of its argument
    to a string does.  Otherwise it leaves no angle bracket in its
    result, and the result reads back, entity by entity, as the text it
    was given, so that two texts are never confused.  It escapes nothing
    else: the quotation marks of the text are in the result as they
    were. *)
Theorem escHtml_escapes_markup (v : JsVal) :
  match ToString v with
  | Err e => App.escHtml v = Err e
  | Ok s =>
      exists r,
        App.escHtml v = Ok r /\
        List.filter is_angle r = [] /\
        unescape 0 r = s /\
        List.filter is_quote r = List.filter is_quote s
  end.
Proof.
  rewrite escHtml_one_pass. destruct (ToString v) as [s|e]; [|reflexivity].
  cbn [obind]. eexists. split; [reflexivity|].
  induction s as [|c s (IH1 & IH2 & IH3)]; [repeat split|].
  cbn [flat_map]. rewrite !List.filter_app, unescape_entity, IH1, IH2, IH3.
  split; [|split; [reflexivity|]].
  - rewrite app_nil_r. unfold entity.
    destruct (N.eqb c 38) eqn:E38; [reflexivity|].
    destruct (N.eqb c 60) eqn:E60; [reflexivity|].
    destruct (N.eqb c 62) eqn:E62; [reflexivity|].
    simpl. unfold is_angle. now rewrite E60, E62.
  - change (c :: s) with ([c] ++ s). rewrite List.filter_app.
    f_equal. unfold entity.
    destruct (N.eqb c 38) eqn:E38; [apply N.eqb_eq in E38 as ->; reflexivity|].
    destruct (N.eqb c 60) eqn:E60; [apply N.eqb_eq in E60 as ->; reflexivity|].
    destruct (N.eqb c 62) eqn:E62; [apply N.eqb_eq in E62 as ->; reflexivity|].
    reflexivity.
Qed.
